(** * PromQL and Azure Pipelines validators: a shallow embedding

    This development embeds three scripts of the repository,

    - [promql-validator/scripts/validate_syntax.py]      (module [SyntaxValidator]),
    - [promql-validator/scripts/check_best_practices.py] (module [BestPractices]),
    - [azure-pipelines-validator/scripts/validate_syntax.py], the structure
      check                                             (module [AzurePipelines]),
      the line index, the task format and the names of variables
      (modules [AzureLines], [AzureTasks], [AzureVariables]),

    the exit status of the entry points of the two PromQL scripts
    (modules [SyntaxMain], [BestMain]), together with the part of the Python runtime they rely on: string
    methods (module [Py]) and the backtracking regular-expression matcher
    behind [re.search], [re.findall], [re.finditer], [re.fullmatch] and
    [re.sub] (module [Re]).

    Conventions of the embedding.

    - A Python [str] is a [list ascii]; a character stands for the code
      point of the same number, U+0000 to U+00FF, and the character classes
      ([\s], [\w], [\d], [str.lower], [str.strip]) are the interpreter's on
      that range.
    - A checker instance is a record of its attributes; a method is a
      function from the instance to the updated instance.
    - [int / int] and [int * float] raise [OverflowError] when the result
      is not a finite double; the checks only compare such results with
      constants that are exact doubles, so the comparisons are done on [Z].
    - The iteration order of a Python [set] is not fixed by the language:
      where the code iterates over one, the order is an argument. *)

From Stdlib Require Import Ascii String DecimalString.
From Stdlib Require Import ZArith NArith Lia Bool Arith List Permutation.
From stdpp Require gmap strings.
Import ListNotations.
Open Scope list_scope.
Open Scope bool_scope.

(** ** Python strings *)

Module Py.

Definition str := list ascii.

Definition ord (c : ascii) : N := N_of_ascii c.
Definition chr (n : N) : ascii := ascii_of_N n.

(** A string literal of the source. A backquote, which no literal of the
    scripts contains, is written where the literal has a double quote. *)
Definition unquote (c : ascii) : ascii :=
  if (ord c =? 96)%N then chr 34 else c.

Definition lit (s : string) : str := map unquote (list_ascii_of_string s).

Definition in_range (lo hi : N) (c : ascii) : bool :=
  ((lo <=? ord c) && (ord c <=? hi))%N.

Definition is_code (n : N) (c : ascii) : bool := (ord c =? n)%N.

(** The double quote, the backslash and the line feed. *)
Definition dq : ascii := chr 34.
Definition bslash : ascii := chr 92.
Definition newline : ascii := chr 10.

(** [str.isspace] on one character, which is also [\s]: the ASCII white
    space, the separators U+001C to U+001F, NEL and the no-break space. *)
Definition isspace (c : ascii) : bool :=
  in_range 9 13 c || in_range 28 32 c || is_code 133 c || is_code 160 c.

(** [str.isdecimal], which is [\d]. *)
Definition isdecimal (c : ascii) : bool := in_range 48 57 c.

Definition isalpha (c : ascii) : bool :=
  in_range 65 90 c || in_range 97 122 c
  || is_code 170 c || is_code 181 c || is_code 186 c
  || in_range 192 214 c || in_range 216 246 c || in_range 248 255 c.

(** [str.isalnum]: letters, decimal digits, and the characters with a
    digit or numeric value (superscripts and vulgar fractions). *)
Definition isalnum (c : ascii) : bool :=
  isalpha c || isdecimal c
  || is_code 178 c || is_code 179 c || is_code 185 c || in_range 188 190 c.

(** [\w]. *)
Definition isword (c : ascii) : bool := isalnum c || is_code 95 c.

Definition has_upper (c : ascii) : bool :=
  in_range 65 90 c || in_range 192 214 c || in_range 216 222 c.

Definition has_lower_pair (c : ascii) : bool :=
  in_range 97 122 c || in_range 224 246 c || in_range 248 254 c.

Definition lower_chr (c : ascii) : ascii :=
  if has_upper c then chr (ord c + 32) else c.

(** The upper-case partner inside the range, when there is one. *)
Definition upper_chr (c : ascii) : ascii :=
  if has_lower_pair c then chr (ord c - 32) else c.

(** [s.lower()] *)
Definition lower (s : str) : str := map lower_chr s.

Definition eqb_chr (a b : ascii) : bool := Ascii.eqb a b.

Fixpoint eqb (s t : str) : bool :=
  match s, t with
  | [], [] => true
  | a :: s', b :: t' => eqb_chr a b && eqb s' t'
  | _, _ => false
  end.

(** [x in xs] for a collection of strings. *)
Definition mem (x : str) (xs : list str) : bool := existsb (eqb x) xs.

Fixpoint startswith (p s : str) : bool :=
  match p, s with
  | [], _ => true
  | a :: p', b :: s' => eqb_chr a b && startswith p' s'
  | _ :: _, [] => false
  end.

(** [s.endswith(p)] *)
Definition endswith (s p : str) : bool := startswith (rev p) (rev s).

(** [sub in s] *)
Fixpoint contains (sub s : str) : bool :=
  startswith sub s ||
  match s with
  | [] => false
  | _ :: s' => contains sub s'
  end.

Fixpoint lstrip (s : str) : str :=
  match s with
  | c :: s' => if isspace c then lstrip s' else s
  | [] => []
  end.

Definition rstrip (s : str) : str := rev (lstrip (rev s)).

(** [s.strip()] *)
Definition strip (s : str) : str := rstrip (lstrip s).

(** [s.split(sep)] for a separator of one character. *)
Fixpoint split (sep : ascii) (s : str) : list str :=
  match s with
  | [] => [[]]
  | c :: s' =>
      if eqb_chr c sep then [] :: split sep s'
      else match split sep s' with
           | p :: ps => (c :: p) :: ps
           | [] => [[c]]
           end
  end.

(** [s.rsplit(sep, 1)[0]] for a separator of one character: the part
    before the last separator, the whole string when there is none. *)
Fixpoint rsplit1_head (sep : ascii) (s : str) : str :=
  match s with
  | [] => []
  | c :: s' =>
      if existsb (eqb_chr sep) s' then c :: rsplit1_head sep s'
      else if eqb_chr c sep then [] else s
  end.

(** [s.count(sub)]: occurrences that do not overlap, [sub] not empty. *)
Fixpoint count_from (fuel : nat) (sub s : str) : nat :=
  match fuel with
  | O => 0
  | S fuel' =>
      match s with
      | [] => 0
      | _ :: s' =>
          if startswith sub s
          then S (count_from fuel' sub (skipn (length sub) s))
          else count_from fuel' sub s'
      end
  end.

Definition count (sub s : str) : nat := count_from (length s) sub s.

(** [sep.join(xs)] *)
Fixpoint join (sep : str) (xs : list str) : str :=
  match xs with
  | [] => []
  | [x] => x
  | x :: xs' => x ++ sep ++ join sep xs'
  end.

(** [str(n)] for a natural number. *)
Definition str_of_nat (n : nat) : str :=
  lit (NilEmpty.string_of_uint (Nat.to_uint n)).

(** [int(s)] for a string of decimal digits. *)
Definition int_of_digits (s : str) : Z :=
  fold_left (fun acc c => (10 * acc + Z.of_N (ord c - 48))%Z) s 0%Z.

(** [not xs] for a sequence. *)
Definition is_empty {A} (l : list A) : bool :=
  match l with [] => true | _ :: _ => false end.

(** [any(f(x) for x in xs)] *)
Definition any {A} (f : A -> bool) (xs : list A) : bool := existsb f xs.

End Py.

(** ** Regular expressions

    The patterns of the scripts are written as terms of [regex]; [rmatch]
    is the backtracking matcher of the [re] module in continuation-passing
    style: alternatives are tried from left to right, repetitions are
    greedy, and the first complete match in that order is the result. *)

Module Re.
Import Py.

Inductive cls_item : Type :=
| CChar (a : ascii)          (* a single character *)
| CRange (lo hi : N)         (* a-z *)
| CDigit                     (* \d *)
| CSpace                     (* \s *)
| CWord.                     (* \w *)

Inductive regex : Type :=
| Eps
| Chr (a : ascii)
| Cls (neg : bool) (items : list cls_item)   (* [...] and [^...] *)
| Dot                                        (* . *)
| Seq (r1 r2 : regex)
| Alt (r1 r2 : regex)
| Star (r : regex)                           (* r*, greedy *)
| Group (n : nat) (r : regex)                (* the n-th capturing group *)
| WordB                                      (* \b *)
| NegLook (r : regex).                       (* (?!r) *)

Definition Plus (r : regex) : regex := Seq r (Star r).
Definition Opt (r : regex) : regex := Alt r Eps.

(** A literal string: its characters in sequence. *)
Fixpoint Str (s : str) : regex :=
  match s with
  | [] => Eps
  | [c] => Chr c
  | c :: s' => Seq (Chr c) (Str s')
  end.

Definition Lit (s : string) : regex := Str (lit s).

Fixpoint Seqs (rs : list regex) : regex :=
  match rs with
  | [] => Eps
  | [r] => r
  | r :: rs' => Seq r (Seqs rs')
  end.

Fixpoint Alts (rs : list regex) : regex :=
  match rs with
  | [] => Cls false []
  | [r] => r
  | r :: rs' => Alt r (Alts rs')
  end.

(** [x|y|z] over literal strings. *)
Definition AltLits (ss : list string) : regex := Alts (map Lit ss).

(** One class item against one character. With [re.IGNORECASE] the
    character is lowered and compared with the lowered members of the
    class. *)
Definition item_match (ic : bool) (c : ascii) (it : cls_item) : bool :=
  match it with
  | CChar a => if ic then eqb_chr (lower_chr c) (lower_chr a) else eqb_chr c a
  | CRange lo hi =>
      if ic
      then in_range lo hi (lower_chr c) || in_range lo hi (upper_chr (lower_chr c))
      else in_range lo hi c
  | CDigit => isdecimal c
  | CSpace => isspace c
  | CWord => isword c
  end.

Definition cls_match (ic neg : bool) (items : list cls_item) (c : ascii) : bool :=
  xorb neg (existsb (item_match ic c) items).

Definition chr_match (ic : bool) (a c : ascii) : bool :=
  item_match ic c (CChar a).

Definition dot_match (c : ascii) : bool := negb (eqb_chr c newline).

(** The matcher's position: the character before it, the text after it,
    and the groups captured so far (most recent first). *)
Record mstate : Type := MState {
  prev : option ascii;
  rest : str;
  caps : list (nat * str)
}.

Definition step (p : ascii -> bool) (k : mstate -> option mstate) (st : mstate)
  : option mstate :=
  match rest st with
  | c :: t => if p c then k (MState (Some c) t (caps st)) else None
  | [] => None
  end.

Definition word_before (st : mstate) : bool :=
  match prev st with Some c => isword c | None => false end.

Definition word_after (st : mstate) : bool :=
  match rest st with c :: _ => isword c | [] => false end.

Definition at_boundary (st : mstate) : bool :=
  negb (Bool.eqb (word_before st) (word_after st)).

(** The text consumed between two positions of one scan. *)
Definition consumed (st st' : mstate) : str :=
  firstn (length (rest st) - length (rest st')) (rest st).

Definition set_cap (n : nat) (st st' : mstate) : mstate :=
  MState (prev st') (rest st') ((n, consumed st st') :: caps st').

(** The iteration of a star over [body], the matcher of the repeated
    pattern: another round first (it must consume something), then the
    continuation. At most [fuel] rounds, one per remaining character. *)
Fixpoint star_loop (body : (mstate -> option mstate) -> mstate -> option mstate)
  (k : mstate -> option mstate) (fuel : nat) (st : mstate) {struct fuel}
  : option mstate :=
  match fuel with
  | O => k st
  | S fuel' =>
      match body (fun st' =>
                    if length (rest st') <? length (rest st)
                    then star_loop body k fuel' st' else None) st with
      | Some res => Some res
      | None => k st
      end
  end.

Fixpoint rmatch (ic : bool) (r : regex) (k : mstate -> option mstate)
  (st : mstate) {struct r} : option mstate :=
  match r with
  | Eps => k st
  | Chr a => step (chr_match ic a) k st
  | Cls neg items => step (cls_match ic neg items) k st
  | Dot => step dot_match k st
  | Seq r1 r2 => rmatch ic r1 (rmatch ic r2 k) st
  | Alt r1 r2 =>
      match rmatch ic r1 k st with
      | Some res => Some res
      | None => rmatch ic r2 k st
      end
  | Star r1 => star_loop (rmatch ic r1) k (length (rest st)) st
  | Group n r1 => rmatch ic r1 (fun st' => k (set_cap n st st')) st
  | WordB => if at_boundary st then k st else None
  | NegLook r1 =>
      match rmatch ic r1 Some st with
      | Some _ => None
      | None => k st
      end
  end.

(** A match object: where the match starts, its text, its groups and the
    position after it. *)
Record match_obj : Type := MatchObj {
  m_start : nat;
  m_text : str;
  m_caps : list (nat * str);
  m_end : mstate
}.

(** [m.group(n)], the empty string for a group that did not take part
    (as [findall] reports it). *)
Fixpoint lookup_cap (n : nat) (cs : list (nat * str)) : option str :=
  match cs with
  | [] => None
  | (i, s) :: cs' => if Nat.eqb i n then Some s else lookup_cap n cs'
  end.

Definition group (n : nat) (m : match_obj) : str :=
  match lookup_cap n (m_caps m) with Some s => s | None => [] end.

(** The scan of [re.search]: the leftmost position at which the pattern
    matches. *)
Fixpoint search_at (ic : bool) (r : regex) (pv : option ascii) (s : str)
  (skipped : nat) : option match_obj :=
  let st := MState pv s [] in
  match rmatch ic r Some st with
  | Some st' => Some (MatchObj skipped (consumed st st') (caps st') st')
  | None =>
      match s with
      | [] => None
      | c :: t => search_at ic r (Some c) t (S skipped)
      end
  end.

Definition search_obj (ic : bool) (r : regex) (s : str) : option match_obj :=
  search_at ic r None s 0.

(** [re.search(r, s)] used as a truth value. *)
Definition search (ic : bool) (r : regex) (s : str) : bool :=
  match search_obj ic r s with Some _ => true | None => false end.

(** [re.fullmatch(r, s)] used as a truth value. *)
Definition fullmatch (ic : bool) (r : regex) (s : str) : bool :=
  match rmatch ic r
          (fun st => match rest st with [] => Some st | _ :: _ => None end)
          (MState None s []) with
  | Some _ => true
  | None => false
  end.

(** [re.finditer]: the matches from left to right, without overlap. After
    an empty match the scan moves on by one character. *)
Fixpoint finditer_from (fuel : nat) (ic : bool) (r : regex)
  (pv : option ascii) (s : str) (offset : nat) : list match_obj :=
  match fuel with
  | O => []
  | S fuel' =>
      match search_at ic r pv s offset with
      | None => []
      | Some m =>
          let off' := m_start m + length (m_text m) in
          match m_text m with
          | _ :: _ =>
              m :: finditer_from fuel' ic r (prev (m_end m)) (rest (m_end m)) off'
          | [] =>
              match rest (m_end m) with
              | [] => [m]
              | c :: t => m :: finditer_from fuel' ic r (Some c) t (S off')
              end
          end
      end
  end.

Definition finditer (ic : bool) (r : regex) (s : str) : list match_obj :=
  finditer_from (S (length s)) ic r None s 0.

(** [re.findall] for a pattern without groups, with one group, with two
    and with four. *)
Definition findall0 (ic : bool) (r : regex) (s : str) : list str :=
  map m_text (finditer ic r s).

Definition findall1 (ic : bool) (r : regex) (s : str) : list str :=
  map (group 1) (finditer ic r s).

Definition findall2 (ic : bool) (r : regex) (s : str) : list (str * str) :=
  map (fun m => (group 1 m, group 2 m)) (finditer ic r s).

Definition findall4 (ic : bool) (r : regex) (s : str)
  : list (str * str * str * str) :=
  map (fun m => (group 1 m, group 2 m, group 3 m, group 4 m)) (finditer ic r s).

(** [re.sub(r, repl, s)]: the text between the matches is kept, each match
    is replaced by [repl] applied to it. *)
Fixpoint sub_from (fuel : nat) (ic : bool) (r : regex)
  (repl : match_obj -> str) (pv : option ascii) (s : str) : str :=
  match fuel with
  | O => s
  | S fuel' =>
      match search_at ic r pv s 0 with
      | None => s
      | Some m =>
          let kept := firstn (m_start m) s in
          match m_text m with
          | _ :: _ =>
              kept ++ repl m ++
              sub_from fuel' ic r repl (prev (m_end m)) (rest (m_end m))
          | [] =>
              match rest (m_end m) with
              | [] => kept ++ repl m
              | c :: t => kept ++ repl m ++ c :: sub_from fuel' ic r repl (Some c) t
              end
          end
      end
  end.

Definition sub (ic : bool) (r : regex) (repl : match_obj -> str) (s : str) : str :=
  sub_from (S (length s)) ic r repl None s.

(** [re.escape(s)] followed by compilation: the escaped text matches [s]
    literally. *)
Definition Escaped (s : str) : regex := Str s.

(** Common classes. *)
Definition digit : regex := Cls false [CDigit].
Definition space : regex := Cls false [CSpace].
Definition spaces : regex := Star space.
Definition not_chr (a : ascii) : regex := Cls true [CChar a].
Definition one_of (s : string) : regex := Cls false (map CChar (lit s)).
Definition none_of (s : string) : regex := Cls true (map CChar (lit s)).

(** [a-zA-Z_:] and [a-zA-Z0-9_:], and the identifier they spell. *)
Definition name_start : regex :=
  Cls false [CRange 97 122; CRange 65 90; CChar (chr 95); CChar (chr 58)].
Definition name_char : regex :=
  Cls false [CRange 97 122; CRange 65 90; CRange 48 57; CChar (chr 95); CChar (chr 58)].
Definition metric_name : regex := Seq name_start (Star name_char).

(** [a-zA-Z_] and [a-zA-Z0-9_] *)
Definition label_start : regex :=
  Cls false [CRange 97 122; CRange 65 90; CChar (chr 95)].
Definition label_char : regex :=
  Cls false [CRange 97 122; CRange 65 90; CRange 48 57; CChar (chr 95)].

End Re.

(** ** Findings *)

Inductive Severity : Type := error | warning | info.

Definition Severity_eqb (a b : Severity) : bool :=
  match a, b with
  | error, error | warning, warning | info, info => true
  | _, _ => false
  end.

(** A finding is the dictionary a check appends: its [type], [message] and
    [severity], and, for some checks, a [position], a [recommendation] or a
    [hint]. *)
Record Finding : Type := mkFinding {
  ftype : string;
  message : Py.str;
  severity : Severity;
  position : option nat;
  recommendation : option Py.str;
  hint : option Py.str
}.

(** ** promql-validator/scripts/validate_syntax.py *)

Module SyntaxValidator.
Import Py Re.
Open Scope string_scope.
Open Scope nat_scope.
Open Scope list_scope.
Open Scope bool_scope.

(** [METRIC_NAME_PATTERN] and [DURATION_PATTERN]. *)
Definition METRIC_NAME_PATTERN : regex := metric_name.

Definition DURATION_PATTERN : regex :=
  Seq (Plus digit) (AltLits ["ms"; "s"; "m"; "h"; "d"; "w"; "y"]).

(** The class attribute [FUNCTIONS], in the order of the set display. *)
Definition FUNCTIONS : list str := map lit
  [ "sum"; "min"; "max"; "avg"; "group"; "stddev"; "stdvar"; "count"; "count_values";
    "bottomk"; "topk"; "quantile";
    "limitk"; "limit_ratio";
    "rate"; "irate"; "increase"; "delta"; "idelta"; "deriv";
    "timestamp"; "time"; "minute"; "hour"; "day_of_month"; "day_of_week";
    "days_in_month"; "month"; "year";
    "abs"; "ceil"; "floor"; "round"; "sqrt"; "exp"; "ln"; "log2"; "log10";
    "sin"; "cos"; "tan"; "asin"; "acos"; "atan"; "sinh"; "cosh"; "tanh";
    "asinh"; "acosh"; "atanh"; "deg"; "rad"; "sgn"; "clamp"; "clamp_max"; "clamp_min";
    "histogram_quantile"; "histogram_count"; "histogram_sum"; "histogram_fraction";
    "histogram_avg"; "histogram_stddev"; "histogram_stdvar";
    "label_replace"; "label_join";
    "changes"; "resets"; "avg_over_time"; "min_over_time"; "max_over_time";
    "sum_over_time"; "count_over_time"; "quantile_over_time"; "stddev_over_time";
    "stdvar_over_time"; "last_over_time"; "present_over_time"; "mad_over_time";
    "predict_linear";
    "holt_winters";
    "double_exponential_smoothing";
    "sort"; "sort_desc"; "sort_by_label"; "sort_by_label_desc";
    "absent"; "absent_over_time"; "scalar"; "vector";
    "info";
    "pi" ].

Definition NON_FUNCTION_KEYWORDS : list str := map lit
  [ "by"; "without"; "on"; "ignoring"; "group_left"; "group_right"; "bool" ].

(** The instance: [self.query], [self.errors], [self.warnings]. *)
Record validator : Type := Validator {
  query : str;
  errors : list Finding;
  warnings : list Finding
}.

Definition init (q : str) : validator := Validator (strip q) [] [].

Definition add_error (f : Finding) (v : validator) : validator :=
  Validator (query v) (errors v ++ [f]) (warnings v).

Definition add_warning (f : Finding) (v : validator) : validator :=
  Validator (query v) (errors v) (warnings v ++ [f]).

Definition finding (t : string) (msg : str) (sev : Severity) : Finding :=
  mkFinding t msg sev None None None.

Definition finding_at (t : string) (msg : str) (i : nat) : Finding :=
  mkFinding t msg error (Some i) None None.

(** The result dictionary. *)
Record Report : Type := mkReport {
  status : string;
  report_query : str;
  report_errors : list Finding;
  report_warnings : list Finding;
  valid : bool
}.

Definition build_result (v : validator) : Report :=
  let has_errors := 0 <? length (errors v) in
  let has_warnings := 0 <? length (warnings v) in
  let status :=
    if has_errors then "ERROR"
    else if has_warnings then "WARNING"
    else "VALID" in
  mkReport status (query v) (errors v) (warnings v) (negb has_errors).

(** *** [_check_balanced_delimiters] *)

(** The local variables of the scan. The three lists are stacks of
    positions: [append] adds at the end, [pop] removes the last. *)
Record scan : Type := Scan {
  brackets : list nat;
  braces : list nat;
  parens : list nat;
  in_string : bool;
  escape_next : bool
}.

Definition scan0 : scan := Scan [] [] [] false false.

Definition unmatched (t : string) (what : string) (i : nat) : Finding :=
  finding_at t (lit "Unmatched closing " ++ lit what ++ lit " at position " ++ str_of_nat i) i.

Definition unclosed (t : string) (what : string) (i : nat) : Finding :=
  finding_at t (lit "Unclosed " ++ lit what ++ lit " at position " ++ str_of_nat i) i.

(** One round of the [for i, char in enumerate(self.query)] loop. *)
Definition scan_char (i : nat) (c : ascii) (sv : scan * validator) : scan * validator :=
  let (s, v) := sv in
  if escape_next s then
    (Scan (brackets s) (braces s) (parens s) (in_string s) false, v)
  else if eqb_chr c bslash then
    (Scan (brackets s) (braces s) (parens s) (in_string s) true, v)
  else if eqb_chr c dq then
    (Scan (brackets s) (braces s) (parens s) (negb (in_string s)) false, v)
  else if in_string s then (s, v)
  else if eqb_chr c "["%char then
    (Scan (brackets s ++ [i]) (braces s) (parens s) false false, v)
  else if eqb_chr c "]"%char then
    if is_empty (brackets s)
    then (s, add_error (unmatched "unmatched_bracket" "bracket" i) v)
    else (Scan (removelast (brackets s)) (braces s) (parens s) false false, v)
  else if eqb_chr c "{"%char then
    (Scan (brackets s) (braces s ++ [i]) (parens s) false false, v)
  else if eqb_chr c "}"%char then
    if is_empty (braces s)
    then (s, add_error (unmatched "unmatched_brace" "brace" i) v)
    else (Scan (brackets s) (removelast (braces s)) (parens s) false false, v)
  else if eqb_chr c "("%char then
    (Scan (brackets s) (braces s) (parens s ++ [i]) false false, v)
  else if eqb_chr c ")"%char then
    if is_empty (parens s)
    then (s, add_error (unmatched "unmatched_paren" "parenthesis" i) v)
    else (Scan (brackets s) (braces s) (removelast (parens s)) false false, v)
  else (s, v).

Fixpoint scan_from (i : nat) (cs : str) (sv : scan * validator) : scan * validator :=
  match cs with
  | [] => sv
  | c :: cs' => scan_from (S i) cs' (scan_char i c sv)
  end.

(** [stack[-1]] of a stack known to be non-empty. *)
Definition top (stack : list nat) : nat := last stack 0.

Definition check_balanced_delimiters (v : validator) : validator :=
  let (s, v1) := scan_from 0 (query v) (scan0, v) in
  let v2 :=
    if in_string s
    then add_error (finding "unclosed_string" (lit "Unclosed string literal") error) v1
    else v1 in
  let v3 :=
    if is_empty (brackets s) then v2
    else add_error (unclosed "unclosed_bracket" "bracket" (top (brackets s))) v2 in
  let v4 :=
    if is_empty (braces s) then v3
    else add_error (unclosed "unclosed_brace" "brace" (top (braces s))) v3 in
  if is_empty (parens s) then v4
  else add_error (unclosed "unclosed_paren" "parenthesis" (top (parens s))) v4.

(** *** [_check_metric_selectors] and [_check_utf8_metric_syntax] *)

(** A quoted string: a quote, then characters other than quote and
    backslash or escaped characters, then a quote. *)
Definition string_literal : regex :=
  Seqs [Chr dq; Star (Alt (Cls true [CChar dq; CChar bslash]) (Seq (Chr bslash) Dot)); Chr dq].

(** [\{\s*\}] *)
Definition empty_matcher : regex := Seqs [Chr "{"%char; spaces; Chr "}"%char].

(** An opening brace, white space, and a quoted non-empty name (group 1). *)
Definition utf8_selector_pattern : regex :=
  Seqs [Chr "{"%char; spaces; Chr dq; Group 1 (Plus (not_chr dq)); Chr dq].

(** [\{\s*([a-zA-Z_][a-zA-Z0-9_.]*\.[a-zA-Z0-9_.]+)\s*=] *)
Definition dotted_char : regex :=
  Cls false [CRange 97 122; CRange 65 90; CRange 48 57; CChar "_"%char; CChar "."%char].

Definition wrong_utf8_pattern : regex :=
  Seqs [Chr "{"%char; spaces;
        Group 1 (Seqs [label_start; Star dotted_char; Chr "."%char; Plus dotted_char]);
        spaces; Chr "="%char].

Definition utf8_one (metric_name : str) (v : validator) : validator :=
  if fullmatch false METRIC_NAME_PATTERN metric_name then
    add_warning
      (finding "utf8_metric_unnecessary_quoting"
         (lit "Metric name " ++ [dq] ++ metric_name ++ [dq]
          ++ lit " uses UTF-8 quoting but is valid in classic format") info) v
  else if is_empty (strip metric_name) then
    add_error
      (finding "invalid_utf8_metric"
         (lit "Empty quoted metric name in UTF-8 selector") error) v
  else if contains [chr 0] metric_name then
    add_error
      (finding "invalid_utf8_metric"
         (lit "Metric name " ++ [dq] ++ metric_name ++ [dq]
          ++ lit " contains null character") error) v
  else v.

Definition wrong_utf8_one (suspicious_name : str) (v : validator) : validator :=
  if contains (lit ".") suspicious_name then
    add_warning
      (mkFinding "possible_utf8_syntax_error"
         (lit "Label name " ++ [dq] ++ suspicious_name ++ [dq]
          ++ lit " contains dots - did you mean to use UTF-8 metric syntax?")
         warning None None
         (Some (lit "For UTF-8 metric names use: {" ++ [dq] ++ suspicious_name
                ++ [dq] ++ lit "}"))) v
  else v.

(** [for x in xs: body(x)] on the instance. *)
Definition for_each {A} (body : A -> validator -> validator) (xs : list A)
  (v : validator) : validator :=
  fold_left (fun acc x => body x acc) xs v.

Definition check_utf8_metric_syntax (v : validator) : validator :=
  let v1 := for_each utf8_one
              (map (group 1) (finditer false utf8_selector_pattern (query v))) v in
  for_each wrong_utf8_one
    (map (group 1) (finditer false wrong_utf8_pattern (query v))) v1.

Definition check_metric_selectors (v : validator) : validator :=
  let query_no_strings :=
    sub false string_literal (fun _ => [dq; dq]) (query v) in
  let v1 :=
    if search false empty_matcher query_no_strings then
      add_warning
        (finding "empty_label_matcher"
           (lit "Empty label matcher {} found - this may match many time series")
           warning) v
    else v in
  check_utf8_metric_syntax v1.

(** *** [_check_time_ranges] *)

(** [\[([^\]]+)\]] *)
Definition range_pattern : regex :=
  Seqs [Chr "["%char; Group 1 (Plus (not_chr "]"%char)); Chr "]"%char].

Definition time_range_one (range_str0 : str) (v : validator) : validator :=
  let range_str := strip range_str0 in
  if contains (lit ":") range_str then
    let parts := split ":"%char range_str in
    if 2 <? length parts then
      add_error
        (finding "invalid_subquery"
           (lit "Invalid subquery syntax: [" ++ range_str ++ lit "]") error) v
    else
      let range_part := strip (nth 0 parts []) in
      let resolution_part :=
        if 1 <? length parts then strip (nth 1 parts []) else [] in
      let v1 :=
        if negb (is_empty range_part)
           && negb (fullmatch false DURATION_PATTERN range_part)
        then add_error
               (finding "invalid_duration"
                  (lit "Invalid duration in subquery range: " ++ range_part) error) v
        else v in
      if negb (is_empty resolution_part)
         && negb (fullmatch false DURATION_PATTERN resolution_part)
      then add_error
             (finding "invalid_duration"
                (lit "Invalid duration in subquery resolution: " ++ resolution_part)
                error) v1
      else v1
  else
    if negb (fullmatch false DURATION_PATTERN range_str) then
      add_error
        (finding "invalid_duration"
           (lit "Invalid duration syntax: " ++ range_str
            ++ lit ". Expected format like 5m, 1h, 7d") error) v
    else v.

Definition check_time_ranges (v : validator) : validator :=
  for_each time_range_one (findall1 false range_pattern (query v)) v.

(** *** [_levenshtein_distance] and [_find_close_matches] *)

(** The inner loop [for j, c2 in enumerate(s2)]: it extends [current_row]
    by one entry per character of [s2]. *)
Fixpoint lev_inner (c1 : ascii) (s2 : str) (j : nat)
  (previous_row current_row : list nat) : list nat :=
  match s2 with
  | [] => current_row
  | c2 :: s2' =>
      let insertions := nth (j + 1) previous_row 0 + 1 in
      let deletions := nth j current_row 0 + 1 in
      let substitutions :=
        nth j previous_row 0 + (if eqb_chr c1 c2 then 0 else 1) in
      lev_inner c1 s2' (S j) previous_row
        (current_row ++ [Nat.min insertions (Nat.min deletions substitutions)])
  end.

(** The outer loop [for i, c1 in enumerate(s1)]. *)
Fixpoint lev_outer (s1 : str) (i : nat) (s2 : str) (previous_row : list nat)
  : list nat :=
  match s1 with
  | [] => previous_row
  | c1 :: s1' => lev_outer s1' (S i) s2 (lev_inner c1 s2 0 previous_row [i + 1])
  end.

Definition lev_ordered (s1 s2 : str) : nat :=
  if length s2 =? 0 then length s1
  else last (lev_outer s1 0 s2 (seq 0 (length s2 + 1))) 0.

Definition levenshtein_distance (s1 s2 : str) : nat :=
  if length s1 <? length s2 then lev_ordered s2 s1 else lev_ordered s1 s2.

(** [abs(a - b)] on lengths. *)
Definition abs_diff (a b : nat) : nat := (a - b) + (b - a).

Definition is_close (max_distance : nat) (word candidate : str) : bool :=
  if max_distance <? abs_diff (length word) (length candidate) then false
  else levenshtein_distance word candidate <=? max_distance.

(** [candidates] is the set in the order in which the loop meets it. *)
Definition find_close_matches (word : str) (candidates : list str) : list str :=
  firstn 3 (filter (is_close 2 word) candidates).

(** *** [_check_function_syntax] *)

(** An identifier (group 1: a letter or underscore, then letters, digits
    and underscores), white space and an opening parenthesis; compiled
    with [re.IGNORECASE]. *)
Definition func_pattern : regex :=
  Seqs [Group 1 (Seq (Cls false [CRange 97 122; CChar "_"%char])
                     (Star (Cls false [CRange 97 122; CRange 48 57; CChar "_"%char])));
        spaces; Chr "("%char].

Definition function_one (functions_iter : list str) (func : str) (v : validator)
  : validator :=
  let func_lower := lower func in
  if mem func_lower NON_FUNCTION_KEYWORDS then v
  else if negb (mem func_lower FUNCTIONS) then
    let close_matches := find_close_matches func_lower functions_iter in
    if negb (is_empty close_matches) then
      add_error
        (finding "unknown_function"
           (lit "Unknown function: " ++ func ++ lit ". Did you mean: "
            ++ join (lit ", ") close_matches ++ lit "?") error) v
    else
      add_error
        (finding "unknown_function" (lit "Unknown function: " ++ func) error) v
  else v.

Definition check_function_syntax (functions_iter : list str) (v : validator)
  : validator :=
  for_each (function_one functions_iter) (findall1 true func_pattern (query v)) v.

(** *** [_check_operators] *)

(** [[+\-*/]{2,}] *)
Definition double_operator : regex :=
  let op := one_of "+-*/" in Seqs [op; op; Star op].

Definition check_operators (v : validator) : validator :=
  if search false double_operator (query v) then
    add_warning
      (finding "double_operator"
         (lit "Found consecutive operators - this might be a typo") warning) v
  else v.

(** *** [_check_common_typos] *)

(** At a word boundary, one of the five rate functions (group 1), an
    opening parenthesis, a metric name, optionally a brace block without a
    closing brace inside, and the closing parenthesis, with white space
    allowed in between. *)
Definition missing_range_pattern : regex :=
  Seqs [WordB;
        Group 1 (AltLits ["rate"; "irate"; "increase"; "delta"; "idelta"]);
        spaces; Chr "("%char; spaces;
        metric_name; spaces;
        Opt (Seqs [Chr "{"%char; Star (not_chr "}"%char); Chr "}"%char]);
        spaces; Chr ")"%char].

(** [\boffset\s+\d+[smhdwy]\s*\[], compiled with [re.IGNORECASE]. *)
Definition misplaced_offset_pattern : regex :=
  Seqs [WordB; Lit "offset"; Plus space; Plus digit; one_of "smhdwy"; spaces;
        Chr "["%char].

Definition check_common_typos (v : validator) : validator :=
  let v1 :=
    if search false missing_range_pattern (query v) then
      add_error
        (finding "missing_range_vector"
           (lit "rate(), irate(), increase(), delta(), and idelta() require a range vector [duration]")
           error) v
    else v in
  if contains (lit " offset ") (lower (query v)) then
    if search true misplaced_offset_pattern (query v) then
      add_error
        (finding "misplaced_offset"
           (lit "offset modifier should come after the range vector [duration], not before it")
           error) v1
    else v1
  else v1.

(** *** [validate] *)

(** [validate] on an instance. [functions_iter] is the order in which
    the interpreter enumerates the set [FUNCTIONS]. *)
Definition validate_on (functions_iter : list str) (v : validator) : validator :=
  if is_empty (query v) then
    add_error (finding "empty_query" (lit "Query is empty") error) v
  else
    let v1 := check_balanced_delimiters v in
    let v2 := check_metric_selectors v1 in
    let v3 := check_time_ranges v2 in
    let v4 := check_function_syntax functions_iter v3 in
    let v5 := check_operators v4 in
    check_common_typos v5.

(** [PromQLSyntaxValidator(q).validate()] *)
Definition validate (functions_iter : list str) (q : str) : Report :=
  build_result (validate_on functions_iter (init q)).

End SyntaxValidator.

(** ** promql-validator/scripts/check_best_practices.py *)

Module BestPractices.
Import Py Re.
Open Scope string_scope.
Open Scope nat_scope.
Open Scope list_scope.
Open Scope bool_scope.

(** *** Exceptions *)

Inductive exn : Type := OverflowError.

Inductive outcome (A : Type) : Type :=
| Returned (a : A)
| Raised (e : exn).
Arguments Returned {A} a.
Arguments Raised {A} e.

Definition bind {A B} (m : outcome A) (f : A -> outcome B) : outcome B :=
  match m with
  | Returned a => f a
  | Raised e => Raised e
  end.

Notation "x <- m ;; f" := (bind m (fun x => f))
  (at level 61, m at next level, right associativity).

(** *** Class attributes *)

Definition COUNTER_SUFFIXES : list str := map lit ["_total"; "_count"; "_sum"; "_bucket"].

Definition GAUGE_PATTERNS : list str := map lit
  [ "_bytes"; "_ratio"; "_usage"; "_percent"; "_gauge"; "_celsius"; "_fahrenheit";
    "_temperature"; "_info"; "_size"; "_current"; "_limit"; "_available"; "_free";
    "_used"; "_utilization"; "_capacity"; "_level" ].

Definition RATE_FUNCTIONS : list string := ["rate"; "irate"; "increase"; "delta"; "idelta"].

(** The set [reserved_words]; [_check_high_cardinality] and
    [_check_mixed_metric_types] each build it from the same members. *)
Definition reserved_words : list str := map lit
  [ "sum"; "avg"; "min"; "max"; "count"; "stddev"; "stdvar"; "group"; "topk";
    "bottomk"; "quantile"; "count_values"; "limitk"; "limit_ratio"; "rate"; "irate";
    "increase"; "delta"; "idelta"; "deriv"; "predict_linear"; "histogram_quantile";
    "histogram_count"; "histogram_sum"; "histogram_fraction"; "histogram_avg";
    "histogram_stddev"; "histogram_stdvar"; "abs"; "ceil"; "floor"; "round"; "sqrt";
    "exp"; "ln"; "log2"; "log10"; "sin"; "cos"; "tan"; "asin"; "acos"; "atan"; "sinh";
    "cosh"; "tanh"; "deg"; "rad"; "sgn"; "clamp"; "clamp_max"; "clamp_min"; "pi";
    "timestamp"; "time"; "minute"; "hour"; "day_of_month"; "day_of_week";
    "days_in_month"; "month"; "year"; "label_replace"; "label_join"; "vector";
    "scalar"; "changes"; "resets"; "absent"; "absent_over_time"; "present_over_time";
    "avg_over_time"; "min_over_time"; "max_over_time"; "sum_over_time";
    "count_over_time"; "quantile_over_time"; "stddev_over_time"; "stdvar_over_time";
    "last_over_time"; "mad_over_time"; "sort"; "sort_desc"; "sort_by_label";
    "sort_by_label_desc"; "holt_winters"; "double_exponential_smoothing"; "info";
    "by"; "without"; "and"; "or"; "unless"; "on"; "ignoring"; "group_left";
    "group_right"; "bool"; "offset"; "start"; "end"; "inf"; "nan" ].

(** *** The instance *)

Record checker : Type := Checker {
  query : str;
  issues : list Finding;
  suggestions : list Finding;
  optimizations : list Finding
}.

Definition init (q : str) : checker := Checker (strip q) [] [] [].

Definition add_issue (f : Finding) (c : checker) : checker :=
  Checker (query c) (issues c ++ [f]) (suggestions c) (optimizations c).

Definition add_suggestion (f : Finding) (c : checker) : checker :=
  Checker (query c) (issues c) (suggestions c ++ [f]) (optimizations c).

Definition add_optimization (f : Finding) (c : checker) : checker :=
  Checker (query c) (issues c) (suggestions c) (optimizations c ++ [f]).

(** A finding with its recommendation. *)
Definition advice (t : string) (msg : str) (sev : Severity) (rec : str) : Finding :=
  mkFinding t msg sev None (Some rec) None.

Definition for_each {A} (body : A -> checker -> checker) (xs : list A)
  (c : checker) : checker :=
  fold_left (fun acc x => body x acc) xs c.

(** A loop whose body may raise: the first exception ends it. *)
Fixpoint for_each_raising {A} (body : A -> checker -> outcome checker)
  (xs : list A) (c : checker) : outcome checker :=
  match xs with
  | [] => Returned c
  | x :: xs' => c' <- body x c ;; for_each_raising body xs' c'
  end.

(** *** Durations *)

(** The least integer that does not round to a finite double. *)
Definition float_limit : Z := (2 ^ 1024 - 2 ^ 970)%Z.

(** [_duration_to_seconds]: [int(value * units.get(unit, 1))]. The factor
    of [ms] is the float [0.001]: the product raises when [value] has no
    finite double, and is otherwise truncated. The model gives the exact
    quotient by 1000, which the truncated product agrees with in every
    comparison the checks make (with 120 seconds and with 10 minutes). *)
Definition duration_to_seconds (value : Z) (unit : str) : outcome Z :=
  if eqb unit (lit "ms") then
    if (float_limit <=? value)%Z then Raised OverflowError
    else Returned (value / 1000)%Z
  else if eqb unit (lit "s") then Returned value
  else if eqb unit (lit "m") then Returned (value * 60)%Z
  else if eqb unit (lit "h") then Returned (value * 3600)%Z
  else if eqb unit (lit "d") then Returned (value * 86400)%Z
  else if eqb unit (lit "w") then Returned (value * 604800)%Z
  else if eqb unit (lit "y") then Returned (value * 31536000)%Z
  else Returned value.

(** A Python float that is the quotient [num / den] of two integers,
    rounded: the pair stands for it, and comparing the pair with an
    integer constant gives what comparing the rounded quotient gives. *)
Record quotient : Type := Quotient { num : Z; den : Z }.

(** [a / b] for a non-negative [a] and a positive [b]. *)
Definition true_div (a b : Z) : outcome quotient :=
  if (float_limit * b <=? a)%Z then Raised OverflowError
  else Returned (Quotient a b).

(** [x > n] and [x < n] *)
Definition gt_int (x : quotient) (n : Z) : bool := (n * den x <? num x)%Z.
Definition lt_int (x : quotient) (n : Z) : bool := (num x <? n * den x)%Z.

Definition duration_to_minutes (value : Z) (unit : str) : outcome quotient :=
  seconds <- duration_to_seconds value unit ;; true_div seconds 60.

Definition duration_to_hours (value : Z) (unit : str) : outcome quotient :=
  seconds <- duration_to_seconds value unit ;; true_div seconds 3600.

(** *** [_strip_label_selectors_and_strings] *)

(** A grouping keyword at a word boundary (group 1), white space, and a
    pair of parentheses without a closing parenthesis inside. *)
Definition grouping_clause : regex :=
  Seqs [WordB;
        Group 1 (AltLits ["by"; "without"; "on"; "ignoring"; "group_left"; "group_right"]);
        spaces; Chr "("%char; Star (not_chr ")"%char); Chr ")"%char].

Record strip_state : Type := StripState {
  result : str;
  depth : nat;
  in_string : bool;
  escape_next : bool
}.

(** One round of the [while i < len(query)] loop. *)
Definition strip_char (c : ascii) (s : strip_state) : strip_state :=
  if escape_next s then StripState (result s) (depth s) (in_string s) false
  else if eqb_chr c bslash then StripState (result s) (depth s) (in_string s) true
  else if eqb_chr c dq then StripState (result s) (depth s) (negb (in_string s)) false
  else if in_string s then s
  else if eqb_chr c "{"%char then
    StripState (result s ++ [" "%char]) (depth s + 1) false false
  else if eqb_chr c "}"%char then
    StripState (result s ++ [" "%char]) (Nat.max 0 (depth s - 1)) false false
  else if depth s =? 0 then StripState (result s ++ [c]) (depth s) false false
  else StripState (result s ++ [" "%char]) (depth s) false false.

Definition strip_label_selectors_and_strings (q : str) : str :=
  let q1 := sub false grouping_clause (fun m => group 1 m ++ lit " ( )") q in
  result (fold_left (fun s c => strip_char c s) q1 (StripState [] 0 false false)).

(** *** [_check_high_cardinality] *)

(** [\b[a-zA-Z_:][a-zA-Z0-9_:]*\s*\{\s*\}] *)
Definition empty_selector : regex :=
  Seqs [WordB; metric_name; spaces; Chr "{"%char; spaces; Chr "}"%char].

(** A whole metric name (group 1) that is not followed, after white
    space, by an opening brace or parenthesis. *)
Definition bare_metric_pattern : regex :=
  Seqs [WordB; Group 1 metric_name; WordB; NegLook (Seq spaces (one_of "{("))].

(** The metric at a word boundary, followed by a non-empty brace block. *)
Definition has_filters_pattern (metric : str) : regex :=
  Seqs [WordB; Escaped metric; spaces; Chr "{"%char; spaces;
        Plus (not_chr "}"%char); spaces; Chr "}"%char].

Definition high_cardinality_one (metric : str) (c : checker) : checker :=
  if negb (mem (lower metric) reserved_words) then
    if negb (search false (has_filters_pattern metric) (query c)) then
      add_issue
        (advice "high_cardinality"
           (lit "Metric `" ++ metric ++ lit "` used without label filters")
           warning
           (lit "Add label filters: " ++ metric ++ lit "{job=`...`, instance=`...`}")) c
    else c
  else c.

Definition check_high_cardinality (c : checker) : checker :=
  let c1 :=
    if search false empty_selector (query c) then
      add_issue
        (advice "high_cardinality"
           (lit "Query uses empty label matcher {} which may match many time series")
           warning
           (lit "Add specific label filters like {job=`...`, instance=`...`} to reduce cardinality")) c
    else c in
  let query_without_selectors := strip_label_selectors_and_strings (query c) in
  let metrics_without_selectors :=
    findall1 false bare_metric_pattern query_without_selectors in
  for_each high_cardinality_one metrics_without_selectors c1.

(** *** [_check_regex_overuse] *)

(** A label name (group 1), [=~], and a quoted non-empty pattern (group 2). *)
Definition regex_matcher : regex :=
  Seqs [Group 1 (Seq label_start (Star label_char)); spaces; Lit "=~"; spaces;
        Chr dq; Group 2 (Plus (not_chr dq)); Chr dq].

(** One of the characters [. * + ? ^ $ [ ] ( ) |] and the backslash. *)
Definition regex_metacharacters : regex :=
  Cls false (map CChar (lit ".*+?^$[]()|" ++ [bslash])).

(** [[a-zA-Z0-9_\-]+] *)
Definition plain_value : regex :=
  Plus (Cls false [CRange 97 122; CRange 65 90; CRange 48 57; CChar "_"%char; CChar "-"%char]).

Definition regex_overuse_one (lp : str * str) (c : checker) : checker :=
  let (label, pattern) := lp in
  let has_regex_chars := search false regex_metacharacters pattern in
  let c1 :=
    if negb has_regex_chars && fullmatch false plain_value pattern then
      add_optimization
        (advice "regex_to_exact"
           (lit "Label matcher " ++ label ++ lit "=~`" ++ pattern ++ lit "` can be an exact match")
           info
           (lit "Use " ++ label ++ lit "=`" ++ pattern ++ lit "` instead of =~ for better performance")) c
    else c in
  if endswith pattern (lit ".*") then
    add_suggestion
      (advice "regex_optimization"
         (lit "Regex pattern `" ++ pattern ++ lit "` uses wildcard suffix")
         info
         (lit "Consider if you can use more specific label values")) c1
  else c1.

Definition check_regex_overuse (c : checker) : checker :=
  for_each regex_overuse_one (findall2 false regex_matcher (query c)) c.

(** *** [_check_missing_rate_on_counters] *)

(** A whole metric name ending in one of the counter suffixes (group 1). *)
Definition counter_metric_pattern : regex :=
  Seqs [WordB;
        Group 1 (Seqs [name_start; Star name_char;
                       AltLits ["_total"; "_count"; "_sum"; "_bucket"]]);
        WordB].

(** [call\s*\([^)]*metric] for the calls of [calls]. *)
Definition inside_call (calls : regex) (metric : str) : regex :=
  Seqs [calls; spaces; Chr "("%char; Star (not_chr ")"%char); Escaped metric].

Definition rate_family : regex := AltLits RATE_FUNCTIONS.

Definition native_helpers : regex :=
  Seq (Lit "histogram_") (AltLits ["avg"; "stddev"; "stdvar"; "count"; "sum"; "fraction"]).

(** [base_sum.*base_count|base_count.*base_sum]; the base name is put
    into the pattern as it is, and a metric name has no character that a
    pattern reads specially. *)
Definition average_pair (base_metric : str) : regex :=
  Alt (Seqs [Str base_metric; Lit "_sum"; Star Dot; Str base_metric; Lit "_count"])
      (Seqs [Str base_metric; Lit "_count"; Star Dot; Str base_metric; Lit "_sum"]).

Definition missing_rate_one (metric : str) (c : checker) : checker :=
  if negb (search false (inside_call rate_family metric) (query c)) then
    if negb (search false (inside_call (Lit "histogram_quantile") metric) (query c)) then
      if (endswith metric (lit "_sum") || endswith metric (lit "_count"))
         && search false (average_pair (rsplit1_head "_"%char metric)) (query c)
      then c
      else if search false (inside_call native_helpers metric) (query c) then c
      else
        add_issue
          (advice "missing_rate"
             (lit "Counter metric `" ++ metric ++ lit "` used without rate() or increase()")
             warning
             (lit "Use rate(" ++ metric ++ lit "[5m]) to get per-second rate")) c
    else c
  else c.

Definition check_missing_rate_on_counters (c : checker) : checker :=
  for_each missing_rate_one (findall1 false counter_metric_pattern (query c)) c.

(** *** [_check_rate_on_gauges] *)

(** A rate function (group 1), an opening parenthesis and a metric name
    (group 2). *)
Definition rate_call : regex :=
  Seqs [Group 1 rate_family; spaces; Chr "("%char; spaces; Group 2 metric_name].

Definition rate_on_gauge_one (fm : str * str) (c : checker) : checker :=
  let (func, metric) := fm in
  let is_gauge := any (fun pattern => contains pattern metric) GAUGE_PATTERNS in
  let is_counter := any (fun suffix => endswith metric suffix) COUNTER_SUFFIXES in
  if is_gauge && negb is_counter then
    add_issue
      (advice "rate_on_gauge"
         (func ++ lit "() used on gauge metric `" ++ metric ++ lit "`")
         warning
         (lit "Gauges should not use rate(). Use avg_over_time(" ++ metric
          ++ lit "[5m]) or remove rate()")) c
  else c.

Definition check_rate_on_gauges (c : checker) : checker :=
  for_each rate_on_gauge_one (findall2 false rate_call (query c)) c.

(** *** [_check_averaging_quantiles] *)

(** [avg\s*\([^)]*\{[^}]*quantile\s*=] *)
Definition averaging_quantiles_pattern : regex :=
  Seqs [Lit "avg"; spaces; Chr "("%char; Star (not_chr ")"%char); Chr "{"%char;
        Star (not_chr "}"%char); Lit "quantile"; spaces; Chr "="%char].

Definition averaging_quantiles : Finding :=
  advice "averaging_quantiles"
    (lit "Averaging pre-calculated quantiles is mathematically invalid")
    error
    (lit "Use histogram_quantile() with histogram buckets instead").

Definition check_averaging_quantiles (c : checker) : checker :=
  if search false averaging_quantiles_pattern (query c)
  then add_issue averaging_quantiles c
  else c.

(** *** [_check_subquery_performance] *)

Definition unit_letter : regex := one_of "smhdwy".

Definition unit_name : regex := AltLits ["ms"; "s"; "m"; "h"; "d"; "w"; "y"].

(** [\[(\d+)([smhdwy])[^\]]*:\s*(\d+)?([smhdwy])?\]] *)
Definition subquery_pattern : regex :=
  Seqs [Chr "["%char; Group 1 (Plus digit); Group 2 unit_letter;
        Star (not_chr "]"%char); Chr ":"%char; spaces;
        Opt (Group 3 (Plus digit)); Opt (Group 4 unit_letter); Chr "]"%char].

Definition subquery_one (m : str * str * str * str) (c : checker) : outcome checker :=
  let '(range_val, range_unit, _, _) := m in
  range_hours <- duration_to_hours (int_of_digits range_val) range_unit ;;
  if gt_int range_hours (24 * 7) then
    Returned
      (add_issue
         (advice "expensive_subquery"
            (lit "Subquery spans " ++ range_val ++ range_unit ++ lit " which may be very slow")
            warning
            (lit "Consider using recording rules or reducing the time range")) c)
  else Returned c.

Definition check_subquery_performance (c : checker) : outcome checker :=
  for_each_raising subquery_one (findall4 false subquery_pattern (query c)) c.

(** *** [_check_irate_range] and [_check_rate_range] *)

(** [name\s*\([^)]*\[(\d+)(unit)\]] *)
Definition ranged_call (name : string) (unit : regex) : regex :=
  Seqs [Lit name; spaces; Chr "("%char; Star (not_chr ")"%char); Chr "["%char;
        Group 1 (Plus digit); Group 2 unit; Chr "]"%char].

Definition irate_one (du : str * str) (c : checker) : outcome checker :=
  let (duration, unit) := du in
  minutes <- duration_to_minutes (int_of_digits duration) unit ;;
  if gt_int minutes 5 then
    Returned
      (add_issue
         (advice "irate_long_range"
            (lit "irate() used with " ++ duration ++ unit
             ++ lit " range - irate only looks at last 2 samples")
            warning
            (lit "Use rate() for ranges > 5m, or reduce irate range to [2m]")) c)
  else Returned c.

Definition check_irate_range (c : checker) : outcome checker :=
  for_each_raising irate_one (findall2 false (ranged_call "irate" unit_letter) (query c)) c.

Definition rate_one (du : str * str) (c : checker) : outcome checker :=
  let (duration, unit) := du in
  seconds <- duration_to_seconds (int_of_digits duration) unit ;;
  if (seconds <? 120)%Z then
    Returned
      (add_issue
         (advice "rate_short_range"
            (lit "rate() used with very short range [" ++ duration ++ unit ++ lit "]")
            warning
            (lit "Rate range should be at least 4x scrape interval, typically [2m] or more")) c)
  else Returned c.

Definition check_rate_range (c : checker) : outcome checker :=
  for_each_raising rate_one (findall2 false (ranged_call "rate" unit_name) (query c)) c.

(** *** [_check_unbounded_queries] and [_check_aggregation_best_practices] *)

(** White space, a comparison operator, white space, and a digit or a dot. *)
Definition alerting_pattern : regex :=
  Seqs [spaces; Group 1 (AltLits [">"; "<"; ">="; "<="; "=="; "!="]); spaces;
        Cls false [CDigit; CChar "."%char]].

(** [agg\s*\([^)]+\)(?!\s*(?:by|without)\s*\()] *)
Definition unbounded_pattern (agg : string) : regex :=
  Seqs [Lit agg; spaces; Chr "("%char; Plus (not_chr ")"%char); Chr ")"%char;
        NegLook (Seqs [spaces; AltLits ["by"; "without"]; spaces; Chr "("%char])].

Definition unbounded_one (is_alerting_query : bool) (agg : string) (c : checker)
  : checker :=
  if search false (unbounded_pattern agg) (query c) then
    if is_alerting_query then
      add_suggestion
        (advice "missing_aggregation_clause"
           (lit agg ++ lit "() used without by() or without() clause (likely intentional for alerting)")
           info
           (lit "Full aggregation is common for alerting queries. Add `by (label)` only if you need per-label alerts.")) c
    else
      add_suggestion
        (advice "missing_aggregation_clause"
           (lit agg ++ lit "() used without by() or without() clause")
           info
           (lit "Consider adding `by (label)` or `without (label)` to " ++ lit agg
            ++ lit "() for clearer results")) c
  else c.

Definition check_unbounded_queries (c : checker) : checker :=
  let aggregations := ["sum"; "avg"; "min"; "max"; "count"] in
  let is_alerting_query := search false alerting_pattern (query c) in
  for_each (unbounded_one is_alerting_query) aggregations c.

(** [count\s*\([^)]+\)(?!\s*by)] *)
Definition count_without_by : regex :=
  Seqs [Lit "count"; spaces; Chr "("%char; Plus (not_chr ")"%char); Chr ")"%char;
        NegLook (Seq spaces (Lit "by"))].

Definition check_aggregation_best_practices (c : checker) : checker :=
  if search false count_without_by (query c) then
    add_suggestion
      (advice "count_without_by"
         (lit "count() used without by() - this counts all matching series")
         info
         (lit "If you want to count by label, use: count(...) by (label)")) c
  else c.

(** *** [_check_recording_rule_opportunity] *)

(** [\b[a-z_]+\s*\(] *)
Definition call_pattern : regex :=
  Seqs [WordB; Plus (Cls false [CRange 97 122; CChar "_"%char]); spaces; Chr "("%char].

Definition basic_aggregation : regex := AltLits ["sum"; "avg"; "min"; "max"].

(** An aggregation (group 1) whose parenthesis holds, before any closing
    parenthesis, another aggregation call (group 2) at a word boundary. *)
Definition nested_aggregation : regex :=
  Seqs [Group 1 basic_aggregation; spaces; Chr "("%char; Star (not_chr ")"%char);
        WordB; Group 2 basic_aggregation; spaces; Chr "("%char].

(** [\[[^\]]+:[^\]]+\]] *)
Definition subquery_shape : regex :=
  Seqs [Chr "["%char; Plus (not_chr "]"%char); Chr ":"%char; Plus (not_chr "]"%char);
        Chr "]"%char].

Definition check_recording_rule_opportunity (c : checker) : checker :=
  let func_count := length (findall0 false call_pattern (query c)) in
  let s1 := if 3 <=? func_count then 1 else 0 in
  let s2 := if search false nested_aggregation (query c) then s1 + 1 else s1 in
  let s3 := if search false subquery_shape (query c) then s2 + 1 else s2 in
  let complexity_score := if 150 <? length (query c) then s3 + 1 else s3 in
  if 2 <=? complexity_score then
    add_suggestion
      (advice "recording_rule_opportunity"
         (lit "Query is complex and may benefit from recording rules")
         info
         (lit "Consider creating recording rules if this query is used frequently")) c
  else c.

(** *** [_check_label_matcher_efficiency] *)

Definition check_label_matcher_efficiency (c : checker) : checker :=
  if 2 <=? count (lit " or ") (query c) then
    add_suggestion
      (advice "multiple_or_conditions"
         (lit "Multiple OR conditions found")
         info
         (lit "Consider using regex matcher =~ `value1|value2|value3` if checking same label")) c
  else c.

(** *** [_check_histogram_usage] *)

(** [\brate\s*\(] *)
Definition rate_anywhere : regex := Seqs [WordB; Lit "rate"; spaces; Chr "("%char].

(** [\bby\s*\([^)]*\ble\b] *)
Definition le_in_by : regex :=
  Seqs [WordB; Lit "by"; spaces; Chr "("%char; Star (not_chr ")"%char);
        WordB; Lit "le"; WordB].

Definition check_histogram_usage (c : checker) : checker :=
  if contains (lit "histogram_quantile") (query c) then
    let has_rate := search false rate_anywhere (query c) in
    let has_bucket_metric := contains (lit "_bucket") (query c) in
    let c1 :=
      if has_bucket_metric && negb has_rate then
        add_issue
          (advice "histogram_missing_rate"
             (lit "histogram_quantile() should use rate() on bucket metrics")
             warning
             (lit "Use: histogram_quantile(0.95, sum by (le) (rate(metric_bucket[5m])))")) c
      else c in
    if has_bucket_metric then
      let has_le_in_by := search false le_in_by (query c) in
      if negb has_le_in_by then
        add_issue
          (advice "histogram_missing_le"
             (lit "histogram_quantile() with classic histograms should aggregate by (le) label")
             warning
             (lit "Include `le` in the by() clause: sum by (job, le) (...)")) c1
      else c1
    else c1
  else c.

(** *** [_check_deprecated_functions] *)

Definition holt_winters_call : regex :=
  Seqs [WordB; Lit "holt_winters"; spaces; Chr "("%char].

Definition check_deprecated_functions (c : checker) : checker :=
  if search false holt_winters_call (query c) then
    add_issue
      (advice "deprecated_function"
         (lit "holt_winters() is deprecated in Prometheus 3.0")
         warning
         (lit "Use double_exponential_smoothing() instead (requires --enable-feature=promql-experimental-functions)")) c
  else c.

(** *** [_check_predict_linear_range] *)

Definition predict_one (du : str * str) (c : checker) : outcome checker :=
  let (duration, unit) := du in
  minutes <- duration_to_minutes (int_of_digits duration) unit ;;
  if lt_int minutes 10 then
    Returned
      (add_issue
         (advice "predict_linear_short_range"
            (lit "predict_linear() used with short range [" ++ duration ++ unit ++ lit "]")
            warning
            (lit "predict_linear() needs sufficient data for reliable predictions. Use at least [10m] or longer.")) c)
  else Returned c.

Definition check_predict_linear_range (c : checker) : outcome checker :=
  for_each_raising predict_one
    (findall2 false (ranged_call "predict_linear" unit_name) (query c)) c.

(** *** [_check_division_by_zero_risk] *)

(** A slash, [rate] or [increase], and a pair of parentheses that holds
    [_count] or [_total] and no closing parenthesis. *)
Definition division_by_rate : regex :=
  Seqs [Chr "/"%char; spaces; AltLits ["rate"; "increase"]; spaces; Chr "("%char;
        Star (not_chr ")"%char); AltLits ["_count"; "_total"];
        Star (not_chr ")"%char); Chr ")"%char].

Definition check_division_by_zero_risk (c : checker) : checker :=
  if search false division_by_rate (query c) then
    add_suggestion
      (advice "division_by_zero_risk"
         (lit "Division by rate() or increase() of counter may result in NaN if denominator is 0")
         info
         (lit "Consider using `or vector(0)` or `> 0` filter to handle zero denominators")) c
  else c.

(** *** [_check_changes_resets_alerting] *)

Definition changes_resets_call : regex :=
  Seqs [WordB; Group 1 (AltLits ["changes"; "resets"]); spaces; Chr "("%char].

Definition check_changes_resets_alerting (c : checker) : checker :=
  if search false changes_resets_call (query c) then
    add_suggestion
      (advice "changes_resets_limitation"
         (lit "changes() and resets() only detect changes between scraped samples")
         info
         (lit "Events occurring between scrapes will be missed. For alerting, consider alternative approaches.")) c
  else c.

(** *** [_check_dimensional_metric_names] *)

(** [[a-zA-Z_]+] *)
Definition letters : regex := Plus label_start.

Definition status_code (first : string) : regex := Seqs [Lit first; digit; digit].

Definition bad_patterns : list regex :=
  [ Seqs [WordB; letters; Chr "_"%char;
          Group 1 (AltLits ["GET"; "POST"; "PUT"; "DELETE"; "PATCH"]);
          Chr "_"%char; letters];
    Seqs [WordB; letters; Chr "_"%char; Plus digit; Chr "_"%char; letters];
    Seqs [WordB; letters; Chr "_"%char;
          Group 1 (Alts [status_code "2"; status_code "3"; status_code "4"; status_code "5"]);
          Chr "_"%char; letters] ].

(** The loop over [bad_patterns] stops at the first pattern found. *)
Definition check_dimensional_metric_names (c : checker) : checker :=
  if existsb (fun pattern => search false pattern (query c)) bad_patterns then
    add_suggestion
      (advice "dimensional_metric_name"
         (lit "Metric name appears to embed dimensions (method, status code, or index)")
         info
         (lit "Move dimensions to labels instead of embedding in metric names. Example: http_requests_total{method=`GET`, status=`200`}")) c
  else c.

(** *** [_check_absent_with_aggregation] *)

Definition absent_of_aggregation : regex :=
  Seqs [Lit "absent"; spaces; Chr "("%char; spaces;
        Group 1 (AltLits ["sum"; "avg"; "min"; "max"; "count"; "group"; "stddev"; "stdvar"]);
        spaces; Chr "("%char].

(** [absent\s*\([^)]+\)\s*by\s*\(] *)
Definition absent_by : regex :=
  Seqs [Lit "absent"; spaces; Chr "("%char; Plus (not_chr ")"%char); Chr ")"%char;
        spaces; Lit "by"; spaces; Chr "("%char].

Definition check_absent_with_aggregation (c : checker) : checker :=
  let c1 :=
    if search false absent_of_aggregation (query c) then
      add_issue
        (advice "absent_with_aggregation"
           (lit "absent() with aggregation may not work as expected")
           warning
           (lit "absent() checks if a selector returns no data. Aggregations return data if ANY series matches. For per-label absence, use: group(present_over_time(metric[range])) unless group(metric)")) c
    else c in
  if search false absent_by (query c) then
    add_issue
      (advice "absent_with_by"
         (lit "absent() does not support by() clause for per-label grouping")
         error
         (lit "absent() returns a single value. For per-label absence detection, use: group(present_over_time(metric[range])) by (labels) unless group(metric) by (labels)")) c1
  else c1.

(** *** [_check_vector_matching] *)

(** A star, [on (...)] with a non-empty list, and a name that ends in
    [_info] at a word boundary. *)
Definition info_join : regex :=
  Seqs [Chr "*"%char; spaces; Lit "on"; spaces; Chr "("%char;
        Plus (not_chr ")"%char); Chr ")"%char; spaces; letters; Lit "_info"; WordB].

Definition group_modifier : regex :=
  Seqs [WordB; Group 1 (AltLits ["group_left"; "group_right"]); spaces; Chr "("%char].

(** [\bon\s*\(\s*\)] *)
Definition on_empty : regex :=
  Seqs [WordB; Lit "on"; spaces; Chr "("%char; spaces; Chr ")"%char].

Definition check_vector_matching (c : checker) : checker :=
  let query_lower := lower (query c) in
  let has_vector_matching :=
    contains (lit "on(") query_lower || contains (lit "ignoring(") query_lower in
  let has_group :=
    contains (lit "group_left") query_lower || contains (lit "group_right") query_lower in
  let c1 :=
    if search false info_join (query c) && negb has_group then
      add_issue
        (advice "info_metric_missing_group"
           (lit "Joining with _info metric without group_left()")
           warning
           (lit "Info metric joins typically need group_left() to bring labels from the info metric. Use: metric * on(job, instance) group_left(label1, label2) info_metric")) c
    else c in
  let c2 :=
    if search false group_modifier query_lower && negb has_vector_matching then
      add_issue
        (advice "group_without_matching"
           (lit "group_left()/group_right() used without on() or ignoring()")
           error
           (lit "group_left()/group_right() requires on() or ignoring() to specify matching labels")) c1
    else c1 in
  let c3 :=
    if search false on_empty query_lower then
      add_suggestion
        (advice "on_empty_labels"
           (lit "on() with empty labels matches all series")
           info
           (lit "on() with empty parentheses ignores all labels for matching. Ensure this is intentional.")) c2
    else c2 in
  if has_vector_matching && negb has_group then
    add_suggestion
      (advice "vector_matching_cardinality"
         (lit "Binary operation with on()/ignoring() assumes one-to-one matching")
         info
         (lit "If you have many-to-one or one-to-many cardinality, add group_left() or group_right(). Error `multiple matches for labels` indicates cardinality mismatch.")) c3
  else c3.

(** *** [_check_native_histogram_usage] *)

Definition native_hist_pattern : regex :=
  Seqs [WordB;
        Group 1 (AltLits ["histogram_avg"; "histogram_stddev"; "histogram_stdvar"]);
        spaces; Chr "("%char].

(** [func\s*\(\s*rate\s*\(] *)
Definition wraps_rate (func : regex) : regex :=
  Seqs [func; spaces; Chr "("%char; spaces; Lit "rate"; spaces; Chr "("%char].

Definition native_hist_one (func : str) (c : checker) : checker :=
  if negb (search false (wraps_rate (Str func)) (query c)) then
    add_issue
      (advice "native_histogram_missing_rate"
         (func ++ lit "() should use rate() on the histogram metric")
         warning
         (lit "Use: " ++ func ++ lit "(rate(histogram_metric[5m]))")) c
  else c.

Definition helper_call (name : string) : regex :=
  Seqs [WordB; Lit name; spaces; Chr "("%char].

Definition check_native_histogram_usage (c : checker) : checker :=
  let c1 := for_each native_hist_one (findall1 false native_hist_pattern (query c)) c in
  let c2 :=
    if contains (lit "histogram_quantile") (query c) then
      let has_bucket_suffix := contains (lit "_bucket") (query c) in
      let has_le_in_by := search false le_in_by (query c) in
      if negb has_bucket_suffix && has_le_in_by then
        add_suggestion
          (advice "native_histogram_unnecessary_le"
             (lit "Native histograms do not need `le` label in aggregation")
             info
             (lit "For native histograms, simplify to: histogram_quantile(0.95, sum by (job) (rate(metric[5m])))")) c1
      else c1
    else c1 in
  if search false (helper_call "histogram_count") (query c)
     || search false (helper_call "histogram_sum") (query c) then
    if negb (search false
               (wraps_rate (Seq (Lit "histogram_") (AltLits ["count"; "sum"])))
               (query c)) then
      add_suggestion
        (advice "histogram_helper_without_rate"
           (lit "histogram_count()/histogram_sum() typically need rate() for meaningful results")
           info
           (lit "Use: histogram_count(rate(histogram_metric[5m])) to get observations per second")) c2
    else c2
  else c2.

(** *** [_check_mixed_metric_types] *)

(** A whole metric name (group 1), from word boundary to word boundary. *)
Definition any_metric_pattern : regex := Seqs [WordB; Group 1 metric_name; WordB].

(** The metric followed by a brace block with a [quantile] matcher. *)
Definition summary_pattern (metric : str) : regex :=
  Seqs [Escaped metric; spaces; Chr "{"%char; Star (not_chr "}"%char);
        Lit "quantile"; spaces; Chr "="%char].

(** [d.setdefault(key, []).append(x)] on a dictionary kept in insertion
    order. *)
Fixpoint setdefault_append (key : str) (x : str) (d : list (str * list str))
  : list (str * list str) :=
  match d with
  | [] => [(key, [x])]
  | (k, xs) :: d' =>
      if eqb k key then (k, xs ++ [x]) :: d'
      else (k, xs) :: setdefault_append key x d'
  end.

(** [s.add(x)] on a set kept without repetition. *)
Definition set_add (x : str) (s : list str) : list str :=
  if mem x s then s else s ++ [x].

(** The order of [str]: by code point, the shorter first among prefixes. *)
Fixpoint leb (s t : str) : bool :=
  match s, t with
  | [], _ => true
  | _ :: _, [] => false
  | a :: s', b :: t' =>
      if (ord a <? ord b)%N then true
      else if (ord b <? ord a)%N then false
      else leb s' t'
  end.

Fixpoint insert_sorted (x : str) (l : list str) : list str :=
  match l with
  | [] => [x]
  | y :: l' => if leb x y then x :: l else y :: insert_sorted x l'
  end.

(** [sorted(s)] *)
Definition sorted (l : list str) : list str := fold_right insert_sorted [] l.

(** The local variables [detected_types] and [type_examples]. *)
Record typing : Type := Typing {
  detected_types : list str;
  type_examples : list (str * list str)
}.

Definition detect (t : string) (example : str) (ty : typing) : typing :=
  Typing (set_add (lit t) (detected_types ty))
         (setdefault_append (lit t) example (type_examples ty)).

Definition classify (q : str) (is_classic_histogram_query : bool) (metric : str)
  (ty : typing) : typing :=
  if endswith metric (lit "_bucket") && is_classic_histogram_query then ty
  else if any (fun suffix => endswith metric suffix)
              (map lit ["_total"; "_count"; "_sum"; "_bucket"]) then
    detect "counter" metric ty
  else if any (fun pattern => contains pattern metric) GAUGE_PATTERNS then
    detect "gauge" metric ty
  else if contains (lit "quantile") q && contains metric q then
    if search false (summary_pattern metric) q then detect "summary" metric ty
    else ty
  else ty.

Definition example_line (e : str * list str) : str :=
  let (t, metrics_list) := e in t ++ lit ": " ++ nth 0 metrics_list [].

Definition check_mixed_metric_types (c : checker) : checker :=
  let q := query c in
  let is_classic_histogram_query :=
    contains (lit "histogram_quantile") q && contains (lit "_bucket") q in
  let query_clean := strip_label_selectors_and_strings q in
  let potential_metrics := findall1 false any_metric_pattern query_clean in
  let metrics :=
    filter (fun m => negb (mem (lower m) reserved_words)) potential_metrics in
  let ty1 :=
    fold_left (fun ty metric => classify q is_classic_histogram_query metric ty)
      metrics (Typing [] []) in
  let ty :=
    if contains (lit "histogram_quantile") q && negb is_classic_histogram_query
    then detect "histogram" (lit "(histogram_quantile usage)") ty1
    else ty1 in
  if 2 <=? length (detected_types ty) then
    let has_arithmetic :=
      any (fun op => contains op q) (map lit ["+"; "-"; "*"; "/"]) in
    if has_arithmetic then
      let type_list := join (lit ", ") (sorted (detected_types ty)) in
      let examples := map example_line (type_examples ty) in
      add_issue
        (advice "mixed_metric_types"
           (lit "Query combines different metric types (" ++ type_list
            ++ lit ") in arithmetic operations")
           warning
           (lit "Mixing metric types often produces meaningless results. Examples found: "
            ++ join (lit "; ") examples
            ++ lit ". Consider separating into distinct queries or ensure the combination makes semantic sense.")) c
    else c
  else c.

(** *** [_build_result] *)

Record Summary : Type := mkSummary {
  summary_errors : nat;
  summary_warnings : nat;
  summary_suggestions : nat;
  summary_optimizations : nat
}.

Record Report : Type := mkReport {
  status : string;
  report_query : str;
  report_issues : list Finding;
  report_suggestions : list Finding;
  report_optimizations : list Finding;
  summary : Summary
}.

Definition has_severity (s : Severity) (item : Finding) : bool :=
  Severity_eqb (severity item) s.

Definition build_result (c : checker) : Report :=
  let all_findings := issues c ++ suggestions c ++ optimizations c in
  let has_errors := any (has_severity error) all_findings in
  let has_warnings := any (has_severity warning) all_findings in
  let status :=
    if has_errors then "ERROR"
    else if has_warnings then "WARNING"
    else if negb (is_empty (optimizations c)) || negb (is_empty (suggestions c))
    then "CAN_BE_IMPROVED"
    else "OPTIMIZED" in
  mkReport status (query c) (issues c) (suggestions c) (optimizations c)
    (mkSummary
       (length (filter (has_severity error) (issues c)))
       (length (filter (has_severity warning) (issues c)))
       (length (suggestions c))
       (length (optimizations c))).

(** *** [check] *)

(** The checks in the order of [check]; four of them can raise. *)
Definition run_checks (c : checker) : outcome checker :=
  let c := check_high_cardinality c in
  let c := check_regex_overuse c in
  let c := check_missing_rate_on_counters c in
  let c := check_rate_on_gauges c in
  let c := check_averaging_quantiles c in
  c <- check_subquery_performance c ;;
  c <- check_irate_range c ;;
  c <- check_rate_range c ;;
  let c := check_unbounded_queries c in
  let c := check_aggregation_best_practices c in
  let c := check_recording_rule_opportunity c in
  let c := check_label_matcher_efficiency c in
  let c := check_histogram_usage c in
  let c := check_deprecated_functions c in
  c <- check_predict_linear_range c ;;
  let c := check_division_by_zero_risk c in
  let c := check_changes_resets_alerting c in
  let c := check_dimensional_metric_names c in
  let c := check_absent_with_aggregation c in
  let c := check_vector_matching c in
  let c := check_native_histogram_usage c in
  Returned (check_mixed_metric_types c).

(** [check] on an instance: the updated instance, from which the report
    is built. *)
Definition check_on (c : checker) : outcome checker :=
  if is_empty (query c) then Returned c else run_checks c.

(** [PromQLBestPracticesChecker(q).check()] *)
Definition check (q : str) : outcome Report :=
  c <- check_on (init q) ;; Returned (build_result c).

End BestPractices.

(** ** azure-pipelines-validator/scripts/validate_syntax.py

    The structure check of [AzurePipelinesValidator]. The parsed document
    [self.config] and the line index [self.line_map] are dictionaries with
    string keys. *)

Module AzurePipelines.
Import stdpp.base stdpp.option stdpp.fin_maps stdpp.gmap stdpp.strings.
Open Scope string_scope.
Open Scope nat_scope.
Open Scope list_scope.

(** A value of the parsed YAML document. The items of a mapping are its
    keys, which need not be strings ([on:] is read as [True], [1:] as a
    number), with their values, in the order of the document. *)
#[warnings="-register-all"] Inductive yaml : Type :=
| YNull
| YBool (b : bool)
| YInt (z : Z)
| YStr (s : string)
| YSeq (items : list yaml)
| YMap (items : list (yaml * yaml)).

(** [ValidationError(severity, line, message, rule)] *)
Record ValidationError : Type := mkError {
  severity : string;
  line : nat;
  message : string;
  rule : string
}.

(** The attributes of the instance that the structure check uses. *)
Record validator : Type := Validator {
  errors : list ValidationError;
  config : gmap string yaml;
  line_map : gmap string nat;
  raw_lines : list string
}.

(** [key in self.config] *)
Definition has_key (key : string) (v : validator) : bool :=
  bool_decide (is_Some (config v !! key)).

(** [value in line] *)
Definition occurs_in (value line : string) : bool :=
  Py.contains (list_ascii_of_string value) (list_ascii_of_string line).

(** The loop [for line_num, line in enumerate(self.raw_lines, 1)] of
    [_get_line]: the number of the first line that contains [key], or 0. *)
Fixpoint first_line_with (key : string) (line_num : nat) (lines : list string) : nat :=
  match lines with
  | [] => 0
  | l :: lines' =>
      if occurs_in key l then line_num else first_line_with key (S line_num) lines'
  end.

(** [_get_line] *)
Definition get_line (key : string) (v : validator) : nat :=
  match line_map v !! key with
  | Some n => n
  | None => first_line_with key 1 (raw_lines v)
  end.

Definition append_error (e : ValidationError) (v : validator) : validator :=
  Validator (errors v ++ [e]) (config v) (line_map v) (raw_lines v).

(** [_validate_structure] *)
Definition validate_structure (v : validator) : validator :=
  let has_stages := has_key "stages" v in
  let has_jobs := has_key "jobs" v in
  let has_steps := has_key "steps" v in
  let has_extends := has_key "extends" v in
  if has_extends then v
  else
    let v1 :=
      if negb (has_stages || has_jobs || has_steps) then
        append_error
          (mkError "error" 1 "Pipeline must define stages, jobs, or steps"
             "missing-pipeline-content") v
      else v in
    let v2 :=
      if has_stages && has_jobs then
        append_error
          (mkError "error" (get_line "jobs" v1)
             "Cannot define both stages and jobs at root level"
             "invalid-hierarchy") v1
      else v1 in
    let v3 :=
      if has_stages && has_steps then
        append_error
          (mkError "error" (get_line "steps" v2)
             "Cannot define both stages and steps at root level"
             "invalid-hierarchy") v2
      else v2 in
    if has_jobs && has_steps then
      append_error
        (mkError "error" (get_line "steps" v3)
           "Cannot define both jobs and steps at root level"
           "invalid-hierarchy") v3
    else v3.

(** The instance after [_load_yaml] has parsed a document: no errors yet. *)
Definition loaded (cfg : gmap string yaml) (lm : gmap string nat)
  (lines : list string) : validator :=
  Validator [] cfg lm lines.

(** Three documents: a template that also has [stages] and [jobs] at its
    root, a pipeline with only [steps], and one with [stages] and [jobs]. *)
Definition template_with_stages_and_jobs : validator :=
  loaded
    (<["extends" := YStr "base.yml"]>
       (<["stages" := YSeq []]> (<["jobs" := YSeq []]> ∅)))
    ∅ ["extends: base.yml"; "stages: []"; "jobs: []"].

Definition steps_only : validator :=
  loaded (<["steps" := YSeq [YMap [(YStr "script", YStr "make")]]]> ∅)
    ∅ ["steps:"; "- script: make"].

Definition stages_and_jobs : validator :=
  loaded (<["stages" := YSeq []]> (<["jobs" := YSeq []]> ∅))
    (<["stages" := 1]> (<["jobs" := 2]> ∅)) ["stages: []"; "jobs: []"].

End AzurePipelines.

(** ** What a pattern matches

    [matches ic r st st'] says that the pattern [r] can take the matcher
    from the position [st] to the position [st']; it is the meaning of a
    pattern apart from the order in which the matcher tries things. *)

Module ReSem.
Import Py Re.

(** The repetitions of a star: each round consumes something. *)
Inductive iter (R : mstate -> mstate -> Prop) : mstate -> mstate -> Prop :=
| iter_done : forall st, iter R st st
| iter_more : forall st st1 st2,
    R st st1 -> length (rest st1) < length (rest st) -> iter R st1 st2 ->
    iter R st st2.

Definition step_rel (p : ascii -> bool) (st st' : mstate) : Prop :=
  exists c t, rest st = c :: t /\ p c = true /\ st' = MState (Some c) t (caps st).

Fixpoint matches (ic : bool) (r : regex) (st st' : mstate) {struct r} : Prop :=
  match r with
  | Eps => st' = st
  | Chr a => step_rel (chr_match ic a) st st'
  | Cls neg items => step_rel (cls_match ic neg items) st st'
  | Dot => step_rel dot_match st st'
  | Seq r1 r2 => exists mid, matches ic r1 st mid /\ matches ic r2 mid st'
  | Alt r1 r2 => matches ic r1 st st' \/ matches ic r2 st st'
  | Star r1 => iter (matches ic r1) st st'
  | Group n r1 => exists mid, matches ic r1 st mid /\ st' = set_cap n st mid
  | WordB => at_boundary st = true /\ st' = st
  | NegLook r1 => (forall mid, ~ matches ic r1 st mid) /\ st' = st
  end.

(** The character before the position reached after reading [w]. *)
Definition prev_after (pv : option ascii) (w : str) : option ascii :=
  match rev w with
  | [] => pv
  | c :: _ => Some c
  end.

(** [r] matches in [s] at the split [pre ++ suf]: from the position
    after [pre] it reaches [st']. *)
Definition matches_at (ic : bool) (r : regex) (pv : option ascii)
  (pre suf : str) (st' : mstate) : Prop :=
  matches ic r (MState (prev_after pv pre) suf []) st'.

(** The text [w] lies between the positions [st] and [st']. *)
Definition spans (st : mstate) (w : str) (st' : mstate) : Prop :=
  rest st = w ++ rest st' /\ prev st' = prev_after (prev st) w.

(** What is asked of the matcher of a pattern, for every continuation. *)
Definition body_ok (R : mstate -> mstate -> Prop)
  (body : (mstate -> option mstate) -> mstate -> option mstate) : Prop :=
  forall k st,
    (forall res, body k st = Some res -> exists st', R st st' /\ k st' = Some res) /\
    (forall st', R st st' -> k st' <> None -> body k st <> None).

(** What a match object of a scan of [s] records: a match of the pattern
    at some split of [s], its text and its groups. *)
Definition match_of (ic : bool) (r : regex) (pv : option ascii) (s : str)
  (m : match_obj) : Prop :=
  exists pre suf,
    s = pre ++ suf /\ matches_at ic r pv pre suf (m_end m) /\
    spans (MState (prev_after pv pre) suf []) (m_text m) (m_end m) /\
    m_caps m = caps (m_end m).

(** A pattern without [\b] and look-ahead, and one that has no group
    either. *)
Fixpoint simple (r : regex) : bool :=
  match r with
  | Eps | Chr _ | Cls _ _ | Dot => true
  | Seq r1 r2 | Alt r1 r2 => simple r1 && simple r2
  | Star r1 | Group _ r1 => simple r1
  | WordB | NegLook _ => false
  end.

Fixpoint plain (r : regex) : bool :=
  match r with
  | Eps | Chr _ | Cls _ _ | Dot => true
  | Seq r1 r2 | Alt r1 r2 => plain r1 && plain r2
  | Star r1 => plain r1
  | Group _ _ | WordB | NegLook _ => false
  end.

(** The words of a pattern, its assertions taken as the empty word. *)
Fixpoint lang (ic : bool) (r : regex) (w : str) {struct r} : Prop :=
  match r with
  | Eps => w = []
  | Chr a => exists c, w = [c] /\ chr_match ic a c = true
  | Cls neg items => exists c, w = [c] /\ cls_match ic neg items c = true
  | Dot => exists c, w = [c] /\ dot_match c = true
  | Seq r1 r2 => exists w1 w2, w = w1 ++ w2 /\ lang ic r1 w1 /\ lang ic r2 w2
  | Alt r1 r2 => lang ic r1 w \/ lang ic r2 w
  | Star r1 =>
      exists ws, w = concat ws /\ Forall (fun x => x <> [] /\ lang ic r1 x) ws
  | Group _ r1 => lang ic r1 w
  | WordB => w = []
  | NegLook _ => w = []
  end.

(** The position reached from [st] after reading [w], with the groups
    [cs]. *)
Definition after (st : mstate) (w : str) (cs : list (nat * str)) : mstate :=
  MState (prev_after (prev st) w) (skipn (length w) (rest st)) cs.

(** Every group [n] of the pattern holds a word that satisfies [G n]. *)
Fixpoint groups_in (ic : bool) (G : nat -> str -> Prop) (r : regex) : Prop :=
  match r with
  | Group n r1 => (forall w, lang ic r1 w -> G n w) /\ groups_in ic G r1
  | Seq r1 r2 | Alt r1 r2 => groups_in ic G r1 /\ groups_in ic G r2
  | Star r1 => groups_in ic G r1
  | _ => True
  end.

(** [w] is a part of the text [T]. *)
Definition within (T w : str) : Prop := exists p s, T = p ++ w ++ s.

(** The groups [cs] hold parts of [T] that satisfy [G]. *)
Definition caps_ok (T : str) (G : nat -> str -> Prop) (cs : list (nat * str))
  : Prop :=
  Forall (fun c => within T (snd c) /\ G (fst c) (snd c)) cs.

End ReSem.

(** ** Notions used to state the properties *)

Module SyntaxSpec.
Import Py Re SyntaxValidator.
Open Scope string_scope.
Open Scope nat_scope.
Open Scope list_scope.

(** [v'] is [v] after some checks: the same query, and further errors
    that satisfy [P] and warnings that satisfy [Q] appended. *)
Definition grows (P Q : Finding -> Prop) (v v' : validator) : Prop :=
  query v' = query v /\
  exists es ws,
    errors v' = errors v ++ es /\ warnings v' = warnings v ++ ws /\
    Forall P es /\ Forall Q ws.

Definition error_of (types : list string) (f : Finding) : Prop :=
  severity f = error /\ In (ftype f) types.

Definition note_of (types : list string) (f : Finding) : Prop :=
  (severity f = warning \/ severity f = info) /\ In (ftype f) types.

(** The types of the findings of [_check_balanced_delimiters]. *)
Definition delimiter_types : list string :=
  ["unmatched_bracket"; "unmatched_brace"; "unmatched_paren";
   "unclosed_string"; "unclosed_bracket"; "unclosed_brace"; "unclosed_paren"].

(** The types of the errors and of the warnings of the later checks. *)
Definition later_error_types : list string :=
  ["invalid_utf8_metric"; "invalid_subquery"; "invalid_duration";
   "unknown_function"; "missing_range_vector"; "misplaced_offset"].

Definition warning_types : list string :=
  ["empty_label_matcher"; "utf8_metric_unnecessary_quoting";
   "possible_utf8_syntax_error"; "double_operator"].

Definition is_delimiter_finding (f : Finding) : bool :=
  existsb (String.eqb (ftype f)) delimiter_types.

(** The status that the errors and warnings of a report call for. *)
Definition expected_status (r : Report) : string :=
  match report_errors r, report_warnings r with
  | _ :: _, _ => "ERROR"
  | [], _ :: _ => "WARNING"
  | [], [] => "VALID"
  end.

(** The checks after the delimiter check, together. *)
Definition later_checks (order : list str) (v : validator) : validator :=
  check_common_typos
    (check_operators
       (check_function_syntax order
          (check_time_ranges (check_metric_selectors v)))).

(** *** Durations and bracketed spans, as the specification words them *)

Fixpoint take_while (p : ascii -> bool) (s : str) : str :=
  match s with
  | c :: s' => if p c then c :: take_while p s' else []
  | [] => []
  end.

Fixpoint drop_while (p : ascii -> bool) (s : str) : str :=
  match s with
  | c :: s' => if p c then drop_while p s' else s
  | [] => []
  end.

Definition duration_units : list string := ["ms"; "s"; "m"; "h"; "d"; "w"; "y"].

(** The duration grammar: one or more decimal digits, then a unit. *)
Definition duration_grammar (s : str) : Prop :=
  exists ds u,
    s = ds ++ lit u /\ ds <> [] /\ forallb isdecimal ds = true /\
    In u duration_units.

Definition is_duration (s : str) : bool :=
  match s with
  | c :: s' => isdecimal c && mem (drop_while isdecimal s') (map lit duration_units)
  | [] => false
  end.

Definition colon : ascii := ":"%char.
Definition not_colon (c : ascii) : bool := negb (eqb_chr c colon).

(** The number of colons of a span, and the text before and after its
    first colon. *)
Definition colons (s : str) : nat := count_occ ascii_dec s colon.
Definition before_colon (s : str) : str := take_while not_colon s.
Definition after_colon (s : str) : str := tl (drop_while not_colon s).

(** The errors of one part of a subquery: none for an empty part. *)
Definition part_errors (which : str) (part : str) : list Finding :=
  if is_empty part || is_duration part then []
  else [finding "invalid_duration"
          (lit "Invalid duration in subquery " ++ which ++ lit ": " ++ part) error].

(** The errors of one bracketed span. *)
Definition span_errors (span : str) : list Finding :=
  let s := strip span in
  match colons s with
  | 0 =>
      if is_duration s then []
      else [finding "invalid_duration"
              (lit "Invalid duration syntax: " ++ s
               ++ lit ". Expected format like 5m, 1h, 7d") error]
  | 1 =>
      part_errors (lit "range") (strip (before_colon s))
      ++ part_errors (lit "resolution") (strip (after_colon s))
  | _ =>
      [finding "invalid_subquery"
         (lit "Invalid subquery syntax: [" ++ s ++ lit "]") error]
  end.

(** [span] is the content of a bracketed span of [q]: it stands between
    an opening and a closing bracket, is not empty and has no closing
    bracket inside. *)
Definition bracketed_span (q span : str) : Prop :=
  span <> [] /\ ~ In "]"%char span /\
  exists pre suf, q = pre ++ "["%char :: span ++ "]"%char :: suf.

(** *** Function names, as the specification words them *)

(** The Levenshtein distance by its recurrence: the distance to the empty
    string is the length; otherwise the least of a deletion, an insertion
    and a substitution (free when the characters agree) at one end. *)
Fixpoint lev_rec (s t : str) {struct s} : nat :=
  match s with
  | [] => length t
  | a :: s' =>
      (fix inner (t : str) : nat :=
         match t with
         | [] => length s
         | b :: t' =>
             Nat.min (lev_rec s' t + 1)
               (Nat.min (inner t' + 1)
                  (lev_rec s' t' + (if eqb_chr a b then 0 else 1)))
         end) t
  end.

(** The recurrence, applied at the last characters. *)
Definition edit_distance (s t : str) : nat := lev_rec (rev s) (rev t).

(** The prefixes of a string, from the empty one to the whole. *)
Definition prefixes (t : str) : list str :=
  map (fun k => firstn k t) (seq 0 (S (length t))).

(** The row of the distances from [x] to the prefixes of [t]. *)
Definition row (x t : str) : list nat :=
  map (fun p => lev_rec x (rev p)) (prefixes t).

(** The first three names of [order] within distance 2 of [word]. *)
Definition suggestions (order : list str) (word : str) : list str :=
  firstn 3 (filter (fun name => edit_distance word name <=? 2) order).

(** The error of one identifier found before an opening parenthesis. *)
Definition unknown_function_errors (order : list str) (func : str)
  : list Finding :=
  let word := lower func in
  if mem word NON_FUNCTION_KEYWORDS || mem word FUNCTIONS then []
  else
    match suggestions order word with
    | [] => [finding "unknown_function" (lit "Unknown function: " ++ func) error]
    | names =>
        [finding "unknown_function"
           (lit "Unknown function: " ++ func ++ lit ". Did you mean: "
            ++ join (lit ", ") names ++ lit "?") error]
    end.

Definition ident_start (c : ascii) : bool :=
  in_range 65 90 c || in_range 97 122 c || eqb_chr c "_"%char.

Definition ident_char (c : ascii) : bool := ident_start c || isdecimal c.

(** An identifier: a letter or an underscore, then letters, digits and
    underscores. *)
Definition identifier (s : str) : Prop :=
  exists c cs, s = c :: cs /\ ident_start c = true /\ forallb ident_char cs = true.


(** *** Rate functions and their range vectors *)

Definition rate_functions : list string :=
  ["rate"; "irate"; "increase"; "delta"; "idelta"].

(** The characters of a metric name: letters, the underscore and the
    colon, and after the first character also digits. *)
Definition name_start_char (c : ascii) : bool :=
  in_range 97 122 c || in_range 65 90 c || eqb_chr c "_"%char || eqb_chr c colon.

Definition name_part_char (c : ascii) : bool := name_start_char c || isdecimal c.

Definition is_metric_name (s : str) : bool :=
  match s with
  | c :: cs => name_start_char c && forallb name_part_char cs
  | [] => false
  end.

(** Nothing, or a brace block without a closing brace inside. *)
Definition brace_block (s : str) : Prop :=
  s = [] \/ exists b, s = "{"%char :: b ++ ["}"%char] /\ ~ In "}"%char b.

(** The text ends with a character of a word. *)
Definition ends_in_word (s : str) : bool :=
  match rev s with
  | c :: _ => isword c
  | [] => false
  end.

(** The shape that [_check_common_typos] looks for: not after a word
    character, a rate function, an opening parenthesis, a metric name,
    optionally a brace block, and the closing parenthesis, with white
    space allowed in between. *)
Definition missing_range_shape (q : str) : Prop :=
  exists pre f ws1 ws2 name ws3 block ws4 suf,
    q = pre ++ lit f ++ ws1 ++ "("%char :: ws2 ++ name ++ ws3 ++ block ++ ws4
        ++ ")"%char :: suf /\
    ends_in_word pre = false /\ In f rate_functions /\
    forallb isspace ws1 = true /\ forallb isspace ws2 = true /\
    is_metric_name name = true /\ forallb isspace ws3 = true /\
    brace_block block /\ forallb isspace ws4 = true.

Definition missing_range_vector : Finding :=
  finding "missing_range_vector"
    (lit "rate(), irate(), increase(), delta(), and idelta() require a range vector [duration]")
    error.

(** A rate function applied to a metric name with a range. *)
Definition rate_query (f : string) (name dur : str) : str :=
  lit f ++ "("%char :: name ++ "["%char :: dur ++ lit "])".

(** The characters that the checks react to: white space, delimiters,
    the quote, the backslash and the arithmetic operators. *)
Definition special (c : ascii) : bool :=
  isspace c || existsb (eqb_chr c) (lit "()[]{}`\+-*/").

(** *** Delimiters, as the specification words them *)

(** The characters of a query that stand outside string literals, with
    their positions. A backslash hides the character after it; a double
    quote opens or closes a literal. [i] is the position of the first
    character of [s]. *)
Fixpoint outside_strings (i : nat) (in_literal escaped : bool) (s : str)
  : list (nat * ascii) :=
  match s with
  | [] => []
  | c :: s' =>
      if escaped then outside_strings (S i) in_literal false s'
      else if eqb_chr c bslash then outside_strings (S i) in_literal true s'
      else if eqb_chr c dq then outside_strings (S i) (negb in_literal) false s'
      else if in_literal then outside_strings (S i) true false s'
      else (i, c) :: outside_strings (S i) false false s'
  end.

(** Whether the text ends inside a string literal. *)
Fixpoint ends_in_literal (in_literal escaped : bool) (s : str) : bool :=
  match s with
  | [] => in_literal
  | c :: s' =>
      if escaped then ends_in_literal in_literal false s'
      else if eqb_chr c bslash then ends_in_literal in_literal true s'
      else if eqb_chr c dq then ends_in_literal (negb in_literal) false s'
      else ends_in_literal in_literal false s'
  end.

(** One kind of delimiter. *)
Record delimiter : Type := Delimiter {
  opener : ascii;
  closer : ascii;
  unmatched_type : string;
  unclosed_type : string;
  label : string
}.

Definition bracket : delimiter :=
  Delimiter "[" "]" "unmatched_bracket" "unclosed_bracket" "bracket".
Definition brace : delimiter :=
  Delimiter "{" "}" "unmatched_brace" "unclosed_brace" "brace".
Definition paren : delimiter :=
  Delimiter "(" ")" "unmatched_paren" "unclosed_paren" "parenthesis".

Definition delimiters : list delimiter := [bracket; brace; paren].

(** One step of the matching of one kind: an opener is open from now on,
    a closer closes the innermost open one. *)
Definition match_step (k : delimiter) (open : list nat) (ic : nat * ascii)
  : list nat :=
  if eqb_chr (snd ic) (opener k) then open ++ [fst ic]
  else if eqb_chr (snd ic) (closer k) then removelast open
  else open.

(** The positions of the openers of kind [k] that are open after the
    characters [cs], the innermost last. *)
Definition open_after (k : delimiter) (cs : list (nat * ascii)) : list nat :=
  fold_left (match_step k) cs [].

(** A closer that arrives when nothing of its kind is open is
    unmatched. *)
Definition closing_findings (seen : list (nat * ascii)) (ic : nat * ascii)
  : list Finding :=
  flat_map
    (fun k =>
       if eqb_chr (snd ic) (closer k) && is_empty (open_after k seen)
       then [unmatched (unmatched_type k) (label k) (fst ic)]
       else [])
    delimiters.

Fixpoint unmatched_findings (seen cs : list (nat * ascii)) : list Finding :=
  match cs with
  | [] => []
  | ic :: cs' => closing_findings seen ic ++ unmatched_findings (seen ++ [ic]) cs'
  end.

(** A kind with openers left open is unclosed, at the innermost one. *)
Definition unclosed_findings (cs : list (nat * ascii)) : list Finding :=
  flat_map
    (fun k =>
       match rev (open_after k cs) with
       | [] => []
       | innermost :: _ => [unclosed (unclosed_type k) (label k) innermost]
       end)
    delimiters.

Definition unclosed_string : Finding :=
  finding "unclosed_string" (lit "Unclosed string literal") error.

(** The findings that the specification asks for, for the query [q]. *)
Definition delimiter_findings (q : str) : list Finding :=
  let cs := outside_strings 0 false false q in
  unmatched_findings [] cs
  ++ (if ends_in_literal false false q then [unclosed_string] else [])
  ++ unclosed_findings cs.

(** The closer of kind [k] at position [i] of [q] is unmatched: it
    stands outside string literals and nothing of its kind is open
    before it. *)
Definition unmatched_closer (q : str) (k : delimiter) (i : nat) : Prop :=
  exists seen later,
    outside_strings 0 false false q = seen ++ (i, closer k) :: later /\
    open_after k seen = [].

(** The opener of kind [k] at position [i] of [q] is the innermost one
    that is still open at the end. *)
Definition innermost_unclosed (q : str) (k : delimiter) (i : nat) : Prop :=
  exists others, open_after k (outside_strings 0 false false q) = others ++ [i].

(** The query has an unmatched or an unclosed bracket, brace or
    parenthesis. *)
Definition unbalanced (q : str) : Prop :=
  exists k i, In k delimiters /\ (unmatched_closer q k i \/ innermost_unclosed q k i).

End SyntaxSpec.

Module BestSpec.
Import Py Re BestPractices.
Open Scope string_scope.
Open Scope nat_scope.
Open Scope list_scope.

(** [c'] is [c] after some checks: the same query, further issues, none
    of severity [info], and further suggestions and optimizations, all of
    severity [info]. *)
Definition grows (c c' : checker) : Prop :=
  query c' = query c /\
  exists new_issues new_suggestions new_optimizations,
    issues c' = issues c ++ new_issues /\
    suggestions c' = suggestions c ++ new_suggestions /\
    optimizations c' = optimizations c ++ new_optimizations /\
    Forall (fun f => severity f = warning \/ severity f = error) new_issues /\
    Forall (fun f => severity f = info) new_suggestions /\
    Forall (fun f => severity f = info) new_optimizations.

(** The status that the findings of a report call for: [ERROR] if a
    finding has severity [error]; else [WARNING] if one has severity
    [warning]; else [CAN_BE_IMPROVED] if a suggestion or an optimization
    of severity [info] was collected; else [OPTIMIZED]. *)
Definition expected_status (r : Report) : string :=
  let all_findings :=
    report_issues r ++ report_suggestions r ++ report_optimizations r in
  if existsb (has_severity error) all_findings then "ERROR"
  else if existsb (has_severity warning) all_findings then "WARNING"
  else if existsb (has_severity info)
            (report_suggestions r ++ report_optimizations r)
  then "CAN_BE_IMPROVED"
  else "OPTIMIZED".

(** The same, for the findings that an instance has collected in its
    three lists once the checks have run. *)
Definition collected_status (c : checker) : string :=
  let all_findings := issues c ++ suggestions c ++ optimizations c in
  if existsb (has_severity error) all_findings then "ERROR"
  else if existsb (has_severity warning) all_findings then "WARNING"
  else if existsb (has_severity info) (suggestions c ++ optimizations c)
  then "CAN_BE_IMPROVED"
  else "OPTIMIZED".

(** What a report shows of its findings: the status, and the type and
    the severity of each issue, suggestion and optimization. *)
Definition report_outline (r : Report)
  : string * list (string * Severity) * list (string * Severity)
    * list (string * Severity) :=
  let outline := map (fun f => (ftype f, severity f)) in
  (status r, outline (report_issues r), outline (report_suggestions r),
   outline (report_optimizations r)).

(** The first five checks of [check], none of which can raise. *)
Definition first_checks (c : checker) : checker :=
  check_averaging_quantiles
    (check_rate_on_gauges
       (check_missing_rate_on_counters
          (check_regex_overuse (check_high_cardinality c)))).

(** The shape that [_check_averaging_quantiles] looks for: [avg], white
    space, an opening parenthesis, text without a closing parenthesis, an
    opening brace, text without a closing brace, [quantile], white space
    and an equals sign. *)
Definition quantile_average (s : str) : Prop :=
  exists pre ws1 a b ws2 suf,
    s = pre ++ lit "avg" ++ ws1 ++ lit "(" ++ a ++ lit "{" ++ b
        ++ lit "quantile" ++ ws2 ++ lit "=" ++ suf /\
    forallb isspace ws1 = true /\ forallb isspace ws2 = true /\
    ~ In ")"%char a /\ ~ In "}"%char b.

(** The findings of a report that have severity [error]. *)
Definition error_findings (r : Report) : list Finding :=
  filter (has_severity error)
    (report_issues r ++ report_suggestions r ++ report_optimizations r).

(** A selector as a query writes it: the metric name and, in braces, its
    label filters, each a label, an equals sign and a quoted value,
    separated by commas. *)
Definition label_filter (label value : str) : str :=
  label ++ lit "=" ++ [dq] ++ value ++ [dq].

Definition selector (name : str) (filters : list (str * str)) : str :=
  name ++ lit "{"
  ++ join (lit ",") (map (fun f => label_filter (fst f) (snd f)) filters)
  ++ lit "}".

(** [avg(] applied to a selector with a [quantile=] label filter. *)
Definition avg_of_quantile_selector (q : str) : Prop :=
  exists name filters value,
    q = lit "avg(" ++ selector name filters ++ lit ")" /\
    In (lit "quantile", value) filters.

(** No number of the query has 300 digits or more. *)
Definition short_numbers (q : str) : Prop :=
  forall ds, ReSem.within q ds -> forallb isdecimal ds = true -> length ds < 300.

(** The first group of the patterns with durations is a number. *)
Definition number_group (n : nat) (w : str) : Prop :=
  n = 1 -> forallb isdecimal w = true.

End BestSpec.

(** ** Further specifications

    Well-nested queries, for the delimiter scan of the syntax validator. *)

Module Nesting.
Import Py SyntaxSpec.
Open Scope list_scope.

(** A character that is no delimiter, not the double quote and not the
    backslash. *)
Definition ordinary (c : ascii) : bool :=
  negb (existsb (eqb_chr c) (lit "()[]{}`\")).

(** The inside of a string literal: a double quote stands only after a
    backslash, and no backslash is left alone at the end. [escaped] tells
    whether the character before was such a backslash. *)
Fixpoint literal_body (escaped : bool) (s : str) : bool :=
  match s with
  | [] => negb escaped
  | c :: s' =>
      if escaped then literal_body false s'
      else if eqb_chr c bslash then literal_body true s'
      else if eqb_chr c dq then false
      else literal_body false s'
  end.

(** A well-nested text: ordinary characters, escaped characters, string
    literals, and well-nested texts in parentheses, brackets or braces,
    one after the other. *)
Inductive well_nested : str -> Prop :=
| wn_empty : well_nested []
| wn_ordinary : forall c, ordinary c = true -> well_nested [c]
| wn_escaped : forall c, well_nested [bslash; c]
| wn_literal : forall body,
    literal_body false body = true -> well_nested (dq :: body ++ [dq])
| wn_group : forall k w,
    In k delimiters -> well_nested w -> well_nested (opener k :: w ++ [closer k])
| wn_app : forall u v, well_nested u -> well_nested v -> well_nested (u ++ v).

End Nesting.

(** Adjacent arithmetic operators, for [_check_operators]. *)

Module OperatorSpec.
Import Py SyntaxValidator.
Open Scope string_scope.
Open Scope list_scope.

Definition is_operator (c : ascii) : bool := existsb (eqb_chr c) (lit "+-*/").

(** Two characters of [+-*/] stand side by side in [q]. *)
Definition adjacent_operators (q : str) : Prop :=
  exists u a b v,
    q = u ++ a :: b :: v /\ is_operator a = true /\ is_operator b = true.

Definition double_operator_warning : Finding :=
  finding "double_operator"
    (lit "Found consecutive operators - this might be a typo") warning.

Definition of_type (t : string) (f : Finding) : bool := String.eqb (ftype f) t.

(** Any finding, and a finding of another type than [double_operator]. *)
Definition anything (f : Finding) : Prop := True.
Definition other (f : Finding) : Prop := of_type "double_operator" f = false.

End OperatorSpec.

(** The findings of severity [error] of the best-practices checker. *)

Module BestErrors.
Import Py Re BestPractices.
Open Scope string_scope.
Open Scope list_scope.

(** The issues of severity [error] that the instance has collected. *)
Definition error_issues (c : checker) : list Finding :=
  filter (has_severity error) (issues c).

(** The finding of [_check_absent_with_aggregation] that has severity
    [error]. *)
Definition absent_with_by : Finding :=
  advice "absent_with_by"
    (lit "absent() does not support by() clause for per-label grouping")
    error
    (lit "absent() returns a single value. For per-label absence detection, use: group(present_over_time(metric[range])) by (labels) unless group(metric) by (labels)").

(** The finding of [_check_vector_matching] that has severity [error]. *)
Definition group_without_matching : Finding :=
  advice "group_without_matching"
    (lit "group_left()/group_right() used without on() or ignoring()")
    error
    (lit "group_left()/group_right() requires on() or ignoring() to specify matching labels").

(** [absent], a pair of parentheses with something but no closing
    parenthesis inside, [by] and an opening parenthesis, with white space
    allowed in between. *)
Definition absent_by_clause (s : str) : Prop :=
  exists pre ws1 a ws2 ws3 suf,
    s = pre ++ lit "absent" ++ ws1 ++ lit "(" ++ a ++ lit ")" ++ ws2
        ++ lit "by" ++ ws3 ++ lit "(" ++ suf /\
    forallb isspace ws1 = true /\ forallb isspace ws2 = true /\
    forallb isspace ws3 = true /\ a <> [] /\ ~ In ")"%char a.

(** In the lowered text, [group_left] or [group_right] not after a word
    character, white space and an opening parenthesis, while the text has
    neither [on(] nor [ignoring(]. *)
Definition unmatched_group_modifier (s : str) : Prop :=
  (exists pre g ws suf,
     lower s = pre ++ lit g ++ ws ++ lit "(" ++ suf /\
     In g ["group_left"; "group_right"] /\
     forallb isspace ws = true /\ SyntaxSpec.ends_in_word pre = false) /\
  contains (lit "on(") (lower s) = false /\
  contains (lit "ignoring(") (lower s) = false.

End BestErrors.

(** ** The entry points of the two PromQL scripts

    [main] of [validate_syntax.py] and of [check_best_practices.py], as
    far as the exit status goes: what they print is left out. [argv] is
    [sys.argv]. *)

Module SyntaxMain.
Import Py SyntaxValidator.
Open Scope Z_scope.

(** The argument of [sys.exit]. *)
Definition main (functions_iter : list str) (argv : list str) : Z :=
  if (length argv <? 2)%nat then 1
  else
    let query := nth 1 argv [] in
    let result := validate functions_iter query in
    if valid result then 0 else 1.

End SyntaxMain.

Module BestMain.
Import Py BestPractices.
Open Scope Z_scope.

(** The argument of [sys.exit], or the exception that [check] raised and
    that nothing catches. *)
Definition main (argv : list str) : outcome Z :=
  if (length argv <? 2)%nat then Returned 1
  else
    let query := nth 1 argv [] in
    result <- check query ;;
    Returned (if (summary_errors (summary result) =? 0)%nat then 0 else 1).

End BestMain.

(** ** azure-pipelines-validator/scripts/validate_syntax.py, continued

    The line index of [_build_line_map], the searches [_get_line] and
    [_find_line_containing] in the lines of the file, and the check of
    the task format. *)

Module AzureLines.
Import stdpp.base stdpp.option stdpp.fin_maps stdpp.gmap stdpp.strings.
Import AzurePipelines.
Open Scope string_scope.
Open Scope nat_scope.
Open Scope list_scope.








(** [_find_line_containing] *)
Definition find_line_containing (value : string) (v : validator) : nat :=
  first_line_with value 1 (raw_lines v).

(** The instance as [__init__] leaves it. *)
Definition fresh : validator := Validator [] ∅ ∅ [].


End AzureLines.

(** [_validate_task] *)

Module AzureTasks.
Import Py Re.
Import AzurePipelines AzureLines.
Open Scope string_scope.
Open Scope nat_scope.
Open Scope list_scope.

(** [[A-Za-z0-9_\-\.]+@\d+], between the anchors [^] and [$]. *)
Definition task_pattern : regex :=
  Seqs [Plus (Cls false [CRange 65 90; CRange 97 122; CRange 48 57;
                         CChar "_"%char; CChar "-"%char; CChar "."%char]);
        Chr "@"%char; Plus digit].

(** The anchor [$] at the end of a pattern: the end of the text, or the
    line feed that ends the text. *)
Definition at_end (st : mstate) : option mstate :=
  match rest st with
  | [] => Some st
  | [c] => if eqb_chr c newline then Some st else None
  | _ :: _ :: _ => None
  end.

(** [re.compile('^' + r + '$').match(s)] used as a truth value. *)
Definition match_to_end (r : regex) (s : str) : bool :=
  match rmatch false r at_end (MState None s []) with
  | Some _ => true
  | None => false
  end.

Definition validate_task (task : yaml) (context : string) (v : validator)
  : validator :=
  match task with
  | YStr t =>
      if negb (match_to_end task_pattern (list_ascii_of_string t)) then
        let line_num :=
          match find_line_containing (String.append "task: " t) v with
          | 0 => find_line_containing t v
          | S n => S n
          end in
        append_error
          (mkError "error" line_num
             (String.append "Task '"
                (String.append t
                   (String.append "' in "
                      (String.append context
                         " must follow format 'TaskName@version'"))))
             "task-invalid-format") v
      else v
  | _ => v
  end.

(** A character of a task name, and a task reference: a name, [@] and a
    version number. *)
Definition task_name_char (c : ascii) : bool :=
  in_range 65 90 c || in_range 97 122 c || in_range 48 57 c
  || eqb_chr c "_" || eqb_chr c "-" || eqb_chr c ".".

Definition task_reference (t : str) : Prop :=
  exists name version,
    t = name ++ "@"%char :: version /\
    name <> [] /\ forallb task_name_char name = true /\
    version <> [] /\ forallb isdecimal version = true.

(** The texts that the pattern lets through: a task reference, with or
    without a line feed after it. *)
Definition accepted_task (t : str) : Prop :=
  task_reference t \/ exists w, t = w ++ [newline] /\ task_reference w.

End AzureTasks.

(** [_validate_variables] and [_validate_variable_name] *)

Module AzureVariables.
Import Py Re.
Import AzurePipelines AzureLines AzureTasks.
Open Scope string_scope.
Open Scope nat_scope.
Open Scope list_scope.

(** [re.match] raises [TypeError] when it is given a value that is not
    a string. *)
Inductive exn : Type := TypeError.

Inductive attempt (A : Type) : Type :=
| Done (a : A)
| Raise (e : exn).

Arguments Done {A} a.
Arguments Raise {A} e.

(** [[A-Za-z_][A-Za-z0-9_]*], between the anchors [^] and [$]. *)
Definition variable_pattern : regex :=
  Seq (Cls false [CRange 65 90; CRange 97 122; CChar "_"%char])
      (Star (Cls false [CRange 65 90; CRange 97 122; CRange 48 57; CChar "_"%char])).

Definition variable_warning (name : string) (v : validator) : ValidationError :=
  mkError "warning" (get_line name v)
    (String.append "Variable '"
       (String.append name
          "' should use alphanumeric characters and underscores only"))
    "variable-invalid-name".

(** [_validate_variable_name] *)
Definition validate_variable_name (name : yaml) (v : validator)
  : attempt validator :=
  match name with
  | YStr n =>
      Done (if negb (match_to_end variable_pattern (list_ascii_of_string n))
            then append_error (variable_warning n v) v
            else v)
  | _ => Raise TypeError
  end.

(** [d.get(key)] for a string [key], on the items of a mapping, which
    have distinct keys: only a key that is a string can be equal to
    [key]. *)
Fixpoint ymap_get (key : string) (items : list (yaml * yaml)) : option yaml :=
  match items with
  | [] => None
  | (YStr k, x) :: items' =>
      if String.eqb k key then Some x else ymap_get key items'
  | _ :: items' => ymap_get key items'
  end.

(** [for key, value in variables.items()]: a key is passed on as it is,
    string or not. *)
Fixpoint validate_variable_keys (items : list (yaml * yaml)) (v : validator)
  : attempt validator :=
  match items with
  | [] => Done v
  | (key, _) :: items' =>
      match validate_variable_name key v with
      | Done v' => validate_variable_keys items' v'
      | Raise e => Raise e
      end
  end.

(** [for var in variables] *)
Fixpoint validate_variable_list (vars : list yaml) (v : validator)
  : attempt validator :=
  match vars with
  | [] => Done v
  | var :: vars' =>
      let step :=
        match var with
        | YMap items =>
            match ymap_get "name" items with
            | Some name => validate_variable_name name v
            | None => Done v
            end
        | _ => Done v
        end in
      match step with
      | Done v' => validate_variable_list vars' v'
      | Raise e => Raise e
      end
  end.

(** [_validate_variables] *)
Definition validate_variables (variables : yaml) (v : validator)
  : attempt validator :=
  match variables with
  | YMap items => validate_variable_keys items v
  | YSeq vars => validate_variable_list vars v
  | _ => Done v
  end.

(** The names that [_validate_variables] looks at: the keys of a
    mapping, or the [name] entries of the mappings of a list. *)
Definition declared_names (variables : yaml) : list yaml :=
  match variables with
  | YMap items => map fst items
  | YSeq vars =>
      flat_map
        (fun var =>
           match var with
           | YMap items =>
               match ymap_get "name" items with
               | Some name => [name]
               | None => []
               end
           | _ => []
           end)
        vars
  | _ => []
  end.

(** The names as strings, if all of them are strings. *)
Fixpoint strings_of (names : list yaml) : option (list string) :=
  match names with
  | [] => Some []
  | YStr n :: names' =>
      match strings_of names' with
      | Some ns => Some (n :: ns)
      | None => None
      end
  | _ :: _ => None
  end.

(** A variable name: a letter or an underscore, then letters, digits
    and underscores. *)
Definition name_start (c : ascii) : bool :=
  in_range 65 90 c || in_range 97 122 c || eqb_chr c "_".

Definition name_char (c : ascii) : bool :=
  in_range 65 90 c || in_range 97 122 c || in_range 48 57 c || eqb_chr c "_".

Definition is_variable_name (n : str) : bool :=
  match n with
  | c :: rest => name_start c && forallb name_char rest
  | [] => false
  end.

(** The text without the line feed that ends it, if one does. *)
Definition without_final_newline (n : str) : str :=
  match rev n with
  | c :: r => if eqb_chr c newline then rev r else n
  | [] => n
  end.

Definition accepted_name (n : str) : bool :=
  is_variable_name (without_final_newline n).

(** The instance with further findings, and the warnings for the names
    that are not accepted. *)
Definition with_errors (v : validator) (es : list ValidationError) : validator :=
  Validator (errors v ++ es) (config v) (line_map v) (raw_lines v).

Definition warnings_for (v : validator) (ns : list string) : list ValidationError :=
  map (fun n => variable_warning n v)
    (filter (fun n => negb (accepted_name (list_ascii_of_string n))) ns).

End AzureVariables.

(** * The matcher and the meaning of patterns *)

Section MatcherFacts.
Import Py Re ReSem.

Variable ic : bool.

Lemma prev_after_nil pv : prev_after pv [] = pv.
Proof. reflexivity. Qed.

Lemma prev_after_snoc pv w c : prev_after pv (w ++ [c]) = Some c.
Proof. unfold prev_after. rewrite rev_app_distr. reflexivity. Qed.

Lemma prev_after_cons pv c w : prev_after pv (c :: w) = prev_after (Some c) w.
Proof.
  destruct w as [ | d w] using rev_ind; [reflexivity | ].
  rewrite app_comm_cons, !prev_after_snoc. reflexivity.
Qed.

Lemma prev_after_app pv w1 w2 :
  prev_after pv (w1 ++ w2) = prev_after (prev_after pv w1) w2.
Proof.
  revert pv. induction w1 as [ | c w1 IH]; intros pv; [reflexivity | ].
  simpl. rewrite !prev_after_cons. apply IH.
Qed.

Lemma spans_refl st : spans st [] st.
Proof. split; reflexivity. Qed.

Lemma spans_trans st1 w1 st2 w2 st3 :
  spans st1 w1 st2 -> spans st2 w2 st3 -> spans st1 (w1 ++ w2) st3.
Proof.
  intros [E1 P1] [E2 P2]. split.
  - rewrite E1, E2, app_assoc. reflexivity.
  - rewrite P2, P1, prev_after_app. reflexivity.
Qed.

Lemma step_rel_spans p st st' :
  step_rel p st st' -> exists w, spans st w st'.
Proof.
  intros (c & t & Hr & _ & ->). exists [c]. split; simpl; auto.
Qed.

Lemma iter_spans (R : mstate -> mstate -> Prop) :
  (forall st st', R st st' -> exists w, spans st w st') ->
  forall st st', iter R st st' -> exists w, spans st w st'.
Proof.
  intros HR st st' Hi. induction Hi as [st | st st1 st2 H1 _ _ IH].
  - exists []. apply spans_refl.
  - destruct (HR _ _ H1) as [w1 E1]. destruct IH as [w2 E2].
    exists (w1 ++ w2). eapply spans_trans; eauto.
Qed.

(** A match only moves forward in the text, and the matcher's record of
    the character before the position is right. *)
Lemma matches_spans r : forall st st',
  matches ic r st st' -> exists w, spans st w st'.
Proof.
  induction r as [ | a | neg items | | r1 IH1 r2 IH2 | r1 IH1 r2 IH2
                 | r1 IH1 | n r1 IH1 | | r1 IH1 ]; simpl; intros st st' H.
  - subst. exists []. apply spans_refl.
  - eapply step_rel_spans; eauto.
  - eapply step_rel_spans; eauto.
  - eapply step_rel_spans; eauto.
  - destruct H as (mid & Ha & Hb).
    destruct (IH1 _ _ Ha) as [w1 E1]. destruct (IH2 _ _ Hb) as [w2 E2].
    exists (w1 ++ w2). eapply spans_trans; eauto.
  - destruct H as [H | H]; eauto.
  - eapply iter_spans; eauto.
  - destruct H as (mid & Ha & ->). destruct (IH1 _ _ Ha) as [w Hw].
    exists w. exact Hw.
  - destruct H as [_ ->]. exists []. apply spans_refl.
  - destruct H as [_ ->]. exists []. apply spans_refl.
Qed.

Lemma matches_rest r st st' :
  matches ic r st st' -> exists w, rest st = w ++ rest st'.
Proof.
  intros H. destruct (matches_spans _ _ _ H) as [w [E _]]. eauto.
Qed.

Lemma matches_length r st st' :
  matches ic r st st' -> length (rest st') <= length (rest st).
Proof.
  intros H. destruct (matches_rest _ _ _ H) as [w E]. rewrite E, length_app. lia.
Qed.

Lemma spans_consumed st w st' : spans st w st' -> consumed st st' = w.
Proof.
  intros [E _]. unfold consumed. rewrite E, length_app.
  replace (length w + length (rest st') - length (rest st')) with (length w) by lia.
  rewrite firstn_app, firstn_all, Nat.sub_diag. simpl. apply app_nil_r.
Qed.

Lemma step_sound p k st res :
  step p k st = Some res -> exists st', step_rel p st st' /\ k st' = Some res.
Proof.
  unfold step, step_rel. destruct (rest st) as [ | c t] eqn:E; [discriminate | ].
  destruct (p c) eqn:Hp; [ | discriminate]. intros H.
  eexists. split; [ | exact H]. exists c, t. auto.
Qed.

Lemma step_complete p k st st' :
  step_rel p st st' -> k st' <> None -> step p k st <> None.
Proof.
  intros (c & t & E & Hp & ->) Hk. unfold step. rewrite E, Hp. exact Hk.
Qed.

Lemma star_loop_sound R body k :
  body_ok R body ->
  forall fuel st res,
    star_loop body k fuel st = Some res ->
    exists st', iter R st st' /\ k st' = Some res.
Proof.
  intros Hb fuel. induction fuel as [ | fuel IH]; simpl; intros st res H.
  - exists st. split; [constructor | exact H].
  - match type of H with
    | match ?e with _ => _ end = _ => destruct e as [r0 | ] eqn:E
    end.
    + inversion H; subst r0. clear H.
      destruct (proj1 (Hb _ _) _ E) as (st1 & H1 & Hk1).
      destruct (length (rest st1) <? length (rest st)) eqn:Hlt; [ | discriminate].
      apply Nat.ltb_lt in Hlt.
      destruct (IH _ _ Hk1) as (st' & Hi & Hk).
      exists st'. split; [ | exact Hk]. econstructor; eauto.
    + exists st. split; [constructor | exact H].
Qed.

Lemma star_loop_complete R body k :
  body_ok R body ->
  forall fuel st st',
    iter R st st' -> length (rest st) <= fuel -> k st' <> None ->
    star_loop body k fuel st <> None.
Proof.
  intros Hb fuel. induction fuel as [ | fuel IH]; intros st st' Hi Hf Hk.
  - simpl. inversion Hi; subst; [exact Hk | lia].
  - simpl.
    match goal with
    | |- match ?e with _ => _ end <> _ => destruct e as [r0 | ] eqn:E
    end; [discriminate | ].
    inversion Hi as [ | ? st1 ? H1 Hlt Hi']; subst; [exact Hk | ].
    exfalso. revert E. apply (proj2 (Hb _ _) st1 H1).
    apply Nat.ltb_lt in Hlt as Hlt'. rewrite Hlt'.
    eapply IH; eauto. lia.
Qed.

(** The matcher finds a match exactly when the pattern has one that the
    continuation accepts, and what it returns comes from such a match. *)
Lemma rmatch_ok r : body_ok (matches ic r) (rmatch ic r).
Proof.
  induction r as [ | a | neg items | | r1 IH1 r2 IH2 | r1 IH1 r2 IH2
                 | r1 IH1 | n r1 IH1 | | r1 IH1 ]; intros k st; simpl.
  - split.
    + intros res H. exists st. auto.
    + intros st' -> H. exact H.
  - split; [apply step_sound | apply step_complete].
  - split; [apply step_sound | apply step_complete].
  - split; [apply step_sound | apply step_complete].
  - split.
    + intros res H.
      destruct (proj1 (IH1 _ _) _ H) as (mid & Ha & Hb).
      destruct (proj1 (IH2 _ _) _ Hb) as (st' & Hc & Hd).
      exists st'. split; [exists mid; auto | exact Hd].
    + intros st' (mid & Ha & Hb) Hk.
      apply (proj2 (IH1 _ _) mid Ha). apply (proj2 (IH2 _ _) st' Hb Hk).
  - split.
    + intros res H. destruct (rmatch ic r1 k st) as [r0 | ] eqn:E.
      * inversion H; subst. destruct (proj1 (IH1 _ _) _ E) as (st' & Ha & Hb).
        exists st'. auto.
      * destruct (proj1 (IH2 _ _) _ H) as (st' & Ha & Hb). exists st'. auto.
    + intros st' [Ha | Hb] Hk.
      * pose proof (proj2 (IH1 k st) st' Ha Hk) as Hn.
        destruct (rmatch ic r1 k st); [discriminate | contradiction].
      * destruct (rmatch ic r1 k st); [discriminate | ].
        apply (proj2 (IH2 _ _) st' Hb Hk).
  - split.
    + intros res H. eapply star_loop_sound; eauto.
    + intros st' Hi Hk. eapply star_loop_complete; eauto.
  - split.
    + intros res H. destruct (proj1 (IH1 _ _) _ H) as (mid & Ha & Hb).
      exists (set_cap n st mid). split; [exists mid; auto | exact Hb].
    + intros st' (mid & Ha & ->) Hk. apply (proj2 (IH1 _ _) mid Ha Hk).
  - split.
    + intros res H. destruct (at_boundary st) eqn:E; [ | discriminate].
      exists st. auto.
    + intros st' [Hb ->] Hk. rewrite Hb. exact Hk.
  - split.
    + intros res H. destruct (rmatch ic r1 Some st) as [r0 | ] eqn:E; [discriminate | ].
      exists st. split; [ | exact H]. split; [ | reflexivity].
      intros mid Hm. apply (proj2 (IH1 Some st) mid Hm); [discriminate | exact E].
    + intros st' [Hno ->] Hk.
      destruct (rmatch ic r1 Some st) as [r0 | ] eqn:E; [ | exact Hk].
      destruct (proj1 (IH1 _ _) _ E) as (mid & Hm & _). destruct (Hno mid Hm).
Qed.

Lemma rmatch_sound r k st res :
  rmatch ic r k st = Some res ->
  exists st', matches ic r st st' /\ k st' = Some res.
Proof. apply (proj1 (rmatch_ok r k st)). Qed.

Lemma rmatch_complete r k st st' :
  matches ic r st st' -> k st' <> None -> rmatch ic r k st <> None.
Proof. apply (proj2 (rmatch_ok r k st)). Qed.

Lemma rmatch_none r k st :
  rmatch ic r k st = None ->
  forall st', matches ic r st st' -> k st' = None.
Proof.
  intros H st' Hm. destruct (k st') eqn:E; [ | reflexivity].
  exfalso. apply (rmatch_complete r k st st' Hm); [rewrite E; discriminate | exact H].
Qed.

End MatcherFacts.

(** * [re.search], [re.finditer] and [re.fullmatch] *)

Section SearchFacts.
Import Py Re ReSem.

Variable ic : bool.

(** A successful search returns a match of the pattern at some split of
    the text, and the pattern has no match at any earlier split. *)
Lemma search_at_some r : forall s pv n m,
  search_at ic r pv s n = Some m ->
  exists pre suf,
    s = pre ++ suf /\ m_start m = n + length pre /\
    matches_at ic r pv pre suf (m_end m) /\
    m_text m = consumed (MState (prev_after pv pre) suf []) (m_end m) /\
    m_caps m = caps (m_end m) /\
    (forall pre' suf' st', s = pre' ++ suf' -> length pre' < length pre ->
       ~ matches_at ic r pv pre' suf' st').
Proof.
  induction s as [ | c t IH]; intros pv n m H; simpl in H.
  - destruct (rmatch ic r Some (MState pv [] [])) as [st' | ] eqn:E; [ | discriminate].
    inversion H; subst m; clear H. simpl.
    destruct (rmatch_sound _ _ _ _ _ E) as (st1 & Hm & Hk). inversion Hk; subst st1.
    exists [], []. repeat split; auto.
    intros pre' suf' st'' _ Hl. simpl in Hl. lia.
  - destruct (rmatch ic r Some (MState pv (c :: t) [])) as [st' | ] eqn:E.
    + inversion H; subst m; clear H. simpl.
      destruct (rmatch_sound _ _ _ _ _ E) as (st1 & Hm & Hk). inversion Hk; subst st1.
      exists [], (c :: t). repeat split; auto.
      intros pre' suf' st'' _ Hl. simpl in Hl. lia.
    + destruct (IH _ _ _ H) as (pre & suf & -> & Hs & Hm & Ht & Hc & Hmin).
      exists (c :: pre), suf. unfold matches_at in *.
      rewrite prev_after_cons. repeat split; auto.
      * rewrite Hs. simpl. lia.
      * intros pre' suf' st'' Hsplit Hl Hm'.
        destruct pre' as [ | c' pre'].
        -- simpl in Hsplit, Hm'. subst suf'.
           pose proof (rmatch_none _ _ _ _ E _ Hm') as Hn. discriminate.
        -- simpl in Hsplit. inversion Hsplit; subst c'.
           rewrite prev_after_cons in Hm'.
           apply (Hmin pre' suf' st''); auto. simpl in Hl. lia.
Qed.

(** A failed search: the pattern matches at no split of the text. *)
Lemma search_at_none r : forall s pv n,
  search_at ic r pv s n = None ->
  forall pre suf st', s = pre ++ suf -> ~ matches_at ic r pv pre suf st'.
Proof.
  induction s as [ | c t IH]; intros pv n H pre suf st' Hs Hm; simpl in H.
  - destruct (rmatch ic r Some (MState pv [] [])) eqn:E; [discriminate | ].
    symmetry in Hs. apply app_eq_nil in Hs. destruct Hs; subst.
    pose proof (rmatch_none _ _ _ _ E _ Hm). discriminate.
  - destruct (rmatch ic r Some (MState pv (c :: t) [])) eqn:E; [discriminate | ].
    destruct pre as [ | c' pre].
    + simpl in Hs. subst suf. pose proof (rmatch_none _ _ _ _ E _ Hm). discriminate.
    + simpl in Hs. inversion Hs; subst c'. unfold matches_at in Hm.
      rewrite prev_after_cons in Hm. eapply IH; eauto.
Qed.

Lemma search_at_found r s pv n pre suf st' :
  s = pre ++ suf -> matches_at ic r pv pre suf st' ->
  search_at ic r pv s n <> None.
Proof.
  intros Hs Hm H. eapply search_at_none; eauto.
Qed.

(** [re.search] is true exactly when the pattern matches somewhere. *)
Lemma search_true_iff r s :
  search ic r s = true <->
  exists pre suf st', s = pre ++ suf /\ matches_at ic r None pre suf st'.
Proof.
  unfold search, search_obj. split.
  - destruct (search_at ic r None s 0) as [m | ] eqn:E; [ | discriminate]. intros _.
    destruct (search_at_some _ _ _ _ _ E) as (pre & suf & Hs & _ & Hm & _).
    eauto.
  - intros (pre & suf & st' & Hs & Hm).
    destruct (search_at ic r None s 0) eqn:E; [reflexivity | ].
    exfalso. eapply search_at_none; eauto.
Qed.

Lemma search_false_iff r s :
  search ic r s = false <->
  forall pre suf st', s = pre ++ suf -> ~ matches_at ic r None pre suf st'.
Proof.
  split.
  - intros H pre suf st' Hs Hm.
    assert (search ic r s = true) by (apply search_true_iff; eauto). congruence.
  - intros H. destruct (search ic r s) eqn:E; [ | reflexivity].
    apply search_true_iff in E. destruct E as (pre & suf & st' & Hs & Hm).
    destruct (H _ _ _ Hs Hm).
Qed.

(** [re.fullmatch] is true exactly when the pattern matches the whole text. *)
Lemma fullmatch_true_iff r s :
  fullmatch ic r s = true <->
  exists st', matches ic r (MState None s []) st' /\ rest st' = [].
Proof.
  unfold fullmatch. split.
  - destruct (rmatch ic r _ (MState None s [])) as [res | ] eqn:E; [ | discriminate].
    intros _. destruct (rmatch_sound _ _ _ _ _ E) as (st' & Hm & Hk).
    exists st'. split; [exact Hm | ]. destruct (rest st'); [reflexivity | discriminate].
  - intros (st' & Hm & Hr).
    destruct (rmatch ic r _ (MState None s [])) as [res | ] eqn:E; [reflexivity | ].
    pose proof (rmatch_none _ _ _ _ E _ Hm) as Hn. cbv beta in Hn.
    rewrite Hr in Hn. discriminate.
Qed.

Lemma matches_at_shift r pv u pre suf st' :
  matches_at ic r (prev_after pv u) pre suf st' ->
  matches_at ic r pv (u ++ pre) suf st'.
Proof. unfold matches_at. rewrite prev_after_app. auto. Qed.

Lemma match_of_shift r pv u s m :
  match_of ic r (prev_after pv u) s m -> match_of ic r pv (u ++ s) m.
Proof.
  intros (pre & suf & -> & Hm & Hsp & Hc).
  exists (u ++ pre), suf. rewrite app_assoc. split; [reflexivity | ].
  split; [apply matches_at_shift; exact Hm | ].
  rewrite prev_after_app. auto.
Qed.

Lemma search_at_match_of r s pv n m :
  search_at ic r pv s n = Some m -> match_of ic r pv s m.
Proof.
  intros E.
  destruct (search_at_some _ _ _ _ _ E) as (pre & suf & Hs & _ & Hm & Ht & Hc & _).
  exists pre, suf. repeat split; auto.
  - destruct (matches_spans _ _ _ _ Hm) as [w Hw].
    rewrite Ht, (spans_consumed _ _ _ Hw). apply Hw.
  - destruct (matches_spans _ _ _ _ Hm) as [w Hw].
    rewrite Ht, (spans_consumed _ _ _ Hw). apply Hw.
Qed.

(** Every match that [re.finditer] yields is a match of the pattern at
    some split of the scanned text. *)
Lemma finditer_from_sound r : forall fuel pv s off m,
  In m (finditer_from fuel ic r pv s off) -> match_of ic r pv s m.
Proof.
  induction fuel as [ | fuel IH]; intros pv s off m Hin; simpl in Hin; [contradiction | ].
  destruct (search_at ic r pv s off) as [m0 | ] eqn:E; [ | contradiction].
  pose proof (search_at_match_of _ _ _ _ _ E) as H0.
  destruct H0 as (pre & suf & Hs & Hm & Hsp & Hc).
  assert (Hself : match_of ic r pv s m0) by (exists pre, suf; auto).
  destruct Hsp as [Hrest Hprev]. simpl in Hrest, Hprev.
  destruct (m_text m0) as [ | c0 w0] eqn:Et.
  - destruct (rest (m_end m0)) as [ | c t] eqn:Er.
    + destruct Hin as [<- | []]. exact Hself.
    + destruct Hin as [<- | Hin]; [exact Hself | ].
      apply IH in Hin.
      replace s with ((pre ++ [c]) ++ t)
        by (rewrite Hs, Hrest; simpl; rewrite <- app_assoc; reflexivity).
      apply match_of_shift. rewrite prev_after_snoc. exact Hin.
  - destruct Hin as [<- | Hin]; [exact Hself | ].
    apply IH in Hin.
    replace s with ((pre ++ c0 :: w0) ++ rest (m_end m0))
      by (rewrite Hs, Hrest, <- app_assoc; reflexivity).
    apply match_of_shift. rewrite prev_after_app, <- Hprev. exact Hin.
Qed.

Lemma finditer_sound r s m :
  In m (finditer ic r s) -> match_of ic r None s m.
Proof. apply finditer_from_sound. Qed.

(** No match anywhere: [re.finditer] yields nothing. *)
Lemma finditer_nil r s :
  search ic r s = false -> finditer ic r s = [].
Proof.
  unfold search, search_obj, finditer. simpl.
  destruct (search_at ic r None s 0); [discriminate | reflexivity].
Qed.

End SearchFacts.

(** * The syntax validator: what each check may append *)

Section ValidatorGrowth.
Import Py Re SyntaxValidator SyntaxSpec.
Open Scope string_scope.
Open Scope nat_scope.
Open Scope list_scope.

Lemma grows_refl P Q v : grows P Q v v.
Proof.
  split; [reflexivity | ]. exists [], []. rewrite !app_nil_r. auto.
Qed.

Lemma grows_trans P Q v1 v2 v3 :
  grows P Q v1 v2 -> grows P Q v2 v3 -> grows P Q v1 v3.
Proof.
  intros (Hq1 & es1 & ws1 & He1 & Hw1 & HP1 & HQ1)
         (Hq2 & es2 & ws2 & He2 & Hw2 & HP2 & HQ2).
  split; [congruence | ]. exists (es1 ++ es2), (ws1 ++ ws2).
  rewrite He2, He1, Hw2, Hw1, <- !app_assoc.
  repeat split; auto; apply Forall_app; auto.
Qed.

Lemma grows_weaken (P P' Q Q' : Finding -> Prop) v v' :
  (forall f, P f -> P' f) -> (forall f, Q f -> Q' f) ->
  grows P Q v v' -> grows P' Q' v v'.
Proof.
  intros HP HQ (Hq & es & ws & He & Hw & H1 & H2).
  split; [exact Hq | ]. exists es, ws. repeat split; auto.
  - eapply Forall_impl; eauto.
  - eapply Forall_impl; eauto.
Qed.

Lemma grows_add_error (P Q : Finding -> Prop) f v :
  P f -> grows P Q v (add_error f v).
Proof.
  intros HP. split; [reflexivity | ]. exists [f], []. simpl.
  rewrite app_nil_r. auto.
Qed.

Lemma grows_add_warning (P Q : Finding -> Prop) f v :
  Q f -> grows P Q v (add_warning f v).
Proof.
  intros HQ. split; [reflexivity | ]. exists [], [f]. simpl.
  rewrite app_nil_r. auto.
Qed.

Lemma grows_for_each {A} P Q (body : A -> validator -> validator) xs :
  (forall x v, grows P Q v (body x v)) ->
  forall v, grows P Q v (for_each body xs v).
Proof.
  intros Hb. unfold for_each.
  induction xs as [ | x xs IH]; intros v; simpl; [apply grows_refl | ].
  eapply grows_trans; [apply Hb | apply IH].
Qed.

Lemma error_of_intro types t msg :
  In t types -> error_of types (finding t msg error).
Proof. intros H. split; [reflexivity | exact H]. Qed.

Lemma error_of_at types t msg i :
  In t types -> error_of types (finding_at t msg i).
Proof. intros H. split; [reflexivity | exact H]. Qed.

Lemma error_of_mono ts ts' f :
  incl ts ts' -> error_of ts f -> error_of ts' f.
Proof. intros Hi [Hs Ht]. split; auto. Qed.

Lemma note_of_mono ts ts' f :
  incl ts ts' -> note_of ts f -> note_of ts' f.
Proof. intros Hi [Hs Ht]. split; auto. Qed.

(** One step of a check: an error or a warning of a listed type is
    appended, or nothing is. *)
Ltac grow_step :=
  match goal with
  | |- grows _ _ ?v ?v => apply grows_refl
  | |- grows _ _ _ (add_error _ _) =>
      apply grows_add_error; split; [reflexivity | simpl; tauto]
  | |- grows _ _ _ (add_warning _ _) =>
      apply grows_add_warning; split; [simpl; tauto | simpl; tauto]
  | |- grows _ _ ?v (add_error _ ?w) => apply (grows_trans _ _ v w)
  | |- grows _ _ ?v (add_warning _ ?w) => apply (grows_trans _ _ v w)
  | |- grows _ _ _ (if ?b then _ else _) => destruct b
  | |- grows _ _ _ (let (_, _) := ?p in _) => destruct p
  end.

Ltac grow := repeat grow_step.

Lemma scan_char_grows i c s v :
  grows (error_of delimiter_types) (fun _ => False) v (snd (scan_char i c (s, v))).
Proof.
  unfold scan_char, unmatched.
  repeat match goal with
  | |- context [if ?b then _ else _] => destruct b; simpl
  end; grow.
Qed.

Lemma scan_from_grows cs : forall i s v,
  grows (error_of delimiter_types) (fun _ => False) v (snd (scan_from i cs (s, v))).
Proof.
  induction cs as [ | c cs IH]; intros i s v; [apply grows_refl | ].
  change (scan_from i (c :: cs) (s, v))
    with (scan_from (S i) cs (scan_char i c (s, v))).
  destruct (scan_char i c (s, v)) as [s1 v1] eqn:E.
  eapply grows_trans; [ | apply IH].
  replace v1 with (snd (scan_char i c (s, v))) by (rewrite E; reflexivity).
  apply scan_char_grows.
Qed.

Lemma check_balanced_delimiters_grows v :
  grows (error_of delimiter_types) (fun _ => False) v (check_balanced_delimiters v).
Proof.
  unfold check_balanced_delimiters.
  destruct (scan_from 0 (query v) (scan0, v)) as [s v1] eqn:E.
  assert (H1 : grows (error_of delimiter_types) (fun _ => False) v v1).
  { replace v1 with (snd (scan_from 0 (query v) (scan0, v))) by (rewrite E; reflexivity).
    apply scan_from_grows. }
  eapply grows_trans; [exact H1 | ].
  unfold unclosed.
  repeat match goal with
  | |- context [if ?b then _ else _] => destruct b
  end;
  repeat (first [ apply grows_refl
                | eapply grows_trans;
                  [ | apply grows_add_error; split; [reflexivity | simpl; tauto] ] ]).
Qed.

Lemma utf8_one_grows name v :
  grows (error_of later_error_types) (note_of warning_types) v (utf8_one name v).
Proof. unfold utf8_one. grow. Qed.

Lemma wrong_utf8_one_grows name v :
  grows (error_of later_error_types) (note_of warning_types) v (wrong_utf8_one name v).
Proof. unfold wrong_utf8_one. grow. Qed.

Lemma check_utf8_metric_syntax_grows v :
  grows (error_of later_error_types) (note_of warning_types) v
    (check_utf8_metric_syntax v).
Proof.
  unfold check_utf8_metric_syntax.
  match goal with
  | |- grows _ _ _ (for_each _ _ ?w) => apply (grows_trans _ _ _ w)
  end.
  - apply grows_for_each. apply utf8_one_grows.
  - apply grows_for_each. apply wrong_utf8_one_grows.
Qed.

Lemma check_metric_selectors_grows v :
  grows (error_of later_error_types) (note_of warning_types) v
    (check_metric_selectors v).
Proof.
  unfold check_metric_selectors.
  destruct (search false empty_matcher _).
  - eapply grows_trans; [ | apply check_utf8_metric_syntax_grows]. grow.
  - apply check_utf8_metric_syntax_grows.
Qed.

Lemma time_range_one_grows r v :
  grows (error_of later_error_types) (note_of warning_types) v (time_range_one r v).
Proof. unfold time_range_one. cbv zeta. grow. Qed.

Lemma check_time_ranges_grows v :
  grows (error_of later_error_types) (note_of warning_types) v (check_time_ranges v).
Proof. apply grows_for_each. apply time_range_one_grows. Qed.

Lemma function_one_grows order func v :
  grows (error_of later_error_types) (note_of warning_types) v
    (function_one order func v).
Proof. unfold function_one. grow. Qed.

Lemma check_function_syntax_grows order v :
  grows (error_of later_error_types) (note_of warning_types) v
    (check_function_syntax order v).
Proof. apply grows_for_each. apply function_one_grows. Qed.

Lemma check_operators_grows v :
  grows (error_of later_error_types) (note_of warning_types) v (check_operators v).
Proof. unfold check_operators. grow. Qed.

Lemma check_common_typos_grows v :
  grows (error_of later_error_types) (note_of warning_types) v (check_common_typos v).
Proof. unfold check_common_typos. cbv zeta. grow. Qed.

Lemma later_checks_grows order v :
  grows (error_of later_error_types) (note_of warning_types) v (later_checks order v).
Proof.
  unfold later_checks.
  eapply grows_trans; [apply check_metric_selectors_grows | ].
  eapply grows_trans; [apply check_time_ranges_grows | ].
  eapply grows_trans; [apply check_function_syntax_grows | ].
  eapply grows_trans; [apply check_operators_grows | ].
  apply check_common_typos_grows.
Qed.

Lemma validate_on_unfold order v :
  validate_on order v =
  if is_empty (query v)
  then add_error (finding "empty_query" (lit "Query is empty") error) v
  else later_checks order (check_balanced_delimiters v).
Proof. reflexivity. Qed.

End ValidatorGrowth.

(** * The report of the syntax validator *)

Section ValidatorReport.
Import Py Re SyntaxValidator SyntaxSpec.
Open Scope string_scope.
Open Scope nat_scope.
Open Scope list_scope.

Lemma validate_on_grows order v :
  grows (fun f => severity f = error)
        (fun f => severity f = warning \/ severity f = info)
        v (validate_on order v).
Proof.
  rewrite validate_on_unfold. destruct (is_empty (query v)).
  - apply grows_add_error. reflexivity.
  - eapply grows_trans.
    + eapply grows_weaken; [ | | apply check_balanced_delimiters_grows].
      * intros f [H _]. exact H.
      * intros f [].
    + eapply grows_weaken; [ | | apply later_checks_grows].
      * intros f [H _]. exact H.
      * intros f [H _]. exact H.
Qed.

Lemma validate_findings order q :
  Forall (fun f => severity f = error) (report_errors (validate order q)) /\
  Forall (fun f => severity f = warning \/ severity f = info)
         (report_warnings (validate order q)).
Proof.
  unfold validate, build_result. simpl.
  destruct (validate_on_grows order (init q)) as (_ & es & ws & He & Hw & HP & HQ).
  rewrite He, Hw. simpl. auto.
Qed.

(** C7. When the input is empty after its surrounding white space is
    removed, [validate] returns a report whose only finding is the error
    [empty_query]: the errors hold it alone, there is no warning, [valid]
    is false and the status is [ERROR]; no other check has run. *)
Theorem C7_empty_query_only : forall (order : list str) (q : str),
  strip q = [] ->
  validate order q =
    mkReport "ERROR" []
      [mkFinding "empty_query" (lit "Query is empty") error None None None]
      [] false.
Proof.
  intros order q H. unfold validate, init. rewrite H. reflexivity.
Qed.

Lemma C7_empty_query_only_witness :
  strip (lit "   ") = [] /\
  validate FUNCTIONS (lit "   ") =
    mkReport "ERROR" []
      [mkFinding "empty_query" (lit "Query is empty") error None None None]
      [] false.
Proof.
  split; [reflexivity | ].
  apply (C7_empty_query_only FUNCTIONS (lit "   ")). reflexivity.
Defined.

(** C10. In the report of [validate], [valid] is true exactly when the
    list of errors is empty; the status is [ERROR] when there are errors,
    else [WARNING] when there are warnings, else [VALID]; every error has
    severity [error], so a finding of severity [info] is in the list of
    warnings; and the query [{"up"}], whose only finding is the note
    [utf8_metric_unnecessary_quoting] of severity [info], gets the status
    [WARNING] while [valid] is true. *)
Theorem C10_report_invariant : forall (order : list str) (q : str),
  (valid (validate order q) = true <-> report_errors (validate order q) = []) /\
  status (validate order q) = expected_status (validate order q) /\
  (forall f, In f (report_errors (validate order q)) -> severity f = error) /\
  (forall f, In f (report_warnings (validate order q)) ->
             severity f = warning \/ severity f = info) /\
  (forall f, In f (report_errors (validate order q) ++ report_warnings (validate order q)) ->
             severity f = info -> In f (report_warnings (validate order q))) /\
  (report_errors (validate order (lit "{`up`}")) = [] /\
   map (fun f => (ftype f, severity f)) (report_warnings (validate order (lit "{`up`}")))
     = [("utf8_metric_unnecessary_quoting", info)] /\
   status (validate order (lit "{`up`}")) = "WARNING" /\
   valid (validate order (lit "{`up`}")) = true).
Proof.
  intros order q.
  destruct (validate_findings order q) as [He Hw].
  rewrite Forall_forall in He, Hw.
  split; [ | split; [ | split; [exact He | split; [exact Hw | split]]]].
  - unfold validate, build_result. simpl.
    destruct (errors (validate_on order (init q))); simpl; split; congruence.
  - unfold validate, build_result, expected_status. simpl.
    destruct (errors (validate_on order (init q)));
      destruct (warnings (validate_on order (init q))); reflexivity.
  - intros f Hin Hinfo. apply in_app_or in Hin. destruct Hin as [Hin | Hin]; [ | exact Hin].
    apply He in Hin. congruence.
  - vm_compute. auto.
Qed.

End ValidatorReport.

(** * The best-practices checker: what each check may append *)

Section CheckerGrowth.
Import Py Re BestPractices BestSpec.
Open Scope string_scope.
Open Scope nat_scope.
Open Scope list_scope.

Lemma cgrows_refl c : grows c c.
Proof.
  split; [reflexivity | ]. exists [], [], []. rewrite !app_nil_r. auto 10.
Qed.

Lemma cgrows_trans c1 c2 c3 : grows c1 c2 -> grows c2 c3 -> grows c1 c3.
Proof.
  intros (Hq1 & i1 & s1 & o1 & Hi1 & Hs1 & Ho1 & Pi1 & Ps1 & Po1)
         (Hq2 & i2 & s2 & o2 & Hi2 & Hs2 & Ho2 & Pi2 & Ps2 & Po2).
  split; [congruence | ]. exists (i1 ++ i2), (s1 ++ s2), (o1 ++ o2).
  rewrite Hi2, Hi1, Hs2, Hs1, Ho2, Ho1, <- !app_assoc.
  repeat split; auto; apply Forall_app; auto.
Qed.

Lemma cgrows_add_issue f c :
  severity f = warning \/ severity f = error -> grows c (add_issue f c).
Proof.
  intros H. split; [reflexivity | ]. exists [f], [], []. simpl.
  rewrite !app_nil_r. auto 10.
Qed.

Lemma cgrows_add_suggestion f c :
  severity f = info -> grows c (add_suggestion f c).
Proof.
  intros H. split; [reflexivity | ]. exists [], [f], []. simpl.
  rewrite !app_nil_r. auto 10.
Qed.

Lemma cgrows_add_optimization f c :
  severity f = info -> grows c (add_optimization f c).
Proof.
  intros H. split; [reflexivity | ]. exists [], [], [f]. simpl.
  rewrite !app_nil_r. auto 10.
Qed.

Lemma cgrows_for_each {A} (body : A -> checker -> checker) xs :
  (forall x c, grows c (body x c)) ->
  forall c, grows c (for_each body xs c).
Proof.
  intros Hb. unfold for_each.
  induction xs as [ | x xs IH]; intros c; simpl; [apply cgrows_refl | ].
  eapply cgrows_trans; [apply Hb | apply IH].
Qed.

Lemma cgrows_for_each_raising {A} (body : A -> checker -> outcome checker) xs :
  (forall x c c', body x c = Returned c' -> grows c c') ->
  forall c c', for_each_raising body xs c = Returned c' -> grows c c'.
Proof.
  intros Hb. induction xs as [ | x xs IH]; intros c c' H; simpl in H.
  - inversion H. apply cgrows_refl.
  - destruct (body x c) as [c1 | e] eqn:E; simpl in H; [ | discriminate].
    eapply cgrows_trans; [eapply Hb; eauto | eauto].
Qed.

(** One step of a check: a finding of the right severity is appended to
    one of the three lists, or nothing is. *)
Ltac cgrow_step :=
  match goal with
  | |- grows ?c ?c => apply cgrows_refl
  | |- grows ?c (add_issue _ ?c) => apply cgrows_add_issue; simpl; tauto
  | |- grows ?c (add_suggestion _ ?c) => apply cgrows_add_suggestion; reflexivity
  | |- grows ?c (add_optimization _ ?c) => apply cgrows_add_optimization; reflexivity
  | |- grows ?c (add_issue _ ?w) => apply (cgrows_trans c w)
  | |- grows ?c (add_suggestion _ ?w) => apply (cgrows_trans c w)
  | |- grows ?c (add_optimization _ ?w) => apply (cgrows_trans c w)
  | |- grows _ (if ?b then _ else _) => destruct b
  | |- grows _ (let (_, _) := ?p in _) => destruct p
  | |- grows ?c (for_each _ _ ?c) => apply cgrows_for_each; intros
  | |- grows ?c (for_each _ _ ?w) => apply (cgrows_trans c w)
  end.

Ltac cgrow := cbv zeta; repeat cgrow_step.

Lemma high_cardinality_one_grows m c : grows c (high_cardinality_one m c).
Proof. unfold high_cardinality_one. cgrow. Qed.

Lemma check_high_cardinality_grows c : grows c (check_high_cardinality c).
Proof.
  unfold check_high_cardinality. cgrow; apply high_cardinality_one_grows.
Qed.

Lemma check_regex_overuse_grows c : grows c (check_regex_overuse c).
Proof. unfold check_regex_overuse. cgrow. unfold regex_overuse_one. cgrow. Qed.

Lemma check_missing_rate_on_counters_grows c :
  grows c (check_missing_rate_on_counters c).
Proof.
  unfold check_missing_rate_on_counters. cgrow. unfold missing_rate_one. cgrow.
Qed.

Lemma check_rate_on_gauges_grows c : grows c (check_rate_on_gauges c).
Proof. unfold check_rate_on_gauges. cgrow. unfold rate_on_gauge_one. cgrow. Qed.

Lemma check_averaging_quantiles_grows c : grows c (check_averaging_quantiles c).
Proof. unfold check_averaging_quantiles. cgrow. Qed.

(** A step of a loop that may raise. *)
Ltac raising_step :=
  intros;
  repeat match goal with
  | p : (_ * _)%type |- _ => destruct p
  end;
  match goal with
  | H : bind ?m _ = Returned _ |- _ =>
      destruct m; simpl in H; [ | discriminate]
  end;
  match goal with
  | H : (if ?b then _ else _) = Returned _ |- _ =>
      destruct b; inversion H; subst; cgrow
  end.

Lemma check_subquery_performance_grows c c' :
  check_subquery_performance c = Returned c' -> grows c c'.
Proof.
  unfold check_subquery_performance. apply cgrows_for_each_raising.
  unfold subquery_one. raising_step.
Qed.

Lemma check_irate_range_grows c c' :
  check_irate_range c = Returned c' -> grows c c'.
Proof.
  unfold check_irate_range. apply cgrows_for_each_raising.
  unfold irate_one. raising_step.
Qed.

Lemma check_rate_range_grows c c' :
  check_rate_range c = Returned c' -> grows c c'.
Proof.
  unfold check_rate_range. apply cgrows_for_each_raising.
  unfold rate_one. raising_step.
Qed.

Lemma check_predict_linear_range_grows c c' :
  check_predict_linear_range c = Returned c' -> grows c c'.
Proof.
  unfold check_predict_linear_range. apply cgrows_for_each_raising.
  unfold predict_one. raising_step.
Qed.

Lemma check_unbounded_queries_grows c : grows c (check_unbounded_queries c).
Proof. unfold check_unbounded_queries. cgrow. unfold unbounded_one. cgrow. Qed.

Lemma check_aggregation_best_practices_grows c :
  grows c (check_aggregation_best_practices c).
Proof. unfold check_aggregation_best_practices. cgrow. Qed.

Lemma check_recording_rule_opportunity_grows c :
  grows c (check_recording_rule_opportunity c).
Proof. unfold check_recording_rule_opportunity. cgrow. Qed.

Lemma check_label_matcher_efficiency_grows c :
  grows c (check_label_matcher_efficiency c).
Proof. unfold check_label_matcher_efficiency. cgrow. Qed.

Lemma check_histogram_usage_grows c : grows c (check_histogram_usage c).
Proof. unfold check_histogram_usage. cgrow. Qed.

Lemma check_deprecated_functions_grows c : grows c (check_deprecated_functions c).
Proof. unfold check_deprecated_functions. cgrow. Qed.

Lemma check_division_by_zero_risk_grows c : grows c (check_division_by_zero_risk c).
Proof. unfold check_division_by_zero_risk. cgrow. Qed.

Lemma check_changes_resets_alerting_grows c :
  grows c (check_changes_resets_alerting c).
Proof. unfold check_changes_resets_alerting. cgrow. Qed.

Lemma check_dimensional_metric_names_grows c :
  grows c (check_dimensional_metric_names c).
Proof. unfold check_dimensional_metric_names. cgrow. Qed.

Lemma check_absent_with_aggregation_grows c :
  grows c (check_absent_with_aggregation c).
Proof. unfold check_absent_with_aggregation. cgrow. Qed.

Lemma check_vector_matching_grows c : grows c (check_vector_matching c).
Proof. unfold check_vector_matching. cgrow. Qed.

Lemma check_native_histogram_usage_grows c :
  grows c (check_native_histogram_usage c).
Proof.
  unfold check_native_histogram_usage. cgrow; unfold native_hist_one; cgrow.
Qed.

Lemma check_mixed_metric_types_grows c : grows c (check_mixed_metric_types c).
Proof. unfold check_mixed_metric_types. cgrow. Qed.

End CheckerGrowth.

(** * The report of the best-practices checker *)

Section CheckerReport.
Import Py Re BestPractices BestSpec.
Open Scope string_scope.
Open Scope nat_scope.
Open Scope list_scope.

Lemma first_checks_grows c : grows c (first_checks c).
Proof.
  unfold first_checks.
  eapply cgrows_trans; [apply check_high_cardinality_grows | ].
  eapply cgrows_trans; [apply check_regex_overuse_grows | ].
  eapply cgrows_trans; [apply check_missing_rate_on_counters_grows | ].
  eapply cgrows_trans; [apply check_rate_on_gauges_grows | ].
  apply check_averaging_quantiles_grows.
Qed.

Lemma bind_returned {A B} (m : outcome A) (f : A -> outcome B) b :
  bind m f = Returned b -> exists a, m = Returned a /\ f a = Returned b.
Proof.
  destruct m as [a | e]; [ | discriminate]. intros H. exists a. auto.
Qed.

(** When [check] returns, the instance has only grown since the first
    five checks. *)
Lemma run_checks_after_first c c' :
  run_checks c = Returned c' -> grows (first_checks c) c'.
Proof.
  unfold run_checks. cbv zeta. fold (first_checks c).
  generalize (first_checks c) as c0. intros c0 H.
  apply bind_returned in H. destruct H as (c1 & E1 & H).
  apply bind_returned in H. destruct H as (c2 & E2 & H).
  apply bind_returned in H. destruct H as (c3 & E3 & H).
  apply bind_returned in H. destruct H as (c4 & E4 & H).
  inversion H; subst c'; clear H.
  eapply cgrows_trans; [eapply check_subquery_performance_grows; eauto | ].
  eapply cgrows_trans; [eapply check_irate_range_grows; eauto | ].
  eapply cgrows_trans; [eapply check_rate_range_grows; eauto | ].
  eapply cgrows_trans;
    [ | eapply cgrows_trans; [eapply check_predict_linear_range_grows; exact E4 | ] ].
  - eapply cgrows_trans; [apply check_unbounded_queries_grows | ].
    eapply cgrows_trans; [apply check_aggregation_best_practices_grows | ].
    eapply cgrows_trans; [apply check_recording_rule_opportunity_grows | ].
    eapply cgrows_trans; [apply check_label_matcher_efficiency_grows | ].
    eapply cgrows_trans; [apply check_histogram_usage_grows | ].
    apply check_deprecated_functions_grows.
  - eapply cgrows_trans; [apply check_division_by_zero_risk_grows | ].
    eapply cgrows_trans; [apply check_changes_resets_alerting_grows | ].
    eapply cgrows_trans; [apply check_dimensional_metric_names_grows | ].
    eapply cgrows_trans; [apply check_absent_with_aggregation_grows | ].
    eapply cgrows_trans; [apply check_vector_matching_grows | ].
    eapply cgrows_trans; [apply check_native_histogram_usage_grows | ].
    apply check_mixed_metric_types_grows.
Qed.

Lemma check_on_grows c c' : check_on c = Returned c' -> grows c c'.
Proof.
  unfold check_on. destruct (is_empty (query c)).
  - intros H. inversion H. apply cgrows_refl.
  - intros H. eapply cgrows_trans; [apply first_checks_grows | ].
    apply run_checks_after_first. exact H.
Qed.

Lemma check_inv q r :
  check q = Returned r ->
  exists c, check_on (init q) = Returned c /\ r = build_result c /\ grows (init q) c.
Proof.
  unfold check. intros H. apply bind_returned in H. destruct H as (c & E & H).
  inversion H. exists c. split; [exact E | ]. split; [reflexivity | ].
  apply check_on_grows. exact E.
Qed.

Lemma existsb_info_nonempty l :
  Forall (fun f => severity f = info) l ->
  existsb (has_severity info) l = negb (is_empty l).
Proof.
  intros H. destruct l as [ | f l]; [reflexivity | ].
  inversion H as [ | ? ? Hf _]; subst. simpl. unfold has_severity. rewrite Hf. reflexivity.
Qed.

End CheckerReport.

(** * The structure check of the Azure Pipelines validator *)

Section AzureStructure.
Import stdpp.base stdpp.option stdpp.fin_maps stdpp.gmap stdpp.strings.
Import AzurePipelines.
Open Scope string_scope.
Open Scope list_scope.

Lemma has_key_true key v : is_Some (config v !! key) -> has_key key v = true.
Proof. intros H. unfold has_key. apply bool_decide_eq_true. exact H. Qed.

Lemma has_key_false key v : config v !! key = None -> has_key key v = false.
Proof.
  intros H. unfold has_key. apply bool_decide_eq_false. rewrite H.
  intros [x Hx]. discriminate.
Qed.

(** C9, as stated, fails: the document above has both [stages] and [jobs]
    at its root, and the structure check appends no error at all, because
    it returns at once for a document with [extends]. *)
Lemma C9_extends_skips_hierarchy :
  is_Some (config template_with_stages_and_jobs !! "stages") /\
  is_Some (config template_with_stages_and_jobs !! "jobs") /\
  ~ (exists e, In e (errors (validate_structure template_with_stages_and_jobs)) /\
               rule e = "invalid-hierarchy").
Proof.
  split; [ | split].
  - vm_compute. eauto.
  - vm_compute. eauto.
  - assert (E : validate_structure template_with_stages_and_jobs
                = template_with_stages_and_jobs).
    { unfold validate_structure.
      rewrite (has_key_true "extends"); [reflexivity | vm_compute; eauto]. }
    rewrite E. simpl. intros (e & [] & _).
Qed.

(** C9, amended. For a document without [extends] at its root: if the
    root has [steps] and neither [stages] nor [jobs], the structure check
    appends no error (so none of rule [missing-pipeline-content] or
    [invalid-hierarchy]); if the root has both [stages] and [jobs], it
    appends an error of rule [invalid-hierarchy] for the pair, at the line
    of [jobs]. *)
Theorem C9_structure_validation : forall v : validator,
  config v !! "extends" = None ->
  (is_Some (config v !! "steps") /\ config v !! "stages" = None /\
   config v !! "jobs" = None ->
   validate_structure v = v) /\
  (is_Some (config v !! "stages") /\ is_Some (config v !! "jobs") ->
   exists more,
     errors (validate_structure v) =
     errors v ++
     mkError "error" (get_line "jobs" v)
       "Cannot define both stages and jobs at root level" "invalid-hierarchy"
     :: more).
Proof.
  intros v Hext. apply has_key_false in Hext. split.
  - intros (Hsteps & Hstages & Hjobs).
    apply has_key_true in Hsteps. apply has_key_false in Hstages, Hjobs.
    unfold validate_structure. rewrite Hext, Hsteps, Hstages, Hjobs. reflexivity.
  - intros (Hstages & Hjobs).
    apply has_key_true in Hstages, Hjobs.
    unfold validate_structure. rewrite Hext, Hstages, Hjobs. simpl.
    destruct (has_key "steps" v); simpl.
    + rewrite <- !app_assoc. simpl. eauto.
    + eauto.
Qed.

Lemma C9_structure_validation_witness :
  validate_structure steps_only = steps_only /\
  exists more,
    errors (validate_structure stages_and_jobs) =
    errors stages_and_jobs ++
    mkError "error" (get_line "jobs" stages_and_jobs)
      "Cannot define both stages and jobs at root level" "invalid-hierarchy"
    :: more.
Proof.
  split.
  - apply (C9_structure_validation steps_only); [reflexivity | ].
    split; [vm_compute; eauto | split; reflexivity].
  - apply (C9_structure_validation stages_and_jobs); [reflexivity | ].
    split; vm_compute; eauto.
Defined.

End AzureStructure.

(** * Two runs of the syntax validator *)

Section SetOrder.
Import Py Re SyntaxValidator SyntaxSpec.
Open Scope string_scope.
Open Scope nat_scope.
Open Scope list_scope.

(** The order of enumeration of [FUNCTIONS] reaches the report only
    through the suggestions of [_find_close_matches]. *)
Lemma function_one_order order1 order2 func v :
  find_close_matches (lower func) order1 = find_close_matches (lower func) order2 ->
  function_one order1 func v = function_one order2 func v.
Proof. intros H. unfold function_one. cbv zeta. rewrite H. reflexivity. Qed.

Lemma for_each_ext {A} (f g : A -> validator -> validator) xs :
  (forall x, In x xs -> forall v, f x v = g x v) ->
  forall v, for_each f xs v = for_each g xs v.
Proof.
  unfold for_each. induction xs as [ | x xs IH]; intros H v; [reflexivity | ].
  simpl. rewrite (H x (or_introl eq_refl)). apply IH.
  intros y Hy. apply H. right. exact Hy.
Qed.

Lemma validate_order order1 order2 q :
  (forall func, In func (findall1 true func_pattern (strip q)) ->
     find_close_matches (lower func) order1 = find_close_matches (lower func) order2) ->
  validate order1 q = validate order2 q.
Proof.
  intros H. unfold validate. f_equal. rewrite !validate_on_unfold.
  destruct (is_empty (query (init q))); [reflexivity | ].
  unfold later_checks. do 2 f_equal. unfold check_function_syntax.
  set (v3 := check_time_ranges _).
  assert (Hq : query v3 = strip q).
  { unfold v3.
    destruct (check_time_ranges_grows
                (check_metric_selectors (check_balanced_delimiters (init q)))) as [E1 _].
    destruct (check_metric_selectors_grows (check_balanced_delimiters (init q))) as [E2 _].
    destruct (check_balanced_delimiters_grows (init q)) as [E3 _].
    rewrite E1, E2, E3. reflexivity. }
  rewrite Hq. apply for_each_ext. intros func Hin v.
  apply function_one_order. apply H. exact Hin.
Qed.

(** C8. The report of [validate] is not a function of the query alone:
    for the query [sun(x)], two enumerations of the same set [FUNCTIONS]
    give two different lists of suggestions, so two runs of the validator
    in two interpreter processes (whose string hashes differ) can return
    different reports. Where no close match is cut off or reordered, the
    enumeration does not matter ([validate_order]). *)
Theorem C8_report_depends_on_set_order :
  Permutation FUNCTIONS (rev FUNCTIONS) /\
  map message (report_errors (validate FUNCTIONS (lit "sun(x)"))) =
    [lit "Unknown function: sun. Did you mean: sum, min, ln?"] /\
  map message (report_errors (validate (rev FUNCTIONS) (lit "sun(x)"))) =
    [lit "Unknown function: sun. Did you mean: sgn, sinh, asin?"] /\
  validate FUNCTIONS (lit "sun(x)") <> validate (rev FUNCTIONS) (lit "sun(x)").
Proof.
  split; [apply Permutation_rev | ].
  split; [vm_compute; reflexivity | ].
  split; [vm_compute; reflexivity | ].
  intros H. apply (f_equal (fun r => map message (report_errors r))) in H.
  vm_compute in H. discriminate.
Qed.

End SetOrder.

(** * The words of a pattern *)

Section Words.
Import Py Re ReSem.

Variable ic : bool.

Lemma spans_after st w t cs :
  rest st = w ++ t -> spans st w (after st w cs) /\ rest (after st w cs) = t.
Proof.
  intros E. unfold spans, after. simpl. rewrite E.
  rewrite skipn_app, skipn_all, Nat.sub_diag. simpl. auto.
Qed.

Lemma spans_eq st w st' :
  spans st w st' -> st' = after st w (caps st').
Proof.
  intros [E P]. unfold after. rewrite E, skipn_app, skipn_all, Nat.sub_diag.
  simpl. rewrite <- P. destruct st'; reflexivity.
Qed.

Lemma spans_nil st st' : spans st [] st' -> caps st' = caps st -> st' = st.
Proof.
  intros [E P] C. simpl in E. cbv in P. destruct st, st'. simpl in *. congruence.
Qed.

Lemma step_rel_iff p st st' :
  step_rel p st st' <->
  exists c, p c = true /\ spans st [c] st' /\ caps st' = caps st.
Proof.
  split.
  - intros (c & t & E & Hp & ->). exists c. repeat split; auto.
  - intros (c & Hp & [E P] & C). exists c, (rest st'). repeat split; auto.
    destruct st'; simpl in *. cbv in P. congruence.
Qed.

(** Whatever a pattern matches is one of its words. *)
Lemma matches_lang r : forall st st',
  matches ic r st st' -> exists w, lang ic r w /\ spans st w st'.
Proof.
  induction r as [ | a | neg items | | r1 IH1 r2 IH2 | r1 IH1 r2 IH2
                 | r1 IH1 | n r1 IH1 | | r1 IH1 ]; simpl; intros st st' H.
  - subst. exists []. split; [reflexivity | apply spans_refl].
  - apply step_rel_iff in H. destruct H as (c & Hp & Hs & _). exists [c]. eauto.
  - apply step_rel_iff in H. destruct H as (c & Hp & Hs & _). exists [c]. eauto.
  - apply step_rel_iff in H. destruct H as (c & Hp & Hs & _). exists [c]. eauto.
  - destruct H as (mid & Ha & Hb).
    destruct (IH1 _ _ Ha) as (w1 & L1 & S1). destruct (IH2 _ _ Hb) as (w2 & L2 & S2).
    exists (w1 ++ w2). split; [exists w1, w2; auto | eapply spans_trans; eauto].
  - destruct H as [H | H].
    + destruct (IH1 _ _ H) as (w & L & S). eauto.
    + destruct (IH2 _ _ H) as (w & L & S). eauto.
  - induction H as [st | st st1 st2 H1 Hlt _ IH].
    + exists []. split; [exists []; auto | apply spans_refl].
    + destruct (IH1 _ _ H1) as (w1 & L1 & S1).
      destruct IH as (w2 & (ws & -> & Hws) & S2).
      exists (w1 ++ concat ws). split; [ | eapply spans_trans; eauto].
      exists (w1 :: ws). split; [reflexivity | ]. constructor; [ | exact Hws].
      split; [ | exact L1]. intros ->. destruct S1 as [E _]. simpl in E.
      rewrite E in Hlt. lia.
  - destruct H as (mid & Ha & ->). destruct (IH1 _ _ Ha) as (w & L & S).
    exists w. split; [exact L | exact S].
  - destruct H as [_ ->]. exists []. split; [reflexivity | apply spans_refl].
  - destruct H as [_ ->]. exists []. split; [reflexivity | apply spans_refl].
Qed.

(** A word of a pattern without assertions is matched wherever it
    stands. *)
Lemma lang_matches r : simple r = true ->
  forall w st t, lang ic r w -> rest st = w ++ t ->
    exists st', matches ic r st st' /\ spans st w st' /\ rest st' = t.
Proof.
  induction r as [ | a | neg items | | r1 IH1 r2 IH2 | r1 IH1 r2 IH2
                 | r1 IH1 | n r1 IH1 | | r1 IH1 ]; simpl; intros Hs w st t L E.
  - subst w. exists st. repeat split; auto.
  - destruct L as (c & -> & Hp). destruct (spans_after st [c] t (caps st) E) as [S R].
    exists (after st [c] (caps st)). repeat split; try apply S; auto.
    apply step_rel_iff. exists c. auto.
  - destruct L as (c & -> & Hp). destruct (spans_after st [c] t (caps st) E) as [S R].
    exists (after st [c] (caps st)). repeat split; try apply S; auto.
    apply step_rel_iff. exists c. auto.
  - destruct L as (c & -> & Hp). destruct (spans_after st [c] t (caps st) E) as [S R].
    exists (after st [c] (caps st)). repeat split; try apply S; auto.
    apply step_rel_iff. exists c. auto.
  - apply andb_prop in Hs. destruct Hs as [Hs1 Hs2].
    destruct L as (w1 & w2 & -> & L1 & L2).
    rewrite <- app_assoc in E.
    destruct (IH1 Hs1 _ _ _ L1 E) as (mid & M1 & S1 & R1).
    destruct (IH2 Hs2 _ _ _ L2 R1) as (st' & M2 & S2 & R2).
    exists st'. split; [exists mid; auto | ]. split; [eapply spans_trans; eauto | exact R2].
  - apply andb_prop in Hs. destruct Hs as [Hs1 Hs2]. destruct L as [L | L].
    + destruct (IH1 Hs1 _ _ _ L E) as (st' & M & S & R). exists st'. auto.
    + destruct (IH2 Hs2 _ _ _ L E) as (st' & M & S & R). exists st'. auto.
  - destruct L as (ws & -> & Hws). revert st E.
    induction Hws as [ | x ws [Hx Lx] _ IH]; intros st E.
    + exists st. simpl in E. repeat split; auto. constructor.
    + simpl in E. rewrite <- app_assoc in E.
      destruct (IH1 Hs _ _ _ Lx E) as (mid & M1 & S1 & R1).
      destruct (IH mid R1) as (st' & M2 & S2 & R2).
      exists st'. split; [ | split; [simpl; eapply spans_trans; eauto | exact R2]].
      econstructor; eauto. rewrite E, R1, !length_app.
      destruct x; [congruence | simpl; lia].
  - destruct (IH1 Hs _ _ _ L E) as (mid & M & S & R).
    exists (set_cap n st mid). split; [exists mid; auto | ].
    split; [ | exact R]. destruct S as [E1 P1]. split; simpl; auto.
  - discriminate.
  - discriminate.
Qed.

(** A pattern without groups leaves the groups as they are. *)
Lemma matches_plain_caps r : plain r = true ->
  forall st st', matches ic r st st' -> caps st' = caps st.
Proof.
  induction r as [ | a | neg items | | r1 IH1 r2 IH2 | r1 IH1 r2 IH2
                 | r1 IH1 | n r1 IH1 | | r1 IH1 ]; simpl; intros Hp st st' H;
    try discriminate.
  - subst. reflexivity.
  - apply step_rel_iff in H. destruct H as (c & _ & _ & C). exact C.
  - apply step_rel_iff in H. destruct H as (c & _ & _ & C). exact C.
  - apply step_rel_iff in H. destruct H as (c & _ & _ & C). exact C.
  - apply andb_prop in Hp. destruct Hp as [Hp1 Hp2]. destruct H as (mid & Ha & Hb).
    rewrite (IH2 Hp2 _ _ Hb). apply (IH1 Hp1 _ _ Ha).
  - apply andb_prop in Hp. destruct Hp as [Hp1 Hp2]. destruct H as [H | H]; auto.
  - induction H as [st | st st1 st2 H1 _ _ IH]; [reflexivity | ].
    rewrite IH. apply (IH1 Hp _ _ H1).
Qed.

Lemma plain_simple r : plain r = true -> simple r = true.
Proof.
  induction r; simpl; intros H; try reflexivity; try discriminate; auto.
  - apply andb_prop in H. destruct H. rewrite IHr1, IHr2; auto.
  - apply andb_prop in H. destruct H. rewrite IHr1, IHr2; auto.
Qed.

(** For a pattern without groups and assertions, to match is to read one
    of its words. *)
Lemma matches_plain r : plain r = true ->
  forall st st',
    matches ic r st st' <->
    exists w, lang ic r w /\ spans st w st' /\ caps st' = caps st.
Proof.
  intros Hp st st'. split.
  - intros H. destruct (matches_lang _ _ _ H) as (w & L & S).
    exists w. repeat split; try apply S; auto. eapply matches_plain_caps; eauto.
  - intros (w & L & S & C).
    destruct (lang_matches r (plain_simple _ Hp) w st (rest st') L (proj1 S))
      as (st1 & M & S1 & R1).
    replace st' with st1; [exact M | ].
    rewrite (spans_eq _ _ _ S), (spans_eq _ _ _ S1), C.
    rewrite (matches_plain_caps _ Hp _ _ M). reflexivity.
Qed.

(** A group around a pattern without groups records the word read. *)
Lemma matches_group n r : plain r = true ->
  forall st st',
    matches ic (Group n r) st st' <->
    exists w, lang ic r w /\ spans st w st' /\ caps st' = (n, w) :: caps st.
Proof.
  intros Hp st st'. simpl. split.
  - intros (mid & M & ->). apply (matches_plain r Hp) in M.
    destruct M as (w & L & S & C). exists w. split; [exact L | ].
    unfold set_cap. simpl. rewrite (spans_consumed _ _ _ S), C.
    destruct S as [E P]. repeat split; auto.
  - intros (w & L & S & C).
    exists (after st w (caps st)). split.
    + apply (matches_plain r Hp). exists w. split; [exact L | ].
      split; [ | reflexivity]. apply spans_after with (t := rest st'). apply S.
    + unfold set_cap. rewrite (spans_eq _ _ _ S), C.
      assert (S1 : spans st w (after st w (caps st)))
        by (apply spans_after with (t := rest st'); apply S).
      rewrite (spans_consumed _ _ _ S1). reflexivity.
Qed.

(** The words of the derived forms. *)
Lemma lang_Seqs rs : forall w,
  lang ic (Seqs rs) w <-> exists ws, w = concat ws /\ Forall2 (lang ic) rs ws.
Proof.
  induction rs as [ | r rs IH]; intros w.
  - simpl. split.
    + intros ->. exists []. split; [reflexivity | constructor].
    + intros (ws & -> & H). inversion H. reflexivity.
  - destruct rs as [ | r' rs'].
    + simpl. split.
      * intros L. exists [w]. simpl. rewrite app_nil_r. split; [reflexivity | ].
        constructor; [exact L | constructor].
      * intros (ws & -> & H). inversion H as [ | ? x ? l Hx Hl]; subst.
        inversion Hl; subst. simpl. rewrite app_nil_r. exact Hx.
    + change (lang ic (Seqs (r :: r' :: rs')) w)
        with (exists w1 w2, w = w1 ++ w2 /\ lang ic r w1 /\ lang ic (Seqs (r' :: rs')) w2).
      split.
      * intros (w1 & w2 & -> & L1 & L2). apply IH in L2.
        destruct L2 as (ws & -> & H). exists (w1 :: ws). split; [reflexivity | ].
        constructor; assumption.
      * intros (ws & -> & H). inversion H as [ | ? x ? l Hx Hl]; subst.
        exists x, (concat l). split; [reflexivity | ]. split; [exact Hx | ].
        apply IH. exists l. auto.
Qed.

Lemma lang_Alts rs : forall w,
  lang ic (Alts rs) w <-> exists r, In r rs /\ lang ic r w.
Proof.
  induction rs as [ | r rs IH]; intros w.
  - simpl. split.
    + intros (c & _ & H). discriminate.
    + intros (r & [] & _).
  - destruct rs as [ | r' rs'].
    + simpl. split.
      * intros L. exists r. auto.
      * intros (r0 & [<- | []] & L). exact L.
    + change (lang ic (Alts (r :: r' :: rs')) w)
        with (lang ic r w \/ lang ic (Alts (r' :: rs')) w).
      rewrite IH. split.
      * intros [L | (r0 & Hin & L)]; [exists r | exists r0]; simpl; auto.
      * intros (r0 & [<- | Hin] & L); [left; exact L | right; exists r0; auto].
Qed.

Lemma lang_Opt r w : lang ic (Opt r) w <-> lang ic r w \/ w = [].
Proof. reflexivity. Qed.

Lemma lang_star_cls neg items w :
  lang ic (Star (Cls neg items)) w <->
  forallb (cls_match ic neg items) w = true.
Proof.
  simpl. split.
  - intros (ws & -> & H). induction H as [ | x ws [_ (c & -> & Hc)] _ IH]; [reflexivity | ].
    simpl. rewrite Hc. exact IH.
  - intros H. exists (map (fun c => [c]) w). split.
    + induction w as [ | c w IH]; [reflexivity | ]. simpl in *.
      apply andb_prop in H. destruct H as [_ H]. rewrite <- (IH H). reflexivity.
    + induction w as [ | c w IH]; [constructor | ]. simpl in *.
      apply andb_prop in H. destruct H as [Hc H]. constructor; [ | exact (IH H)].
      split; [discriminate | ]. exists c. auto.
Qed.

Lemma lang_plus_cls neg items w :
  lang ic (Plus (Cls neg items)) w <->
  w <> [] /\ forallb (cls_match ic neg items) w = true.
Proof.
  unfold Plus.
  change (lang ic (Seq (Cls neg items) (Star (Cls neg items))) w)
    with (exists w1 w2, w = w1 ++ w2 /\ lang ic (Cls neg items) w1
                        /\ lang ic (Star (Cls neg items)) w2).
  split.
  - intros (w1 & w2 & -> & (c & -> & Hc) & L2). apply lang_star_cls in L2.
    split; [discriminate | ]. simpl. rewrite Hc. exact L2.
  - intros [Hne H]. destruct w as [ | c w]; [congruence | ].
    simpl in H. apply andb_prop in H. destruct H as [Hc H].
    exists [c], w. split; [reflexivity | ]. split; [exists c; auto | ].
    apply lang_star_cls. exact H.
Qed.

End Words.

Section LiteralWords.
Import Py Re ReSem.

Lemma eqb_chr_eq a b : eqb_chr a b = true <-> a = b.
Proof. unfold eqb_chr. apply Ascii.eqb_eq. Qed.

Lemma eqb_chr_refl a : eqb_chr a a = true.
Proof. apply eqb_chr_eq. reflexivity. Qed.

Lemma eqb_chr_sym a b : eqb_chr a b = eqb_chr b a.
Proof. unfold eqb_chr. apply Ascii.eqb_sym. Qed.

Lemma eqb_eq s : forall t, eqb s t = true <-> s = t.
Proof.
  induction s as [ | a s IH]; intros [ | b t]; simpl; split; intros H;
    try reflexivity; try discriminate.
  - apply andb_prop in H. destruct H as [H1 H2].
    apply eqb_chr_eq in H1. apply IH in H2. congruence.
  - inversion H; subst. rewrite eqb_chr_refl. simpl. apply IH. reflexivity.
Qed.

Lemma mem_In x xs : mem x xs = true <-> In x xs.
Proof.
  unfold mem. rewrite existsb_exists. split.
  - intros (y & Hin & E). apply eqb_eq in E. subst. exact Hin.
  - intros H. exists x. split; [exact H | apply eqb_eq; reflexivity].
Qed.

(** Matched with regard to case, a literal has one word: itself. *)
Lemma lang_Chr a w : lang false (Chr a) w <-> w = [a].
Proof.
  simpl. unfold chr_match. simpl. split.
  - intros (c & -> & H). apply eqb_chr_eq in H. subst. reflexivity.
  - intros ->. exists a. split; [reflexivity | apply eqb_chr_refl].
Qed.

Lemma lang_Str s : forall w, lang false (Str s) w <-> w = s.
Proof.
  induction s as [ | a s IH]; intros w; [simpl; tauto | ].
  destruct s as [ | b s'].
  - apply lang_Chr.
  - change (lang false (Str (a :: b :: s')) w)
      with (exists w1 w2, w = w1 ++ w2 /\ lang false (Chr a) w1
                          /\ lang false (Str (b :: s')) w2).
    split.
    + intros (w1 & w2 & -> & L1 & L2). apply lang_Chr in L1. apply IH in L2.
      subst. reflexivity.
    + intros ->. exists [a], (b :: s'). split; [reflexivity | ].
      split; [apply lang_Chr; reflexivity | apply IH; reflexivity].
Qed.

Lemma lang_AltLits ss w :
  lang false (AltLits ss) w <-> exists s, In s ss /\ w = lit s.
Proof.
  unfold AltLits. rewrite lang_Alts. split.
  - intros (r & Hin & L). apply in_map_iff in Hin. destruct Hin as (s & <- & Hin).
    apply lang_Str in L. eauto.
  - intros (s & Hin & ->). exists (Lit s). split; [apply in_map; exact Hin | ].
    apply lang_Str. reflexivity.
Qed.

End LiteralWords.

(** The words of a sequence of patterns, one by one. *)
Ltac forall2_inv :=
  repeat match goal with
  | H : Forall2 _ (_ :: _) _ |- _ => inversion H; subst; clear H
  | H : Forall2 _ [] _ |- _ => inversion H; subst; clear H
  end.

Ltac forall2_intro :=
  repeat first [apply Forall2_nil | apply Forall2_cons].

(** * String methods *)

Section StringFacts.
Import Py SyntaxSpec.
Open Scope nat_scope.
Open Scope list_scope.

Lemma take_drop_while p s : take_while p s ++ drop_while p s = s.
Proof.
  induction s as [ | c s IH]; [reflexivity | ]. simpl.
  destruct (p c); [simpl; rewrite IH | ]; reflexivity.
Qed.

Lemma take_while_all p s : forallb p (take_while p s) = true.
Proof.
  induction s as [ | c s IH]; [reflexivity | ]. simpl.
  destruct (p c) eqn:E; [simpl; rewrite E; exact IH | reflexivity].
Qed.

Lemma drop_while_app p s t :
  forallb p s = true -> drop_while p (s ++ t) = drop_while p t.
Proof.
  induction s as [ | c s IH]; [reflexivity | ]. simpl. intros H.
  apply andb_prop in H. destruct H as [Hc H]. rewrite Hc. auto.
Qed.

Lemma drop_while_stop p c s : p c = false -> drop_while p (c :: s) = c :: s.
Proof. intros H. simpl. rewrite H. reflexivity. Qed.

(** [sub in s] for a substring of one character. *)
Lemma contains_chr c s : contains [c] s = existsb (eqb_chr c) s.
Proof.
  induction s as [ | a s IH]; [reflexivity | ].
  simpl. simpl in IH. rewrite IH. destruct (eqb_chr c a); reflexivity.
Qed.

Lemma existsb_count c s :
  existsb (eqb_chr c) s = (0 <? count_occ ascii_dec s c).
Proof.
  induction s as [ | a s IH]; [reflexivity | ]. simpl.
  destruct (ascii_dec a c) as [-> | Hn].
  - rewrite eqb_chr_refl. reflexivity.
  - rewrite IH. destruct (eqb_chr c a) eqn:E; [ | reflexivity].
    apply eqb_chr_eq in E. congruence.
Qed.

Lemma split_nonempty sep s : split sep s <> [].
Proof.
  destruct s as [ | c s]; simpl; [discriminate | ].
  destruct (eqb_chr c sep); [discriminate | ].
  destruct (split sep s); discriminate.
Qed.

(** [s.split(sep)] has one part more than [s] has separators. *)
Lemma split_length sep s :
  length (split sep s) = S (count_occ ascii_dec s sep).
Proof.
  induction s as [ | c s IH]; [reflexivity | ]. simpl.
  destruct (ascii_dec c sep) as [-> | Hn].
  - rewrite eqb_chr_refl. simpl. rewrite IH. reflexivity.
  - destruct (eqb_chr c sep) eqn:E; [apply eqb_chr_eq in E; congruence | ].
    destruct (split sep s) as [ | p ps] eqn:Es; [destruct (split_nonempty _ _ Es) | ].
    simpl in *. exact IH.
Qed.

Lemma split_none sep s : count_occ ascii_dec s sep = 0 -> split sep s = [s].
Proof.
  induction s as [ | c s IH]; [reflexivity | ]. simpl.
  destruct (ascii_dec c sep) as [-> | Hn]; [discriminate | ]. intros H.
  destruct (eqb_chr c sep) eqn:E; [apply eqb_chr_eq in E; congruence | ].
  rewrite (IH H). reflexivity.
Qed.

(** Its first part is the text before the first separator. *)
Lemma split_first sep s :
  nth 0 (split sep s) [] = take_while (fun c => negb (eqb_chr c sep)) s.
Proof.
  induction s as [ | c s IH]; [reflexivity | ]. simpl.
  destruct (eqb_chr c sep); simpl; [reflexivity | ].
  destruct (split sep s) as [ | p ps] eqn:Es; [destruct (split_nonempty _ _ Es) | ].
  simpl in *. rewrite IH. reflexivity.
Qed.

(** With one separator, its second part is the text after it. *)
Lemma split_second sep s :
  count_occ ascii_dec s sep = 1 ->
  nth 1 (split sep s) [] = tl (drop_while (fun c => negb (eqb_chr c sep)) s).
Proof.
  induction s as [ | c s IH]; [discriminate | ]. simpl.
  destruct (ascii_dec c sep) as [-> | Hn]; intros H.
  - rewrite eqb_chr_refl. simpl. injection H as H. rewrite (split_none _ _ H). reflexivity.
  - destruct (eqb_chr c sep) eqn:E; [apply eqb_chr_eq in E; congruence | ]. simpl.
    destruct (split sep s) as [ | p ps] eqn:Es; [destruct (split_nonempty _ _ Es) | ].
    simpl in *. apply IH. exact H.
Qed.

End StringFacts.

(** * Time ranges and subqueries *)

Section TimeRanges.
Import Py Re ReSem SyntaxValidator SyntaxSpec.
Open Scope string_scope.
Open Scope nat_scope.
Open Scope list_scope.

(** [re.fullmatch] with a pattern without assertions: the whole text is
    one of its words. *)
Lemma fullmatch_lang ic r s :
  simple r = true -> (fullmatch ic r s = true <-> lang ic r s).
Proof.
  intros Hs. rewrite fullmatch_true_iff. split.
  - intros (st' & M & R). destruct (matches_lang _ _ _ _ M) as (w & L & [E _]).
    simpl in E. rewrite R, app_nil_r in E. subst. exact L.
  - intros L.
    destruct (lang_matches ic r Hs s (MState None s []) [] L) as (st' & M & _ & R).
    + simpl. rewrite app_nil_r. reflexivity.
    + exists st'. auto.
Qed.

Lemma digit_match c : cls_match false false [CDigit] c = isdecimal c.
Proof. unfold cls_match. simpl. destruct (isdecimal c); reflexivity. Qed.

Lemma forallb_ext_eq {A} (f g : A -> bool) l :
  (forall x, f x = g x) -> forallb f l = forallb g l.
Proof. intros H. induction l; simpl; [reflexivity | rewrite H, IHl; reflexivity]. Qed.

(** The words of [DURATION_PATTERN] are those of the duration grammar. *)
Lemma duration_lang s : lang false DURATION_PATTERN s <-> duration_grammar s.
Proof.
  unfold DURATION_PATTERN, duration_grammar.
  change (lang false (Seq (Plus digit) (AltLits ["ms"; "s"; "m"; "h"; "d"; "w"; "y"])) s)
    with (exists w1 w2, s = w1 ++ w2 /\ lang false (Plus digit) w1
                        /\ lang false (AltLits duration_units) w2).
  split.
  - intros (w1 & w2 & -> & L1 & L2). apply lang_plus_cls in L1.
    apply lang_AltLits in L2. destruct L1 as [Hne Hd]. destruct L2 as (u & Hu & ->).
    exists w1, u. rewrite (forallb_ext_eq _ _ _ digit_match) in Hd. auto.
  - intros (ds & u & -> & Hne & Hd & Hu). exists ds, (lit u).
    split; [reflexivity | ]. split.
    + apply lang_plus_cls. rewrite (forallb_ext_eq _ _ _ digit_match). auto.
    + apply lang_AltLits. eauto.
Qed.

Lemma unit_not_digit u :
  In u duration_units -> drop_while isdecimal (lit u) = lit u.
Proof.
  intros H. simpl in H.
  repeat (destruct H as [<- | H]; [reflexivity | ]). destruct H.
Qed.

Lemma is_duration_grammar s : is_duration s = true <-> duration_grammar s.
Proof.
  unfold is_duration, duration_grammar. split.
  - destruct s as [ | c s]; [discriminate | ]. intros H.
    apply andb_prop in H. destruct H as [Hc Hm]. apply mem_In in Hm.
    apply in_map_iff in Hm. destruct Hm as (u & Eu & Hu).
    exists (c :: take_while isdecimal s), u.
    simpl. rewrite Eu, take_drop_while, Hc, take_while_all.
    repeat split; auto; discriminate.
  - intros (ds & u & -> & Hne & Hd & Hu). destruct ds as [ | c ds]; [congruence | ].
    cbn [forallb] in Hd. apply andb_prop in Hd. destruct Hd as [Hc Hd].
    change ((c :: ds) ++ lit u) with (c :: (ds ++ lit u)). cbv beta iota.
    rewrite Hc, andb_true_l, (drop_while_app _ _ _ Hd), (unit_not_digit _ Hu).
    apply mem_In. apply (in_map lit). exact Hu.
Qed.

(** [re.fullmatch(DURATION_PATTERN, s)] decides the duration grammar. *)
Lemma fullmatch_duration s : fullmatch false DURATION_PATTERN s = is_duration s.
Proof.
  pose proof (fullmatch_lang false DURATION_PATTERN s eq_refl) as H1.
  pose proof (duration_lang s) as H2. pose proof (is_duration_grammar s) as H3.
  destruct (fullmatch false DURATION_PATTERN s), (is_duration s); try reflexivity.
  - assert (false = true) by tauto. discriminate.
  - assert (false = true) by tauto. discriminate.
Qed.

Lemma validator_eta v : Validator (query v) (errors v ++ []) (warnings v) = v.
Proof. rewrite app_nil_r. destruct v; reflexivity. Qed.

Lemma add_error_eq f v es :
  add_error f (Validator (query v) (errors v ++ es) (warnings v)) =
  Validator (query v) (errors v ++ es ++ [f]) (warnings v).
Proof. unfold add_error. simpl. rewrite app_assoc. reflexivity. Qed.

Lemma contains_colon s : contains (lit ":") s = (0 <? colons s).
Proof. change (lit ":") with [colon]. rewrite contains_chr. apply existsb_count. Qed.

(** One round of the loop of [_check_time_ranges] appends the errors of
    its span and nothing else. *)
Lemma time_range_one_errors span v :
  time_range_one span v =
  Validator (query v) (errors v ++ span_errors span) (warnings v).
Proof.
  unfold time_range_one, span_errors. cbv zeta.
  rewrite contains_colon, !fullmatch_duration.
  pose proof (split_length colon (strip span)) as Hlen.
  pose proof (split_first colon (strip span)) as H0.
  pose proof (split_second colon (strip span)) as H1.
  fold (colons (strip span)) in Hlen, H1. fold not_colon in H0, H1.
  fold (before_colon (strip span)) in H0. fold (after_colon (strip span)) in H1.
  change ":"%char with colon.
  destruct (colons (strip span)) as [ | [ | n]].
  - simpl. destruct (is_duration (strip span)); simpl.
    + symmetry. apply validator_eta.
    + reflexivity.
  - rewrite Hlen, H0, (H1 eq_refl). simpl. unfold part_errors.
    destruct (is_empty (strip (before_colon (strip span))));
      destruct (is_duration (strip (before_colon (strip span))));
      destruct (is_empty (strip (after_colon (strip span))));
      destruct (is_duration (strip (after_colon (strip span))));
      simpl; try (symmetry; apply validator_eta); try reflexivity;
      unfold add_error; simpl; rewrite <- ?app_assoc; reflexivity.
  - rewrite Hlen. simpl. reflexivity.
Qed.

Lemma for_each_errors {A} (body : A -> validator -> validator)
      (errs : A -> list Finding) xs :
  (forall x v, body x v = Validator (query v) (errors v ++ errs x) (warnings v)) ->
  forall v, for_each body xs v =
            Validator (query v) (errors v ++ flat_map errs xs) (warnings v).
Proof.
  intros Hb. unfold for_each.
  induction xs as [ | x xs IH]; intros v; simpl.
  - symmetry. apply validator_eta.
  - rewrite IH, Hb. simpl. rewrite <- app_assoc. reflexivity.
Qed.

(** What [re.findall] yields for a pattern with one group: the group of
    a match of the pattern in the text. *)
Lemma findall1_sound ic r s x :
  In x (findall1 ic r s) ->
  exists m, match_of ic r None s m /\ x = group 1 m.
Proof.
  unfold findall1. intros H. apply in_map_iff in H. destruct H as (m & <- & Hin).
  exists m. split; [apply finditer_sound; exact Hin | reflexivity].
Qed.

Lemma not_chr_match a c : cls_match false true [CChar a] c = negb (eqb_chr c a).
Proof. unfold cls_match. simpl. rewrite orb_false_r. reflexivity. Qed.

Lemma forallb_not_chr a w :
  forallb (cls_match false true [CChar a]) w = true -> ~ In a w.
Proof.
  intros H Hin. rewrite forallb_forall in H. specialize (H _ Hin).
  rewrite not_chr_match, eqb_chr_refl in H. discriminate.
Qed.

(** The spans that the check looks at are bracketed spans of the query. *)
Lemma range_pattern_spans q span :
  In span (findall1 false range_pattern q) -> bracketed_span q span.
Proof.
  intros H. apply findall1_sound in H.
  destruct H as (m & (pre & suf & -> & M & _ & C) & ->).
  unfold matches_at, range_pattern in M.
  change (Seqs [Chr "["%char; Group 1 (Plus (not_chr "]"%char)); Chr "]"%char])
    with (Seq (Chr "["%char) (Seq (Group 1 (Plus (not_chr "]"%char))) (Chr "]"%char))) in M.
  destruct M as (m1 & M1 & m2 & M2 & M3).
  apply (matches_plain false (Chr "["%char) eq_refl) in M1.
  destruct M1 as (w1 & L1 & S1 & C1). apply lang_Chr in L1. subst w1.
  apply (matches_group false 1 (Plus (not_chr "]"%char)) eq_refl) in M2.
  destruct M2 as (w & L & S2 & C2). apply lang_plus_cls in L. destruct L as [Hne Hall].
  apply (matches_plain false (Chr "]"%char) eq_refl) in M3.
  destruct M3 as (w3 & L3 & S3 & C3). apply lang_Chr in L3. subst w3.
  unfold group. rewrite C, C3, C2. simpl.
  split; [exact Hne | ]. split; [apply forallb_not_chr; exact Hall | ].
  exists pre, (rest (m_end m)).
  destruct S1 as [E1 _], S2 as [E2 _], S3 as [E3 _]. simpl in E1.
  rewrite E1, E2, E3. reflexivity.
Qed.



End TimeRanges.

(** * The Levenshtein distance of [_levenshtein_distance] *)

Section Levenshtein.
Import Py SyntaxValidator SyntaxSpec.
Open Scope nat_scope.
Open Scope list_scope.

Lemma lev_rec_nil_r x : lev_rec x [] = length x.
Proof. destruct x; reflexivity. Qed.

Lemma lev_rec_cons a x b y :
  lev_rec (a :: x) (b :: y) =
  Nat.min (lev_rec x (b :: y) + 1)
    (Nat.min (lev_rec (a :: x) y + 1)
       (lev_rec x y + (if eqb_chr a b then 0 else 1))).
Proof. reflexivity. Qed.

Lemma lev_rec_sym x : forall y, lev_rec x y = lev_rec y x.
Proof.
  induction x as [ | a x IHx]; intros y.
  - symmetry. apply lev_rec_nil_r.
  - induction y as [ | b y IHy]; [reflexivity | ].
    rewrite !lev_rec_cons, IHy, (IHx (b :: y)), (IHx y), (eqb_chr_sym a b). lia.
Qed.

(** The distance is at least the difference of the lengths. *)
Lemma lev_rec_lower x : forall y, abs_diff (length x) (length y) <= lev_rec x y.
Proof.
  unfold abs_diff. induction x as [ | a x IHx]; intros y.
  - simpl. lia.
  - induction y as [ | b y IHy]; [simpl; lia | ].
    rewrite lev_rec_cons. specialize (IHx (b :: y)) as H1. specialize (IHx y) as H2.
    simpl in *. destruct (eqb_chr a b); lia.
Qed.

Lemma prefixes_length t : length (prefixes t) = S (length t).
Proof. unfold prefixes. rewrite length_map, length_seq. reflexivity. Qed.

Lemma prefixes_nth t k d : k <= length t -> nth k (prefixes t) d = firstn k t.
Proof.
  intros H. unfold prefixes.
  rewrite (nth_indep _ d (firstn 0 t)) by (rewrite length_map, length_seq; lia).
  rewrite (map_nth (fun k => firstn k t) _ 0 k), seq_nth by lia. reflexivity.
Qed.

Lemma prefixes_snoc t c : prefixes (t ++ [c]) = prefixes t ++ [t ++ [c]].
Proof.
  unfold prefixes. rewrite length_app. simpl length.
  replace (S (length t + 1)) with (S (length t) + 1) by lia.
  rewrite seq_app, map_app. cbn [map Nat.add]. f_equal.
  - apply map_ext_in. intros k Hk. apply in_seq in Hk.
    rewrite firstn_app. replace (k - length t) with 0 by lia.
    simpl. apply app_nil_r.
  - cbn [map seq]. f_equal.
    replace (S (length t)) with (length (t ++ [c]))
      by (rewrite length_app; simpl; lia).
    apply firstn_all.
Qed.

Lemma row_nth x done more :
  nth (length done) (row x (done ++ more)) 0 = lev_rec x (rev done).
Proof.
  unfold row.
  rewrite (nth_indep _ 0 (lev_rec x (rev []))) by
    (rewrite length_map, prefixes_length, length_app; lia).
  rewrite (map_nth (fun p => lev_rec x (rev p))), prefixes_nth
    by (rewrite length_app; lia).
  rewrite firstn_app, firstn_all, Nat.sub_diag. simpl. rewrite app_nil_r. reflexivity.
Qed.

Lemma row_snoc x t c :
  row x (t ++ [c]) = row x t ++ [lev_rec x (c :: rev t)].
Proof.
  unfold row. rewrite prefixes_snoc, map_app. simpl.
  rewrite rev_app_distr. reflexivity.
Qed.

Lemma lev_inner_cons c1 c2 s2' j previous_row current_row :
  lev_inner c1 (c2 :: s2') j previous_row current_row =
  lev_inner c1 s2' (S j) previous_row
    (current_row ++
     [Nat.min (nth (j + 1) previous_row 0 + 1)
        (Nat.min (nth j current_row 0 + 1)
           (nth j previous_row 0 + (if eqb_chr c1 c2 then 0 else 1)))]).
Proof. reflexivity. Qed.

(** The inner loop completes the row of [c1 :: x]. *)
Lemma lev_inner_row c1 x s2' : forall done,
  lev_inner c1 s2' (length done) (row x (done ++ s2')) (row (c1 :: x) done) =
  row (c1 :: x) (done ++ s2').
Proof.
  induction s2' as [ | c2 s2' IH]; intros done.
  - simpl. rewrite app_nil_r. reflexivity.
  - rewrite lev_inner_cons.
    assert (E1 : nth (length done + 1) (row x (done ++ c2 :: s2')) 0
                 = lev_rec x (c2 :: rev done)).
    { replace (length done + 1) with (length (done ++ [c2]))
        by (rewrite length_app; reflexivity).
      replace (done ++ c2 :: s2') with ((done ++ [c2]) ++ s2')
        by (rewrite <- app_assoc; reflexivity).
      rewrite row_nth, rev_app_distr. reflexivity. }
    pose proof (row_nth (c1 :: x) done []) as E2. rewrite app_nil_r in E2.
    rewrite E1, E2, row_nth, <- lev_rec_cons, <- row_snoc.
    specialize (IH (done ++ [c2])).
    rewrite length_app, <- app_assoc, Nat.add_1_r in IH. exact IH.
Qed.

(** The outer loop turns the row of [x] into the row of [x] extended by
    the characters of [s1], the last one first. *)
Lemma lev_outer_row s2 s1 : forall x,
  lev_outer s1 (length x) s2 (row x s2) = row (rev s1 ++ x) s2.
Proof.
  induction s1 as [ | c1 s1 IH]; intros x; [reflexivity | ].
  simpl. rewrite <- app_assoc. simpl.
  rewrite <- (IH (c1 :: x)). simpl length. f_equal.
  replace [length x + 1] with (row (c1 :: x) []).
  - apply (lev_inner_row c1 x s2 []).
  - unfold row, prefixes. simpl. f_equal. lia.
Qed.

Lemma row_nil t : row [] t = seq 0 (length t + 1).
Proof.
  unfold row, prefixes. rewrite map_map. replace (length t + 1) with (S (length t)) by lia.
  rewrite <- (map_id (seq 0 (S (length t)))) at 2.
  apply map_ext_in. intros k Hk. apply in_seq in Hk.
  cbn [lev_rec]. rewrite length_rev, length_firstn. lia.
Qed.

Lemma row_last x t : last (row x t) 0 = lev_rec x (rev t).
Proof.
  destruct t as [ | c t] using rev_ind; [reflexivity | ].
  rewrite row_snoc, last_last, rev_app_distr. reflexivity.
Qed.

Lemma lev_ordered_rec s1 s2 : lev_ordered s1 s2 = edit_distance s1 s2.
Proof.
  unfold lev_ordered, edit_distance. destruct (length s2 =? 0) eqn:E.
  - apply Nat.eqb_eq in E. destruct s2; [ | discriminate].
    simpl. rewrite lev_rec_nil_r, length_rev. reflexivity.
  - rewrite <- row_nil.
    pose proof (lev_outer_row s2 s1 []) as H. simpl length in H.
    rewrite H, app_nil_r. apply row_last.
Qed.

(** [_levenshtein_distance] computes the Levenshtein distance. *)
Lemma levenshtein_distance_correct s1 s2 :
  levenshtein_distance s1 s2 = edit_distance s1 s2.
Proof.
  unfold levenshtein_distance. destruct (length s1 <? length s2).
  - rewrite lev_ordered_rec. unfold edit_distance. apply lev_rec_sym.
  - apply lev_ordered_rec.
Qed.

Lemma edit_distance_lower s t :
  abs_diff (length s) (length t) <= edit_distance s t.
Proof.
  unfold edit_distance. rewrite <- (length_rev s), <- (length_rev t).
  apply lev_rec_lower.
Qed.

(** The length test of [_find_close_matches] only saves work. *)
Lemma is_close_distance d word candidate :
  is_close d word candidate = (edit_distance word candidate <=? d).
Proof.
  unfold is_close. rewrite levenshtein_distance_correct.
  pose proof (edit_distance_lower word candidate) as H.
  destruct (d <? abs_diff (length word) (length candidate)) eqn:E; [ | reflexivity].
  apply Nat.ltb_lt in E. symmetry. apply Nat.leb_gt. lia.
Qed.

Lemma find_close_matches_suggestions word order :
  find_close_matches word order = suggestions order word.
Proof.
  unfold find_close_matches, suggestions. f_equal.
  apply filter_ext. intros name. apply is_close_distance.
Qed.

End Levenshtein.

(** * Function names *)

Section FunctionNames.
Import Py Re ReSem SyntaxValidator SyntaxSpec.
Open Scope string_scope.
Open Scope nat_scope.
Open Scope list_scope.

(** Without regard to case, the two classes of [func_pattern] are the
    characters that start and that continue an identifier. *)
Lemma ident_start_match c :
  cls_match true false [CRange 97 122; CChar "_"%char] c = ident_start c.
Proof. destruct c as [[] [] [] [] [] [] [] []]; reflexivity. Qed.

Lemma ident_char_match c :
  cls_match true false [CRange 97 122; CRange 48 57; CChar "_"%char] c = ident_char c.
Proof. destruct c as [[] [] [] [] [] [] [] []]; reflexivity. Qed.

Lemma space_match ic c : cls_match ic false [CSpace] c = isspace c.
Proof. unfold cls_match. simpl. destruct (isspace c); reflexivity. Qed.

Lemma paren_match c : chr_match true "("%char c = eqb_chr c "("%char.
Proof. destruct c as [[] [] [] [] [] [] [] []]; reflexivity. Qed.


(** One round of the loop of [_check_function_syntax]. *)
Lemma function_one_errors order func v :
  function_one order func v =
  Validator (query v) (errors v ++ unknown_function_errors order func) (warnings v).
Proof.
  unfold function_one, unknown_function_errors. cbv zeta.
  rewrite find_close_matches_suggestions.
  destruct (mem (lower func) NON_FUNCTION_KEYWORDS); cbn [orb negb];
    [symmetry; apply validator_eta | ].
  destruct (mem (lower func) FUNCTIONS); cbn [orb negb];
    [symmetry; apply validator_eta | ].
  destruct (suggestions order (lower func)); reflexivity.
Qed.

Lemma suggestions_length order word : length (suggestions order word) <= 3.
Proof. unfold suggestions. apply firstn_le_length. Qed.

Lemma firstn_In {A} n (l : list A) x : In x (firstn n l) -> In x l.
Proof.
  intros H. rewrite <- (firstn_skipn n l). apply in_or_app. left. exact H.
Qed.

Lemma suggestions_near order word name :
  In name (suggestions order word) ->
  In name order /\ edit_distance word name <= 2.
Proof.
  unfold suggestions. intros H. apply firstn_In in H.
  apply filter_In in H. destruct H as [Hin Hd]. apply Nat.leb_le in Hd. auto.
Qed.

Lemma suggestions_none order word :
  suggestions order word = [] <->
  forall name, In name order -> 2 < edit_distance word name.
Proof.
  unfold suggestions. split.
  - intros H name Hin.
    destruct (edit_distance word name <=? 2) eqn:E; [ | apply Nat.leb_gt; exact E].
    assert (Hf : In name (filter (fun name => edit_distance word name <=? 2) order))
      by (apply filter_In; auto).
    destruct (filter _ order) as [ | a l]; [destruct Hf | discriminate].
  - intros H.
    replace (filter (fun name => edit_distance word name <=? 2) order) with (@nil str);
      [reflexivity | ].
    symmetry. induction order as [ | a l IH]; [reflexivity | ]. simpl.
    assert (Ha : 2 < edit_distance word a) by (apply H; left; reflexivity).
    apply Nat.leb_gt in Ha. rewrite Ha. apply IH. intros n Hn. apply H. right. exact Hn.
Qed.




End FunctionNames.

(** * Averages of quantiles *)

Section AveragingQuantiles.
Import Py Re ReSem BestPractices BestSpec.
Open Scope string_scope.
Open Scope nat_scope.
Open Scope list_scope.

(** [re.search] with a pattern without assertions: some part of the text
    is one of its words. *)
Lemma search_lang ic r s :
  simple r = true ->
  (search ic r s = true <-> exists pre w suf, s = pre ++ w ++ suf /\ lang ic r w).
Proof.
  intros Hs. rewrite search_true_iff. split.
  - intros (pre & suf & st' & -> & M). apply matches_lang in M.
    destruct M as (w & L & [E _]). simpl in E. exists pre, w, (rest st').
    rewrite E. auto.
  - intros (pre & w & suf & -> & L).
    destruct (lang_matches ic r Hs w (MState (prev_after None pre) (w ++ suf) []) suf L eq_refl)
      as (st' & M & _).
    exists pre, (w ++ suf), st'. auto.
Qed.

Lemma forallb_not_chr_iff a w :
  forallb (cls_match false true [CChar a]) w = true <-> ~ In a w.
Proof.
  split; [apply forallb_not_chr | ]. intros H. apply forallb_forall. intros c Hc.
  rewrite not_chr_match. destruct (eqb_chr c a) eqn:E; [ | reflexivity].
  apply eqb_chr_eq in E. subst. contradiction.
Qed.

Lemma lang_spaces ic w : lang ic spaces w <-> forallb isspace w = true.
Proof.
  unfold spaces, space. rewrite lang_star_cls.
  rewrite (forallb_ext_eq _ _ _ (space_match ic)). tauto.
Qed.

Lemma lang_star_not_chr a w : lang false (Star (not_chr a)) w <-> ~ In a w.
Proof. unfold not_chr. rewrite lang_star_cls. apply forallb_not_chr_iff. Qed.

Lemma lang_Lit s w : lang false (Lit s) w <-> w = lit s.
Proof. apply lang_Str. Qed.

(** The words of the pattern of [_check_averaging_quantiles]. *)
Lemma averaging_quantiles_search s :
  search false averaging_quantiles_pattern s = true <-> quantile_average s.
Proof.
  rewrite (search_lang false averaging_quantiles_pattern s eq_refl).
  unfold quantile_average, averaging_quantiles_pattern. split.
  - intros (pre & w & suf & -> & L). apply lang_Seqs in L.
    destruct L as (ws & -> & H). forall2_inv.
    repeat match goal with
    | H : lang false (Lit _) _ |- _ => apply lang_Lit in H; subst
    | H : lang false (Chr _) _ |- _ => apply lang_Chr in H; subst
    | H : lang false spaces _ |- _ => apply lang_spaces in H
    | H : lang false (Star (not_chr _)) _ |- _ => apply lang_star_not_chr in H
    end.
    match goal with
    | |- context [concat [_; ?ws1; _; ?a; _; ?b; _; ?ws2; _]] =>
        exists pre, ws1, a, b, ws2, suf
    end.
    cbn [concat]. rewrite ?app_nil_r. repeat rewrite <- app_assoc. auto.
  - intros (pre & ws1 & a & b & ws2 & suf & -> & H1 & H2 & Ha & Hb).
    exists pre,
      (concat [lit "avg"; ws1; lit "("; a; lit "{"; b; lit "quantile"; ws2; lit "="]),
      suf.
    split; [cbn [concat]; rewrite ?app_nil_r; repeat rewrite <- app_assoc; reflexivity | ].
    apply lang_Seqs. eexists. split; [reflexivity | ].
    forall2_intro;
      first [ apply lang_Lit; reflexivity | apply lang_Chr; reflexivity
            | apply lang_spaces; assumption | apply lang_star_not_chr; assumption ].
Qed.

Lemma In_chr a w : In a w <-> existsb (eqb_chr a) w = true.
Proof.
  rewrite existsb_exists. split.
  - intros H. exists a. split; [exact H | apply eqb_chr_refl].
  - intros (c & Hc & E). apply eqb_chr_eq in E. subst. exact Hc.
Qed.

Lemma quantile_average_nonempty s : quantile_average s -> is_empty s = false.
Proof.
  intros (pre & ws1 & a & b & ws2 & suf & -> & _).
  destruct pre; reflexivity.
Qed.

(** [_check_averaging_quantiles] appends its finding exactly for the
    queries of that shape. *)
Lemma check_averaging_quantiles_shape c :
  (quantile_average (query c) ->
   check_averaging_quantiles c = add_issue averaging_quantiles c) /\
  (~ quantile_average (query c) -> check_averaging_quantiles c = c).
Proof.
  unfold check_averaging_quantiles.
  pose proof (averaging_quantiles_search (query c)) as H.
  destruct (search false averaging_quantiles_pattern (query c)).
  - split; [reflexivity | ]. intros Hn. destruct Hn. apply H. reflexivity.
  - split; [ | reflexivity]. intros Hq. apply H in Hq. discriminate.
Qed.

Lemma first_checks_quantiles c :
  quantile_average (query c) -> In averaging_quantiles (issues (first_checks c)).
Proof.
  intros Hq. unfold first_checks.
  set (c4 := check_rate_on_gauges _).
  assert (E : query c4 = query c).
  { unfold c4.
    destruct (check_rate_on_gauges_grows
                (check_missing_rate_on_counters
                   (check_regex_overuse (check_high_cardinality c)))) as [E1 _].
    destruct (check_missing_rate_on_counters_grows
                (check_regex_overuse (check_high_cardinality c))) as [E2 _].
    destruct (check_regex_overuse_grows (check_high_cardinality c)) as [E3 _].
    destruct (check_high_cardinality_grows c) as [E4 _].
    congruence. }
  rewrite <- E in Hq.
  rewrite (proj1 (check_averaging_quantiles_shape c4) Hq).
  unfold add_issue. cbn [issues]. apply in_or_app. right. left. reflexivity.
Qed.

Lemma lstrip_id c s : isspace c = false -> lstrip (c :: s) = c :: s.
Proof. intros H. simpl. rewrite H. reflexivity. Qed.

(** [s.strip()] leaves a text alone that neither starts nor ends with
    white space. *)
Lemma strip_id c w d :
  isspace c = false -> isspace d = false -> strip (c :: w ++ [d]) = c :: w ++ [d].
Proof.
  intros Hc Hd. unfold strip, rstrip. rewrite (lstrip_id _ _ Hc).
  assert (E : rev (c :: w ++ [d]) = d :: rev (c :: w)).
  { change (c :: w ++ [d]) with ((c :: w) ++ [d]). apply rev_app_distr. }
  rewrite E, (lstrip_id _ _ Hd), <- E. apply rev_involutive.
Qed.

Lemma join_cons_head sep (x : str) xs : exists more, join sep (x :: xs) = x ++ more.
Proof.
  destruct xs as [ | y ys]; simpl.
  - exists []. rewrite app_nil_r. reflexivity.
  - eexists. reflexivity.
Qed.

Lemma join_app_cons sep (l1 : list str) x l2 :
  join sep (l1 ++ x :: l2) = concat (map (fun y => y ++ sep) l1) ++ join sep (x :: l2).
Proof.
  induction l1 as [ | y l1 IH]; [reflexivity | ].
  change ((y :: l1) ++ x :: l2) with (y :: (l1 ++ x :: l2)).
  destruct (l1 ++ x :: l2) as [ | z zs] eqn:E.
  - destruct l1; discriminate.
  - change (join sep (y :: z :: zs)) with (y ++ sep ++ join sep (z :: zs)).
    rewrite IH. simpl. rewrite <- !app_assoc. reflexivity.
Qed.

Lemma not_in_app {A} (a : A) l1 l2 : ~ In a l1 -> ~ In a l2 -> ~ In a (l1 ++ l2).
Proof. intros H1 H2 H. apply in_app_or in H. tauto. Qed.

Lemma not_in_concat {A} (a : A) ls :
  (forall l, In l ls -> ~ In a l) -> ~ In a (concat ls).
Proof.
  intros H Hin. apply in_concat in Hin. destruct Hin as (l & Hl & Ha).
  exact (H l Hl Ha).
Qed.

(** [avg(] applied to a selector with a [quantile=] filter has the shape
    that the check looks for, unless a closing parenthesis in the name or
    a closing brace in an earlier filter is in the way. *)
Lemma avg_selector_shape name before value later :
  ~ In ")"%char name ->
  (forall f, In f before -> ~ In "}"%char (fst f) /\ ~ In "}"%char (snd f)) ->
  quantile_average
    (strip (lit "avg(" ++ selector name (before ++ (lit "quantile", value) :: later)
            ++ lit ")")).
Proof.
  intros Hname Hbefore.
  assert (E : exists body,
             lit "avg(" ++ selector name (before ++ (lit "quantile", value) :: later)
             ++ lit ")" = "a"%char :: body ++ [")"%char]).
  { exists (lit "vg(" ++ selector name (before ++ (lit "quantile", value) :: later)).
    apply (app_assoc (lit "avg(")). }
  destruct E as (body & E). rewrite E, strip_id by reflexivity. rewrite <- E. clear E body.
  unfold selector. rewrite map_app. cbn [map fst snd]. rewrite join_app_cons.
  match goal with
  | |- context [join ?sep (?x :: ?xs)] =>
      destruct (join_cons_head sep x xs) as (more & Hmore); rewrite Hmore; clear Hmore
  end.
  exists [], [], name,
    (concat (map (fun y => y ++ lit ",")
               (map (fun f => label_filter (fst f) (snd f)) before))),
    [], ([dq] ++ value ++ [dq] ++ more ++ lit "}" ++ lit ")").
  split; [unfold label_filter; repeat rewrite <- app_assoc; reflexivity | ].
  split; [reflexivity | ]. split; [reflexivity | ]. split; [exact Hname | ].
  apply not_in_concat. intros l Hl. apply in_map_iff in Hl.
  destruct Hl as (y & <- & Hy). apply in_map_iff in Hy. destruct Hy as (f & <- & Hf).
  destruct (Hbefore f Hf) as [H1 H2]. unfold label_filter.
  repeat apply not_in_app; auto;
    intros H; apply In_chr in H; vm_compute in H; discriminate.
Qed.

End AveragingQuantiles.

(** * Rate functions without a range vector *)

Section MissingRange.
Import Py Re ReSem SyntaxValidator SyntaxSpec.
Open Scope string_scope.
Open Scope nat_scope.
Open Scope list_scope.

(** [re.search] with a pattern that starts with [\b]. *)
Lemma search_word_lang ic r s :
  simple r = true ->
  (search ic (Seq WordB r) s = true <->
   exists pre w suf,
     s = pre ++ w ++ suf /\ lang ic r w /\
     at_boundary (MState (prev_after None pre) (w ++ suf) []) = true).
Proof.
  intros Hs. rewrite search_true_iff. split.
  - intros (pre & suf & st' & -> & (mid & [Hb ->] & M)). apply matches_lang in M.
    destruct M as (w & L & [E _]). simpl in E. exists pre, w, (rest st').
    rewrite <- E. repeat split; assumption.
  - intros (pre & w & suf & -> & L & Hb).
    destruct (lang_matches ic r Hs w (MState (prev_after None pre) (w ++ suf) []) suf L eq_refl)
      as (st' & M & _).
    exists pre, (w ++ suf), st'. split; [reflexivity | ].
    exists (MState (prev_after None pre) (w ++ suf) []).
    split; [split; [exact Hb | reflexivity] | exact M].
Qed.

Lemma word_before_ends pre t cs :
  word_before (MState (prev_after None pre) t cs) = ends_in_word pre.
Proof.
  unfold word_before, prev_after, ends_in_word. simpl. destruct (rev pre); reflexivity.
Qed.

Lemma name_start_match c :
  cls_match false false [CRange 97 122; CRange 65 90; CChar (chr 95); CChar (chr 58)] c
  = name_start_char c.
Proof. destruct c as [[] [] [] [] [] [] [] []]; reflexivity. Qed.

Lemma name_char_match c :
  cls_match false false
    [CRange 97 122; CRange 65 90; CRange 48 57; CChar (chr 95); CChar (chr 58)] c
  = name_part_char c.
Proof. destruct c as [[] [] [] [] [] [] [] []]; reflexivity. Qed.

(** The words of [METRIC_NAME_PATTERN]. *)
Lemma lang_metric_name w : lang false metric_name w <-> is_metric_name w = true.
Proof.
  unfold metric_name, is_metric_name.
  change (lang false (Seq name_start (Star name_char)) w)
    with (exists w1 w2, w = w1 ++ w2 /\ lang false name_start w1
                        /\ lang false (Star name_char) w2).
  split.
  - intros (w1 & w2 & -> & (c & -> & Hc) & L2). apply lang_star_cls in L2.
    rewrite name_start_match in Hc. rewrite (forallb_ext_eq _ _ _ name_char_match) in L2.
    simpl. rewrite Hc, L2. reflexivity.
  - destruct w as [ | c cs]; [discriminate | ]. intros H.
    apply andb_prop in H. destruct H as [Hc Hcs].
    exists [c], cs. split; [reflexivity | ]. split.
    + exists c. rewrite name_start_match. auto.
    + apply lang_star_cls. rewrite (forallb_ext_eq _ _ _ name_char_match). exact Hcs.
Qed.

Lemma lang_brace_block w :
  lang false (Opt (Seqs [Chr "{"%char; Star (not_chr "}"%char); Chr "}"%char])) w
  <-> brace_block w.
Proof.
  rewrite lang_Opt, lang_Seqs. unfold brace_block. split.
  - intros [(ws & -> & H) | ->]; [right | left; reflexivity]. forall2_inv.
    repeat match goal with
    | H : lang false (Chr _) _ |- _ => apply lang_Chr in H; subst
    | H : lang false (Star (not_chr _)) _ |- _ => apply lang_star_not_chr in H
    end.
    eexists. split; [ | eassumption]. cbn [concat]. rewrite app_nil_r. reflexivity.
  - intros [-> | (b & -> & Hb)]; [right; reflexivity | left].
    exists [["{"%char]; b; ["}"%char]]. split; [cbn [concat]; rewrite app_nil_r; reflexivity | ].
    forall2_intro;
      first [ apply lang_Chr; reflexivity | apply lang_star_not_chr; assumption ].
Qed.

Lemma rate_function_word f :
  In f rate_functions -> exists c t, lit f = c :: t /\ isword c = true.
Proof.
  intros H. simpl in H.
  repeat (destruct H as [<- | H]; [eexists; eexists; split; reflexivity | ]).
  destruct H.
Qed.

(** The words of the pattern of the missing range vector. *)
Lemma missing_range_search q :
  search false missing_range_pattern q = true <-> missing_range_shape q.
Proof.
  unfold missing_range_pattern.
  match goal with
  | |- search _ (Seqs (WordB :: ?rs)) _ = true <-> _ =>
      change (Seqs (WordB :: rs)) with (Seq WordB (Seqs rs));
      rewrite (search_word_lang false (Seqs rs) q eq_refl)
  end.
  unfold missing_range_shape. split.
  - intros (pre & w & suf & -> & L & Hb). apply lang_Seqs in L.
    destruct L as (ws & -> & H). forall2_inv.
    repeat match goal with
    | H : lang false (Group _ _) _ |- _ => cbn [lang] in H
    | H : lang false (AltLits _) _ |- _ =>
        apply lang_AltLits in H; destruct H as (f & Hf & ->)
    | H : lang false (Chr _) _ |- _ => apply lang_Chr in H; subst
    | H : lang false spaces _ |- _ => apply lang_spaces in H
    | H : lang false metric_name _ |- _ => apply lang_metric_name in H
    | H : lang false (Opt _) _ |- _ => apply lang_brace_block in H
    end.
    match goal with
    | |- context [concat [_; ?ws1; _; ?ws2; ?name; ?ws3; ?block; ?ws4; _]] =>
        exists pre, f, ws1, ws2, name, ws3, block, ws4, suf
    end.
    split; [cbn [concat]; rewrite ?app_nil_r; repeat rewrite <- app_assoc; reflexivity | ].
    split; [ | auto 10].
    unfold at_boundary in Hb. rewrite word_before_ends in Hb.
    destruct (rate_function_word f Hf) as (c & t & E & Hc).
    revert Hb. cbn [concat]. rewrite E. unfold word_after. cbn [rest app]. rewrite Hc.
    destruct (ends_in_word pre); [discriminate | reflexivity].
  - intros (pre & f & ws1 & ws2 & name & ws3 & block & ws4 & suf & -> & Hpre & Hf
            & H1 & H2 & Hn & H3 & Hblock & H4).
    exists pre,
      (concat [lit f; ws1; ["("%char]; ws2; name; ws3; block; ws4; [")"%char]]), suf.
    split; [cbn [concat]; rewrite ?app_nil_r; repeat rewrite <- app_assoc; reflexivity | ].
    split.
    + apply lang_Seqs. eexists. split; [reflexivity | ].
      forall2_intro;
        first [ apply lang_Chr; reflexivity | apply lang_spaces; assumption
              | apply lang_metric_name; assumption
              | apply lang_brace_block; assumption
              | cbn [lang]; apply lang_AltLits; exists f; auto ].
    + unfold at_boundary. rewrite word_before_ends, Hpre.
      destruct (rate_function_word f Hf) as (c & t & E & Hc).
      cbn [concat]. rewrite E. unfold word_after. cbn [rest app]. rewrite Hc. reflexivity.
Qed.

(** ** A rate function with a range vector *)

(** Where [a] occurs once, the text splits at it in one way. *)
Lemma split_unique {A} (a : A) P : forall R U V,
  ~ In a U -> ~ In a V -> P ++ a :: R = U ++ a :: V -> P = U /\ R = V.
Proof.
  induction P as [ | p P IH]; intros R U V HU HV E.
  - destruct U as [ | u U]; simpl in E; inversion E; subst; [auto | ].
    destruct HU. left. reflexivity.
  - destruct U as [ | u U]; simpl in E; inversion E; subst.
    + destruct HV. apply in_or_app. right. left. reflexivity.
    + destruct (IH R U V) as [-> ->]; auto. intros H. apply HU. right. exact H.
Qed.

(** A pattern all of whose words have a character of some kind finds
    nothing in a text without such characters. *)
Lemma search_at_needs ic r (p : ascii -> bool) :
  (forall w, lang ic r w -> existsb p w = true) ->
  forall s pv n, existsb p s = false -> search_at ic r pv s n = None.
Proof.
  intros Hw s pv n Hs. destruct (search_at ic r pv s n) as [m | ] eqn:E; [ | reflexivity].
  destruct (search_at_some _ _ _ _ _ _ E) as (pre & suf & -> & _ & M & _).
  apply matches_lang in M. destruct M as (w & L & [Ew _]). simpl in Ew.
  apply Hw in L. rewrite Ew, !existsb_app, L, orb_true_r in Hs. discriminate.
Qed.

Lemma search_needs ic r (p : ascii -> bool) s :
  (forall w, lang ic r w -> existsb p w = true) ->
  existsb p s = false -> search ic r s = false.
Proof.
  intros Hw Hs. unfold search, search_obj.
  rewrite (search_at_needs ic r p Hw s None 0 Hs). reflexivity.
Qed.

Lemma finditer_needs ic r (p : ascii -> bool) s :
  (forall w, lang ic r w -> existsb p w = true) ->
  existsb p s = false -> finditer ic r s = [].
Proof. intros Hw Hs. apply finditer_nil. eapply search_needs; eauto. Qed.

(** The first word of a sequence decides. *)
Lemma lang_Seqs_head ic r rs w (p : ascii -> bool) :
  (forall x, lang ic r x -> existsb p x = true) ->
  lang ic (Seqs (r :: rs)) w -> existsb p w = true.
Proof.
  intros Hr L. apply lang_Seqs in L. destruct L as (ws & -> & H).
  inversion H as [ | ? x ? l Hx Hl]; subst. cbn [concat].
  rewrite existsb_app, (Hr x Hx). reflexivity.
Qed.

Lemma lang_Chr_has a x : lang false (Chr a) x -> existsb (eqb_chr a) x = true.
Proof. intros H. apply lang_Chr in H. subst. simpl. rewrite eqb_chr_refl. reflexivity. Qed.

(** The characters of names and durations are none of the characters
    that the checks react to. *)
Lemma name_part_not_special c : name_part_char c = true -> special c = false.
Proof. destruct c as [[] [] [] [] [] [] [] []]; try discriminate; reflexivity. Qed.

Lemma quiet_no_special w :
  forallb name_part_char w = true -> existsb special w = false.
Proof.
  induction w as [ | c w IH]; [reflexivity | ]. simpl. intros H.
  apply andb_prop in H. destruct H as [Hc H].
  rewrite (name_part_not_special c Hc). auto.
Qed.

Lemma existsb_weaken (p p' : ascii -> bool) w :
  (forall c, p c = true -> p' c = true) -> existsb p' w = false -> existsb p w = false.
Proof.
  intros Hp H. destruct (existsb p w) eqn:E; [ | reflexivity].
  apply existsb_exists in E. destruct E as (c & Hc & Hpc).
  assert (existsb p' w = true) by (apply existsb_exists; exists c; auto). congruence.
Qed.


Lemma existsb_rev (p : ascii -> bool) s : existsb p (rev s) = existsb p s.
Proof.
  induction s as [ | c s IH]; [reflexivity | ]. simpl.
  rewrite existsb_app, IH. simpl. rewrite orb_false_r. apply orb_comm.
Qed.

Lemma lstrip_nospace s : existsb isspace s = false -> lstrip s = s.
Proof.
  destruct s as [ | c s]; [reflexivity | ]. simpl. intros H.
  apply orb_false_elim in H. destruct H as [-> _]. reflexivity.
Qed.

(** [s.strip()] of a text without white space. *)
Lemma strip_nospace s : existsb isspace s = false -> strip s = s.
Proof.
  intros H. unfold strip, rstrip. rewrite (lstrip_nospace s H).
  rewrite lstrip_nospace by (rewrite existsb_rev; exact H).
  apply rev_involutive.
Qed.

Lemma scan_from_app w1 : forall w2 i sv,
  scan_from i (w1 ++ w2) sv = scan_from (i + length w1) w2 (scan_from i w1 sv).
Proof.
  induction w1 as [ | c w1 IH]; intros w2 i sv; simpl.
  - rewrite Nat.add_0_r. reflexivity.
  - rewrite IH. f_equal. lia.
Qed.

(** The scan passes over the characters of names and durations. *)
Lemma scan_char_quiet i c s v :
  escape_next s = false -> name_part_char c = true ->
  scan_char i c (s, v) = (s, v).
Proof.
  intros He Hc. unfold scan_char. rewrite He.
  destruct c as [[] [] [] [] [] [] [] []]; try discriminate Hc;
    cbv beta iota delta [eqb_chr Ascii.eqb Bool.eqb bslash dq chr ascii_of_N
                         ascii_of_pos andb];
    destruct (in_string s); reflexivity.
Qed.

Lemma scan_from_quiet w : forall i s v,
  escape_next s = false -> forallb name_part_char w = true ->
  scan_from i w (s, v) = (s, v).
Proof.
  induction w as [ | c w IH]; intros i s v He Hw; [reflexivity | ].
  simpl in Hw. apply andb_prop in Hw. destruct Hw as [Hc Hw].
  change (scan_from i (c :: w) (s, v)) with (scan_from (S i) w (scan_char i c (s, v))).
  rewrite (scan_char_quiet i c s v He Hc). apply IH; assumption.
Qed.

(** What a match of [func_pattern] reads and records. *)
Lemma func_pattern_match st st' :
  matches true func_pattern st st' ->
  exists id ws,
    identifier id /\ forallb isspace ws = true /\
    rest st = id ++ ws ++ "("%char :: rest st' /\
    caps st' = (1, id) :: caps st.
Proof.
  unfold func_pattern. intros M.
  match type of M with
  | matches _ (Seqs [Group 1 ?r1; ?r2; ?r3]) _ _ =>
      change (Seqs [Group 1 r1; r2; r3]) with (Seq (Group 1 r1) (Seq r2 r3)) in M
  end.
  destruct M as (m1 & M1 & m2 & M2 & M3).
  apply matches_group in M1; [ | reflexivity].
  destruct M1 as (w & L & S1 & C1).
  apply (matches_plain true spaces eq_refl) in M2.
  destruct M2 as (ws & Lw & S2 & C2). apply lang_spaces in Lw.
  apply (matches_plain true (Chr "("%char) eq_refl) in M3.
  destruct M3 as (w3 & (c & -> & Hc) & S3 & C3).
  rewrite paren_match in Hc. apply eqb_chr_eq in Hc. subst c.
  destruct L as (w1 & w2 & -> & (c & -> & Hc) & L2). apply lang_star_cls in L2.
  rewrite ident_start_match in Hc.
  rewrite (forallb_ext_eq _ _ _ ident_char_match) in L2.
  exists ([c] ++ w2), ws. split; [exists c, w2; auto | ]. split; [exact Lw | ].
  destruct S1 as [E1 _], S2 as [E2 _], S3 as [E3 _].
  split; [rewrite E1, E2, E3, <- !app_assoc; reflexivity | ].
  rewrite C3, C2, C1. reflexivity.
Qed.

Lemma consumed_app st w st' : rest st = w ++ rest st' -> consumed st st' = w.
Proof.
  intros E. unfold consumed. rewrite E, length_app.
  replace (length w + length (rest st') - length (rest st')) with (length w) by lia.
  rewrite firstn_app, firstn_all, Nat.sub_diag. simpl. apply app_nil_r.
Qed.

Lemma func_pattern_needs_paren w :
  lang true func_pattern w -> existsb (eqb_chr "("%char) w = true.
Proof.
  intros L. apply lang_Seqs in L. destruct L as (ws & -> & H). forall2_inv.
  match goal with
  | H : lang true (Chr _) _ |- _ => destruct H as (c & -> & Hc)
  end.
  rewrite paren_match in Hc. apply eqb_chr_eq in Hc. subst c.
  cbn [concat]. rewrite !existsb_app. simpl. rewrite !orb_true_r. reflexivity.
Qed.

Lemma operator_special c :
  existsb (eqb_chr c) (lit "+-*/") = true -> special c = true.
Proof. destruct c as [[] [] [] [] [] [] [] []]; try discriminate; reflexivity. Qed.

Lemma double_operator_needs w :
  lang false double_operator w ->
  existsb (fun c => existsb (eqb_chr c) (lit "+-*/")) w = true.
Proof.
  unfold double_operator. cbv zeta. apply lang_Seqs_head.
  intros x (c & -> & Hc). simpl. rewrite orb_false_r. exact Hc.
Qed.

Lemma misplaced_offset_needs w :
  lang true misplaced_offset_pattern w -> existsb isspace w = true.
Proof.
  intros L. apply lang_Seqs in L. destruct L as (ws & -> & H). forall2_inv.
  match goal with
  | H : lang true (Plus space) _ |- _ =>
      apply lang_plus_cls in H; destruct H as [Hne Hsp]
  end.
  rewrite (forallb_ext_eq _ _ _ (space_match true)) in Hsp.
  cbn [concat]. rewrite !existsb_app.
  match goal with
  | Hne : ?x <> [] |- _ =>
      destruct x as [ | c x']; [congruence | ]; simpl in Hsp;
      apply andb_prop in Hsp; destruct Hsp as [Hc _]
  end.
  cbn [existsb]. rewrite Hc. rewrite ?orb_true_r. reflexivity.
Qed.

Section RateQuery.

Variables (f : string) (name dur : str).
Hypothesis Hf : In f rate_functions.
Hypothesis Hname : is_metric_name name = true.
Hypothesis Hdur : is_duration dur = true.

Lemma rate_function_quiet : forallb name_part_char (lit f) = true.
Proof.
  pose proof Hf as H. simpl in H.
  repeat (destruct H as [<- | H]; [reflexivity | ]). destruct H.
Qed.

Lemma name_start_part c : name_start_char c = true -> name_part_char c = true.
Proof. intros H. unfold name_part_char. rewrite H. reflexivity. Qed.

Lemma metric_name_quiet : forallb name_part_char name = true.
Proof.
  destruct name as [ | c cs]; [discriminate | ]. simpl in *.
  apply andb_prop in Hname. destruct Hname as [Hc Hcs].
  rewrite (name_start_part c Hc). exact Hcs.
Qed.

Lemma digit_part c : isdecimal c = true -> name_part_char c = true.
Proof. intros H. unfold name_part_char. rewrite H. apply orb_true_r. Qed.

Lemma digit_not_colon c : isdecimal c = true -> eqb_chr colon c = false.
Proof. destruct c as [[] [] [] [] [] [] [] []]; try discriminate; reflexivity. Qed.

Lemma duration_quiet :
  forallb name_part_char dur = true /\ existsb (eqb_chr colon) dur = false.
Proof.
  apply is_duration_grammar in Hdur. destruct Hdur as (ds & u & -> & _ & Hds & Hu).
  rewrite forallb_app, existsb_app.
  assert (H1 : forallb name_part_char ds = true /\ existsb (eqb_chr colon) ds = false).
  { clear - Hds. induction ds as [ | c cs IH]; [auto | ]. cbn [forallb existsb] in *.
    apply andb_prop in Hds. destruct Hds as [Hc Hcs].
    rewrite (digit_part c Hc), (digit_not_colon c Hc). auto. }
  assert (H2 : forallb name_part_char (lit u) = true
               /\ existsb (eqb_chr colon) (lit u) = false).
  { clear - Hu. simpl in Hu.
    repeat (destruct Hu as [<- | Hu]; [split; reflexivity | ]). destruct Hu. }
  destruct H1 as [-> ->], H2 as [-> ->]. auto.
Qed.

(** The query has none of the special characters but its own four
    delimiters. *)
Lemma rate_query_lacks (p : ascii -> bool) :
  (forall c, p c = true -> special c = true) ->
  p "("%char = false -> p "["%char = false -> p "]"%char = false ->
  p ")"%char = false ->
  existsb p (rate_query f name dur) = false.
Proof.
  intros Hp H1 H2 H3 H4. unfold rate_query.
  assert (Hq : forall w, forallb name_part_char w = true -> existsb p w = false).
  { intros w Hw. apply (existsb_weaken p special w Hp). apply quiet_no_special, Hw. }
  rewrite existsb_app, (Hq _ rate_function_quiet). cbn [existsb orb]. rewrite H1.
  rewrite existsb_app, (Hq _ metric_name_quiet). cbn [existsb orb]. rewrite H2.
  rewrite existsb_app, (Hq _ (proj1 duration_quiet)).
  change (lit "])") with ["]"%char; ")"%char]. cbn [existsb orb].
  rewrite H3, H4. reflexivity.
Qed.

Lemma quiet_lacks a w :
  special a = true -> forallb name_part_char w = true -> ~ In a w.
Proof.
  intros Ha Hw Hin. rewrite forallb_forall in Hw.
  rewrite (name_part_not_special a (Hw a Hin)) in Ha. discriminate.
Qed.

Lemma rate_query_nospace : existsb isspace (rate_query f name dur) = false.
Proof.
  apply rate_query_lacks; try reflexivity.
  intros c H. unfold special. rewrite H. reflexivity.
Qed.

Lemma rate_query_lacks_chr a :
  special a = true -> existsb (eqb_chr a) (lit "([])") = false ->
  existsb (eqb_chr a) (rate_query f name dur) = false.
Proof.
  intros Ha H. change (lit "([])") with ["("%char; "["%char; "]"%char; ")"%char] in H.
  cbn [existsb] in H.
  apply orb_false_elim in H. destruct H as [H1 H].
  apply orb_false_elim in H. destruct H as [H2 H].
  apply orb_false_elim in H. destruct H as [H3 H].
  apply orb_false_elim in H. destruct H as [H4 _].
  apply rate_query_lacks; auto.
  intros c Hc. apply eqb_chr_eq in Hc. subst. exact Ha.
Qed.

(** The delimiters of the query are balanced. *)
Lemma balanced_rate_query v :
  query v = rate_query f name dur -> check_balanced_delimiters v = v.
Proof.
  intros Hq. unfold check_balanced_delimiters. rewrite Hq. unfold rate_query.
  rewrite scan_from_app, (scan_from_quiet (lit f))
    by first [reflexivity | exact rate_function_quiet].
  set (i1 := 0 + length (lit f)).
  match goal with
  | |- context [scan_from i1 (_ :: ?X) _] =>
      change (scan_from i1 ("("%char :: X) (scan0, v))
        with (scan_from (S i1) X (Scan [] [] [i1] false false, v))
  end.
  rewrite scan_from_app, (scan_from_quiet name)
    by first [reflexivity | exact metric_name_quiet].
  set (i2 := S i1 + length name).
  match goal with
  | |- context [scan_from i2 (_ :: ?X) _] =>
      change (scan_from i2 ("["%char :: X) (Scan [] [] [i1] false false, v))
        with (scan_from (S i2) X (Scan [i2] [] [i1] false false, v))
  end.
  rewrite scan_from_app, (scan_from_quiet dur)
    by first [reflexivity | exact (proj1 duration_quiet)].
  reflexivity.
Qed.

Lemma sub_needs ic r repl (p : ascii -> bool) s :
  (forall w, lang ic r w -> existsb p w = true) ->
  existsb p s = false -> sub ic r repl s = s.
Proof.
  intros Hw Hs. unfold sub. simpl.
  rewrite (search_at_needs ic r p Hw s None 0 Hs). reflexivity.
Qed.

(** Without a quote and a brace, the selector checks find nothing. *)
Lemma check_metric_selectors_rate v :
  query v = rate_query f name dur -> check_metric_selectors v = v.
Proof.
  intros Hq. unfold check_metric_selectors, check_utf8_metric_syntax. cbv zeta.
  rewrite Hq.
  rewrite (sub_needs false string_literal _ (eqb_chr dq) _
             (fun w => lang_Seqs_head false _ _ w _ (lang_Chr_has dq))
             (rate_query_lacks_chr dq eq_refl eq_refl)).
  rewrite (search_needs false empty_matcher (eqb_chr "{"%char) _
             (fun w => lang_Seqs_head false _ _ w _ (lang_Chr_has "{"%char))
             (rate_query_lacks_chr "{"%char eq_refl eq_refl)).
  cbv beta iota. rewrite ?Hq.
  rewrite (finditer_needs false utf8_selector_pattern (eqb_chr "{"%char) _
             (fun w => lang_Seqs_head false _ _ w _ (lang_Chr_has "{"%char))
             (rate_query_lacks_chr "{"%char eq_refl eq_refl)).
  rewrite (finditer_needs false wrong_utf8_pattern (eqb_chr "{"%char) _
             (fun w => lang_Seqs_head false _ _ w _ (lang_Chr_has "{"%char))
             (rate_query_lacks_chr "{"%char eq_refl eq_refl)).
  reflexivity.
Qed.

Lemma flat_map_nil {A B} (g : A -> list B) l :
  (forall x, In x l -> g x = []) -> flat_map g l = [].
Proof.
  induction l as [ | x l IH]; intros H; [reflexivity | ]. simpl.
  rewrite (H x (or_introl eq_refl)), IH; [reflexivity | ].
  intros y Hy. apply H. right. exact Hy.
Qed.

Lemma not_In_chr a w : ~ In a w <-> existsb (eqb_chr a) w = false.
Proof.
  pose proof (In_chr a w) as H. destruct (existsb (eqb_chr a) w).
  - split; [intros Hn; destruct Hn; apply H; reflexivity | discriminate].
  - split; [reflexivity | ]. intros _ Hin. apply H in Hin. discriminate.
Qed.

(** The only bracketed span of the query is its duration. *)
Lemma rate_query_span span :
  bracketed_span (rate_query f name dur) span -> span = dur.
Proof.
  intros (_ & Hclose & pre & suf & E). unfold rate_query in E.
  assert (E1 : (lit f ++ "("%char :: name) ++ "["%char :: (dur ++ lit "])")
               = pre ++ "["%char :: (span ++ "]"%char :: suf))
    by (rewrite <- app_assoc; exact E).
  symmetry in E1. apply split_unique in E1.
  - destruct E1 as [_ E2].
    change (dur ++ lit "])") with (dur ++ "]"%char :: [")"%char]) in E2.
    apply split_unique in E2.
    + destruct E2 as [E2 _]. exact E2.
    + apply (quiet_lacks "]"%char _ eq_refl (proj1 duration_quiet)).
    + intros [H | []]. discriminate.
  - apply not_in_app; [apply (quiet_lacks "["%char _ eq_refl rate_function_quiet) | ].
    intros [H | H]; [discriminate | ].
    exact (quiet_lacks "["%char _ eq_refl metric_name_quiet H).
  - apply not_in_app; [apply (quiet_lacks "["%char _ eq_refl (proj1 duration_quiet)) | ].
    apply not_In_chr. reflexivity.
Qed.

Lemma duration_span_errors : span_errors dur = [].
Proof.
  unfold span_errors. cbv zeta.
  rewrite strip_nospace.
  - assert (Hc : colons dur = 0).
    { unfold colons. pose proof (existsb_count colon dur) as H.
      rewrite (proj2 duration_quiet) in H.
      destruct (count_occ ascii_dec dur colon); [reflexivity | discriminate]. }
    rewrite Hc, Hdur. reflexivity.
  - apply (existsb_weaken isspace special).
    + intros c H. unfold special. rewrite H. reflexivity.
    + apply quiet_no_special, duration_quiet.
Qed.

Lemma check_time_ranges_rate v :
  query v = rate_query f name dur -> check_time_ranges v = v.
Proof.
  intros Hq. unfold check_time_ranges.
  rewrite (for_each_errors time_range_one span_errors _ time_range_one_errors).
  rewrite flat_map_nil; [apply validator_eta | ].
  intros span Hin. rewrite Hq in Hin. apply range_pattern_spans in Hin.
  rewrite (rate_query_span span Hin). apply duration_span_errors.
Qed.

Lemma rate_function_call_word : lang true func_pattern (lit f ++ ["("%char]).
Proof.
  apply lang_Seqs. exists [lit f; []; ["("%char]].
  split; [cbn [concat]; rewrite app_nil_r; reflexivity | ].
  forall2_intro.
  - cbn [lang]. pose proof Hf as H. simpl in H.
    repeat (destruct H as [<- | H];
            [eexists [_], _; split; [reflexivity | ];
             split; [eexists; split; reflexivity | apply lang_star_cls; reflexivity] | ]).
    destruct H.
  - apply lang_spaces. reflexivity.
  - exists "("%char. split; reflexivity.
Qed.

Lemma rate_function_registered order : unknown_function_errors order (lit f) = [].
Proof.
  unfold unknown_function_errors. cbv zeta.
  assert (H : mem (lower (lit f)) NON_FUNCTION_KEYWORDS || mem (lower (lit f)) FUNCTIONS
              = true).
  { pose proof Hf as H. simpl in H.
    repeat (destruct H as [<- | H]; [vm_compute; reflexivity | ]). destruct H. }
  rewrite H. reflexivity.
Qed.

(** The only identifier before a parenthesis is the function. *)
Lemma rate_query_functions :
  findall1 true func_pattern (rate_query f name dur) = [lit f].
Proof.
  set (tail := name ++ "["%char :: dur ++ lit "])").
  assert (Eq : rate_query f name dur = lit f ++ "("%char :: tail) by reflexivity.
  assert (Htail' : ~ In "("%char tail).
  { unfold tail.
    apply not_in_app; [apply (quiet_lacks "("%char _ eq_refl metric_name_quiet) | ].
    intros [H | H]; [discriminate | ]. apply in_app_or in H. destruct H as [H | H].
    - exact (quiet_lacks "("%char _ eq_refl (proj1 duration_quiet) H).
    - apply In_chr in H. discriminate. }
  pose proof (proj1 (not_In_chr _ _) Htail') as Htail.
  set (st0 := MState None (rate_query f name dur) []).
  destruct (rmatch true func_pattern Some st0) as [st1 | ] eqn:E.
  - destruct (rmatch_sound _ _ _ _ _ E) as (st' & M & K). inversion K; subst st'.
    destruct (func_pattern_match _ _ M) as (id & ws & Hid & Hws & Er & Ec).
    simpl rest in Er. rewrite Eq in Er.
    assert (E2 : (id ++ ws) ++ "("%char :: rest st1 = lit f ++ "("%char :: tail)
      by (rewrite <- app_assoc; symmetry; exact Er).
    apply split_unique in E2;
      [ | apply (quiet_lacks "("%char _ eq_refl rate_function_quiet)
        | exact Htail' ].
    destruct E2 as [E2 E3].
    assert (Hw : ws = []).
    { destruct ws as [ | c ws] using rev_ind; [reflexivity | ].
      rewrite forallb_app in Hws. apply andb_prop in Hws. destruct Hws as [_ Hc].
      simpl in Hc. rewrite andb_true_r in Hc.
      assert (Hin : In c (lit f))
        by (rewrite <- E2, app_assoc; apply in_or_app; right; left; reflexivity).
      pose proof rate_function_quiet as Hq. rewrite forallb_forall in Hq.
      pose proof (name_part_not_special c (Hq c Hin)) as Hs.
      unfold special in Hs. rewrite Hc in Hs. discriminate. }
    subst ws. rewrite app_nil_r in E2. subst id.
    assert (Ect : consumed st0 st1 = lit f ++ ["("%char]).
    { apply consumed_app. unfold st0. simpl rest. rewrite Eq, E3, <- app_assoc.
      reflexivity. }
    unfold findall1, finditer. cbn [finditer_from search_at].
    destruct (rate_query f name dur) as [ | c0 q0] eqn:Eq0;
      [destruct (lit f); discriminate | ].
    cbn [search_at]. fold st0. rewrite <- Eq0. fold st0. rewrite E. cbn [m_text].
    rewrite Ect.
    destruct (lit f ++ ["("%char]) as [ | c1 t1] eqn:Ef; [destruct (lit f); discriminate | ].
    cbn [map m_start m_end]. rewrite E3.
    assert (Hnil : forall fuel pv off,
               finditer_from fuel true func_pattern pv tail off = []).
    { intros [ | fuel] pv off; [reflexivity | ]. cbn [finditer_from].
      rewrite (search_at_needs true func_pattern _ func_pattern_needs_paren _ _ _ Htail).
      reflexivity. }
    rewrite Hnil. unfold group. cbn [m_caps]. rewrite Ec. reflexivity.
  - exfalso.
    destruct (lang_matches true func_pattern eq_refl _ st0 tail
                rate_function_call_word) as (st' & M & _).
    + unfold st0. simpl rest. rewrite Eq, <- app_assoc. reflexivity.
    + revert E. apply (rmatch_complete true func_pattern Some st0 st' M). discriminate.
Qed.

Lemma check_function_syntax_rate order v :
  query v = rate_query f name dur -> check_function_syntax order v = v.
Proof.
  intros Hq. unfold check_function_syntax.
  rewrite (for_each_errors (function_one order) (unknown_function_errors order) _
             (function_one_errors order)).
  rewrite Hq, rate_query_functions. cbn [flat_map].
  rewrite rate_function_registered. rewrite <- Hq. apply validator_eta.
Qed.

Lemma check_operators_rate v :
  query v = rate_query f name dur -> check_operators v = v.
Proof.
  intros Hq. unfold check_operators. rewrite Hq.
  rewrite (search_needs false double_operator _ _ double_operator_needs);
    [reflexivity | ].
  apply rate_query_lacks; try reflexivity. exact operator_special.
Qed.

(** The query does not have the shape of a missing range vector: its
    argument ends with a bracket. *)
Lemma rate_query_has_range : ~ missing_range_shape (rate_query f name dur).
Proof.
  intros (pre & f' & ws1 & ws2 & nm & ws3 & block & ws4 & suf & E & _ & _
          & _ & H2 & Hn & H3 & Hblock & H4).
  set (arg := name ++ "["%char :: dur ++ ["]"%char]).
  assert (Eq : rate_query f name dur = lit f ++ "("%char :: arg ++ [")"%char]).
  { unfold rate_query, arg. rewrite <- app_assoc. cbn [app].
    rewrite <- app_assoc. reflexivity. }
  assert (Harg : ~ In ")"%char arg /\ ~ In "{"%char arg).
  { unfold arg. split.
    - apply not_in_app; [apply (quiet_lacks ")"%char _ eq_refl metric_name_quiet) | ].
      intros [H | H]; [discriminate | ]. apply in_app_or in H. destruct H as [H | H].
      + exact (quiet_lacks ")"%char _ eq_refl (proj1 duration_quiet) H).
      + apply In_chr in H. discriminate.
    - apply not_in_app; [apply (quiet_lacks "{"%char _ eq_refl metric_name_quiet) | ].
      intros [H | H]; [discriminate | ]. apply in_app_or in H. destruct H as [H | H].
      + exact (quiet_lacks "{"%char _ eq_refl (proj1 duration_quiet) H).
      + apply In_chr in H. discriminate. }
  destruct Harg as [Hparen Hbrace].
  rewrite Eq in E.
  assert (E1 : (pre ++ lit f' ++ ws1) ++ "("%char
                 :: (ws2 ++ nm ++ ws3 ++ block ++ ws4 ++ ")"%char :: suf)
               = lit f ++ "("%char :: arg ++ [")"%char])
    by (rewrite <- !app_assoc; symmetry; exact E).
  apply split_unique in E1.
  - destruct E1 as [_ E1].
    assert (Hb : block = []).
    { destruct Hblock as [-> | (b & -> & _)]; [reflexivity | ]. exfalso.
      assert (Hin : In "{"%char (arg ++ [")"%char])).
      { rewrite <- E1. apply in_or_app. right. apply in_or_app. right.
        apply in_or_app. right. left. reflexivity. }
      apply in_app_or in Hin. destruct Hin as [Hin | [Hin | []]];
        [exact (Hbrace Hin) | discriminate]. }
    subst block.
    assert (E2 : (ws2 ++ nm ++ ws3 ++ ws4) ++ ")"%char :: suf = arg ++ ")"%char :: [])
      by (rewrite <- E1, <- !app_assoc; reflexivity).
    apply split_unique in E2; [ | exact Hparen | intros []].
    destruct E2 as [E2 _].
    assert (Hin : In "["%char (ws2 ++ nm ++ ws3 ++ ws4)).
    { rewrite E2. unfold arg. apply in_or_app. right. left. reflexivity. }
    assert (Hsp : forall ws, forallb isspace ws = true -> ~ In "["%char ws).
    { intros ws Hws Hi. rewrite forallb_forall in Hws. specialize (Hws _ Hi).
      discriminate. }
    assert (Hnm : ~ In "["%char nm).
    { apply (quiet_lacks "["%char _ eq_refl).
      destruct nm as [ | c cs]; [discriminate | ]. simpl in Hn |- *.
      apply andb_prop in Hn. destruct Hn as [Hc Hcs].
      rewrite (name_start_part c Hc). exact Hcs. }
    repeat (apply in_app_or in Hin; destruct Hin as [Hin | Hin]);
      [exact (Hsp _ H2 Hin) | exact (Hnm Hin) | exact (Hsp _ H3 Hin)
      | exact (Hsp _ H4 Hin)].
  - apply (quiet_lacks "("%char _ eq_refl rate_function_quiet).
  - intros Hin. apply in_app_or in Hin. destruct Hin as [Hin | [Hin | []]];
      [ | discriminate].
    unfold arg in Hin. apply in_app_or in Hin. destruct Hin as [Hin | [Hin | Hin]];
      [exact (quiet_lacks "("%char _ eq_refl metric_name_quiet Hin) | discriminate | ].
    apply in_app_or in Hin. destruct Hin as [Hin | [Hin | []]];
      [exact (quiet_lacks "("%char _ eq_refl (proj1 duration_quiet) Hin) | discriminate].
Qed.

Lemma check_common_typos_rate v :
  query v = rate_query f name dur -> check_common_typos v = v.
Proof.
  intros Hq. unfold check_common_typos. cbv zeta. rewrite Hq.
  assert (E1 : search false missing_range_pattern (rate_query f name dur) = false).
  { destruct (search false missing_range_pattern (rate_query f name dur)) eqn:E;
      [ | reflexivity].
    apply missing_range_search in E. destruct (rate_query_has_range E). }
  rewrite E1.
  rewrite (search_needs true misplaced_offset_pattern _ _ misplaced_offset_needs
             rate_query_nospace).
  destruct (contains _ _); reflexivity.
Qed.

(** A rate function applied to a metric name with a range is accepted
    without a finding. *)
Lemma validate_rate_query order :
  validate order (rate_query f name dur) =
  mkReport "VALID" (rate_query f name dur) [] [] true.
Proof.
  unfold validate, init. rewrite (strip_nospace _ rate_query_nospace).
  set (v := Validator (rate_query f name dur) [] []).
  rewrite validate_on_unfold.
  assert (Hne : is_empty (query v) = false).
  { unfold v, rate_query. simpl. destruct (lit f) eqn:E; [ | reflexivity].
    pose proof Hf as H. simpl in H. clear - E H.
    repeat (destruct H as [<- | H]; [discriminate | ]). destruct H. }
  rewrite Hne. unfold later_checks.
  rewrite (balanced_rate_query v eq_refl), (check_metric_selectors_rate v eq_refl),
    (check_time_ranges_rate v eq_refl), (check_function_syntax_rate order v eq_refl),
    (check_operators_rate v eq_refl), (check_common_typos_rate v eq_refl).
  reflexivity.
Qed.

End RateQuery.

Lemma missing_range_shape_nonempty q : missing_range_shape q -> is_empty q = false.
Proof.
  intros (pre & f & ws1 & ws2 & name & ws3 & block & ws4 & suf & -> & _ & Hf & _).
  destruct pre; [ | reflexivity].
  destruct (rate_function_word f Hf) as (c & t & -> & _). reflexivity.
Qed.

(** [_check_common_typos] appends [missing_range_vector] exactly for the
    queries of that shape. *)
Lemma check_common_typos_missing v :
  (missing_range_shape (query v) ->
   In missing_range_vector (errors (check_common_typos v))) /\
  (~ missing_range_shape (query v) ->
   forall e, In e (errors (check_common_typos v)) ->
             In e (errors v) \/ ftype e = "misplaced_offset").
Proof.
  unfold check_common_typos. cbv zeta.
  pose proof (missing_range_search (query v)) as H.
  destruct (search false missing_range_pattern (query v)).
  - split; [intros _ | intros Hn; destruct Hn; apply H; reflexivity].
    fold missing_range_vector.
    destruct (contains _ _); [destruct (search true _ _) | ];
      unfold add_error; cbn [errors]; rewrite <- ?app_assoc;
      apply in_or_app; right; left; reflexivity.
  - split; [intros Hs; apply H in Hs; discriminate | intros _ e].
    destruct (contains _ _); [destruct (search true _ _) | ]; auto.
    unfold add_error. cbn [errors]. intros Hin. apply in_app_or in Hin.
    destruct Hin as [Hin | [<- | []]]; [left; exact Hin | right; reflexivity].
Qed.

Lemma later_checks_missing order v :
  missing_range_shape (query v) ->
  In missing_range_vector (errors (later_checks order v)).
Proof.
  intros Hs. unfold later_checks. apply check_common_typos_missing.
  destruct (check_operators_grows
              (check_function_syntax order (check_time_ranges (check_metric_selectors v))))
    as [E1 _].
  destruct (check_function_syntax_grows order (check_time_ranges (check_metric_selectors v)))
    as [E2 _].
  destruct (check_time_ranges_grows (check_metric_selectors v)) as [E3 _].
  destruct (check_metric_selectors_grows v) as [E4 _].
  rewrite E1, E2, E3, E4. exact Hs.
Qed.

(** C4, amended. [validate] reports the error [missing_range_vector], and
    [valid] is false, for every query that has, not after a word
    character, one of [rate], [irate], [increase], [delta], [idelta], an
    opening parenthesis, a metric name, optionally a brace block, and the
    closing parenthesis (with white space allowed in between);
    [_check_common_typos] appends that error for no other query. For
    every query [f(name[d])] with [f] one of the five functions, [name] a
    metric name (letters, digits, underscores, colons, not starting with
    a digit) and [d] a duration, [validate] returns the status [VALID],
    no error, no warning and [valid] true. *)
Theorem C4_missing_range_vector :
  (forall (order : list str) (q : str),
     missing_range_shape (strip q) ->
     In missing_range_vector (report_errors (validate order q)) /\
     valid (validate order q) = false) /\
  (forall v : validator,
     ~ missing_range_shape (query v) ->
     forall e, In e (errors (check_common_typos v)) ->
               In e (errors v) \/ ftype e = "misplaced_offset") /\
  (forall (order : list str) (f : string) (name dur : str),
     In f rate_functions -> is_metric_name name = true -> is_duration dur = true ->
     validate order (rate_query f name dur) =
       mkReport "VALID" (rate_query f name dur) [] [] true).
Proof.
  split; [ | split].
  - intros order q Hs.
    assert (Hin : In missing_range_vector (report_errors (validate order q))).
    { unfold validate, build_result. cbn [report_errors]. rewrite validate_on_unfold.
      change (query (init q)) with (strip q).
      rewrite (missing_range_shape_nonempty _ Hs).
      apply later_checks_missing.
      destruct (check_balanced_delimiters_grows (init q)) as [E _]. rewrite E. exact Hs. }
    split; [exact Hin | ].
    revert Hin. unfold validate, build_result. cbn [report_errors valid].
    destruct (errors (validate_on order (init q))); [intros [] | reflexivity].
  - intros v. apply check_common_typos_missing.
  - intros order f name dur Hf Hn Hd. apply validate_rate_query; assumption.
Qed.

Lemma C4_missing_range_vector_witness :
  (In "rate" rate_functions /\ is_metric_name (lit "metric_total") = true /\
   is_duration (lit "5m") = true) /\
  validate FUNCTIONS (rate_query "rate" (lit "metric_total") (lit "5m")) =
    mkReport "VALID" (lit "rate(metric_total[5m])") [] [] true.
Proof.
  split; [split; [left; reflexivity | split; reflexivity] | ].
  apply (proj2 (proj2 C4_missing_range_vector) FUNCTIONS "rate"
           (lit "metric_total") (lit "5m")).
  - left. reflexivity.
  - reflexivity.
  - reflexivity.
Defined.

(** C4, as stated, fails. In [rate(foo offset 5m)] the function is
    invoked without a range-vector bracket, and [validate] reports no
    error. In the second query [rate] is applied to a selector with a
    range of [5m], and [validate] reports an error, for the text of a
    label value. *)
Lemma C4_rate_without_range_accepted :
  (~ In "["%char (lit "rate(foo offset 5m)") /\
   report_errors (validate FUNCTIONS (lit "rate(foo offset 5m)")) = []) /\
  (map ftype
     (report_errors
        (validate FUNCTIONS (lit "rate(http_requests_total{path=`/a(b`}[5m])")))
   = ["unknown_function"] /\
   valid (validate FUNCTIONS (lit "rate(http_requests_total{path=`/a(b`}[5m])"))
   = false).
Proof.
  split; split.
  - intros H. apply In_chr in H. vm_compute in H. discriminate.
  - vm_compute. reflexivity.
  - vm_compute. reflexivity.
  - vm_compute. reflexivity.
Qed.

End MissingRange.

(** * Balanced delimiters *)

Section Delimiters.
Import Py Re SyntaxValidator SyntaxSpec.
Open Scope string_scope.
Open Scope nat_scope.
Open Scope list_scope.

Lemma open_after_snoc k seen ic :
  open_after k (seen ++ [ic]) = match_step k (open_after k seen) ic.
Proof. unfold open_after. rewrite fold_left_app. reflexivity. Qed.

Lemma is_empty_nil {A} (l : list A) : is_empty l = true -> l = [].
Proof. destruct l; [reflexivity | discriminate]. Qed.

Lemma add_error_errors f v :
  add_error f v = Validator (query v) (errors v ++ [f]) (warnings v).
Proof. reflexivity. Qed.

(** One character outside string literals: the stacks of the scan follow
    the matching of each kind, and a closer with nothing open is
    reported. *)
Lemma scan_char_visible i c b br p v seen :
  b = open_after bracket seen -> br = open_after brace seen ->
  p = open_after paren seen ->
  eqb_chr c bslash = false -> eqb_chr c dq = false ->
  scan_char i c (Scan b br p false false, v) =
  (Scan (open_after bracket (seen ++ [(i, c)]))
        (open_after brace (seen ++ [(i, c)]))
        (open_after paren (seen ++ [(i, c)])) false false,
   Validator (query v) (errors v ++ closing_findings seen (i, c)) (warnings v)).
Proof.
  intros Hb Hbr Hp E1 E2. rewrite !open_after_snoc, <- Hb, <- Hbr, <- Hp.
  unfold closing_findings, delimiters. cbn [flat_map]. rewrite <- Hb, <- Hbr, <- Hp.
  unfold scan_char. cbn [escape_next in_string brackets braces parens].
  rewrite E1, E2. unfold match_step, bracket, brace, paren.
  cbn [fst snd opener closer unmatched_type label].
  destruct (eqb_chr c "["%char) eqn:C1;
    [apply eqb_chr_eq in C1; subst c; cbn; rewrite (validator_eta v); reflexivity | ].
  destruct (eqb_chr c "]"%char) eqn:C2.
  { apply eqb_chr_eq in C2; subst c.
    destruct b as [ | x b]; cbn; [reflexivity | rewrite validator_eta; reflexivity]. }
  destruct (eqb_chr c "{"%char) eqn:C3;
    [apply eqb_chr_eq in C3; subst c; cbn; rewrite validator_eta; reflexivity | ].
  destruct (eqb_chr c "}"%char) eqn:C4.
  { apply eqb_chr_eq in C4; subst c.
    destruct br as [ | x br]; cbn; [reflexivity | rewrite validator_eta; reflexivity]. }
  destruct (eqb_chr c "("%char) eqn:C5;
    [apply eqb_chr_eq in C5; subst c; cbn; rewrite validator_eta; reflexivity | ].
  destruct (eqb_chr c ")"%char) eqn:C6.
  { apply eqb_chr_eq in C6; subst c.
    destruct p as [ | x p]; cbn; [reflexivity | rewrite validator_eta; reflexivity]. }
  cbn. rewrite validator_eta. reflexivity.
Qed.

(** The scan of [_check_balanced_delimiters] against the matching of the
    specification, from any state that agrees with the characters [seen]
    so far. *)
Lemma scan_from_matching cs : forall i b br p ins esc v seen,
  b = open_after bracket seen -> br = open_after brace seen ->
  p = open_after paren seen ->
  let r := scan_from i cs (Scan b br p ins esc, v) in
  let visible := outside_strings i ins esc cs in
  brackets (fst r) = open_after bracket (seen ++ visible) /\
  braces (fst r) = open_after brace (seen ++ visible) /\
  parens (fst r) = open_after paren (seen ++ visible) /\
  in_string (fst r) = ends_in_literal ins esc cs /\
  snd r = Validator (query v) (errors v ++ unmatched_findings seen visible)
            (warnings v).
Proof.
  induction cs as [ | c cs IH]; intros i b br p ins esc v seen Hb Hbr Hp.
  - cbn. rewrite app_nil_r, validator_eta. auto.
  - change (scan_from i (c :: cs) (Scan b br p ins esc, v))
      with (scan_from (S i) cs (scan_char i c (Scan b br p ins esc, v))).
    destruct esc.
    { exact (IH (S i) b br p ins false v seen Hb Hbr Hp). }
    destruct (eqb_chr c bslash) eqn:E1.
    { unfold scan_char. cbn [escape_next]. rewrite E1.
      cbn [outside_strings ends_in_literal]. rewrite E1.
      exact (IH (S i) b br p ins true v seen Hb Hbr Hp). }
    destruct (eqb_chr c dq) eqn:E2.
    { unfold scan_char. cbn [escape_next]. rewrite E1, E2.
      cbn [outside_strings ends_in_literal]. rewrite E1, E2.
      exact (IH (S i) b br p (negb ins) false v seen Hb Hbr Hp). }
    destruct ins.
    { unfold scan_char. cbn [escape_next in_string]. rewrite E1, E2.
      cbn [outside_strings ends_in_literal]. rewrite E1, E2.
      exact (IH (S i) b br p true false v seen Hb Hbr Hp). }
    rewrite (scan_char_visible i c b br p v seen Hb Hbr Hp E1 E2).
    cbn [outside_strings ends_in_literal unmatched_findings]. rewrite E1, E2.
    cbn zeta.
    destruct (IH (S i) _ _ _ false false
                (Validator (query v) (errors v ++ closing_findings seen (i, c))
                   (warnings v))
                (seen ++ [(i, c)]) eq_refl eq_refl eq_refl)
      as (H1 & H2 & H3 & H4 & H5).
    cbn zeta in H1, H2, H3, H4, H5. cbn [query errors warnings] in H5.
    rewrite <- !app_assoc in H1, H2, H3, H5. auto.
Qed.

Lemma rev_last {A} (l : list A) d :
  match rev l with
  | [] => l = []
  | x :: _ => last l d = x /\ is_empty l = false
  end.
Proof.
  destruct l as [ | a l] using rev_ind; [reflexivity | ].
  rewrite rev_app_distr. simpl. rewrite last_last. split; [reflexivity | ].
  destruct l; reflexivity.
Qed.

Lemma unclosed_one t what stack v :
  (if is_empty stack then v else add_error (unclosed t what (top stack)) v) =
  Validator (query v)
    (errors v ++ match rev stack with
                 | [] => []
                 | innermost :: _ => [unclosed t what innermost]
                 end)
    (warnings v).
Proof.
  pose proof (rev_last stack 0) as H. unfold top. destruct (rev stack) as [ | x l].
  - subst stack. symmetry. apply validator_eta.
  - destruct H as [-> ->]. reflexivity.
Qed.

(** [_check_balanced_delimiters] appends the findings that the
    specification asks for, and nothing else. *)
Lemma check_balanced_delimiters_spec v :
  check_balanced_delimiters v =
  Validator (query v) (errors v ++ delimiter_findings (query v)) (warnings v).
Proof.
  unfold check_balanced_delimiters, delimiter_findings, scan0. cbv zeta.
  pose proof (scan_from_matching (query v) 0 [] [] [] false false v []
                eq_refl eq_refl eq_refl) as H.
  cbv zeta in H. cbn [app] in H.
  destruct (scan_from 0 (query v) (Scan [] [] [] false false, v)) as [s v1].
  cbn [fst snd] in H. destruct H as (Hb & Hbr & Hp & Hs & ->).
  rewrite Hb, Hbr, Hp, Hs. rewrite !unclosed_one.
  cbn [query errors warnings].
  unfold unclosed_findings, delimiters, bracket, brace, paren. cbn [flat_map].
  cbn [unclosed_type label]. rewrite app_nil_r.
  destruct (ends_in_literal false false (query v)); unfold add_error, unclosed_string;
    cbn [query errors warnings app]; rewrite <- ?app_assoc; reflexivity.
Qed.

Lemma closing_findings_In seen i c f :
  In f (closing_findings seen (i, c)) <->
  exists k, In k delimiters /\ c = closer k /\ open_after k seen = [] /\
            f = unmatched (unmatched_type k) (label k) i.
Proof.
  unfold closing_findings. rewrite in_flat_map. cbn [fst snd]. split.
  - intros (k & Hk & Hin). exists k. split; [exact Hk | ].
    destruct (eqb_chr c (closer k)) eqn:E1; [ | destruct Hin].
    destruct (is_empty (open_after k seen)) eqn:E2; [ | destruct Hin].
    destruct Hin as [<- | []]. apply eqb_chr_eq in E1. apply is_empty_nil in E2. auto.
  - intros (k & Hk & -> & Ho & ->). exists k. split; [exact Hk | ].
    rewrite eqb_chr_refl, Ho. left. reflexivity.
Qed.

Lemma unmatched_findings_In cs : forall seen0 f,
  In f (unmatched_findings seen0 cs) <->
  exists seen ic later,
    cs = seen ++ ic :: later /\ In f (closing_findings (seen0 ++ seen) ic).
Proof.
  induction cs as [ | ic cs IH]; intros seen0 f; cbn [unmatched_findings].
  - split; [intros [] | ]. intros (seen & x & later & E & _).
    destruct seen; discriminate.
  - rewrite in_app_iff, IH. split.
    + intros [H | (seen & x & later & -> & H)].
      * exists [], ic, cs. rewrite app_nil_r. auto.
      * exists (ic :: seen), x, later. rewrite <- app_assoc in H. auto.
    + intros (seen & x & later & E & H). destruct seen as [ | y seen].
      * inversion E; subst. rewrite app_nil_r in H. left. exact H.
      * inversion E; subst. right. exists seen, x, later.
        rewrite <- app_assoc. auto.
Qed.

Lemma or_iff (A B C D : Prop) : (A <-> B) -> (C <-> D) -> (A \/ C <-> B \/ D).
Proof. tauto. Qed.

(** Each finding of the specification, spelled out. *)
Lemma delimiter_findings_In q f :
  In f (delimiter_findings q) <->
  (exists k i, In k delimiters /\ unmatched_closer q k i /\
               f = unmatched (unmatched_type k) (label k) i) \/
  (ends_in_literal false false q = true /\ f = unclosed_string) \/
  (exists k i, In k delimiters /\ innermost_unclosed q k i /\
               f = unclosed (unclosed_type k) (label k) i).
Proof.
  unfold delimiter_findings. cbv zeta. rewrite !in_app_iff.
  apply or_iff; [ | apply or_iff].
  - rewrite unmatched_findings_In. unfold unmatched_closer. split.
    + intros (seen & [i c] & later & E & H). apply closing_findings_In in H.
      destruct H as (k & Hk & -> & Ho & ->). exists k, i. split; [exact Hk | ].
      split; [exists seen, later; auto | reflexivity].
    + intros (k & i & Hk & (seen & later & E & Ho) & ->).
      exists seen, (i, closer k), later. split; [exact E | ].
      apply closing_findings_In. exists k. auto.
  - destruct (ends_in_literal false false q); split.
    + intros [<- | []]. auto.
    + intros [_ ->]. left. reflexivity.
    + intros [].
    + intros [H _]. discriminate.
  - unfold unclosed_findings, innermost_unclosed. rewrite in_flat_map. split.
    + intros (k & Hk & Hin). exists k.
      destruct (rev (open_after k (outside_strings 0 false false q)))
        as [ | i l] eqn:E; [destruct Hin | ].
      destruct Hin as [<- | []]. exists i. split; [exact Hk | ].
      split; [ | reflexivity]. exists (rev l).
      rewrite <- (rev_involutive (open_after k _)), E. reflexivity.
    + intros (k & i & Hk & (others & E) & ->). exists k. split; [exact Hk | ].
      rewrite E, rev_app_distr. left. reflexivity.
Qed.

(** The positions are positions of the query, and an open position holds
    an opener. *)
Lemma outside_strings_nth s : forall j ins esc i c,
  In (i, c) (outside_strings j ins esc s) ->
  j <= i /\ nth_error s (i - j) = Some c.
Proof.
  induction s as [ | a s IH]; intros j ins esc i c H; [destruct H | ].
  assert (Hrec : forall ins' esc', In (i, c) (outside_strings (S j) ins' esc' s) ->
                                    j <= i /\ nth_error (a :: s) (i - j) = Some c).
  { intros ins' esc' H'. destruct (IH _ _ _ _ _ H') as [Hle Hn]. split; [lia | ].
    replace (i - j) with (S (i - S j)) by lia. exact Hn. }
  cbn [outside_strings] in H.
  destruct esc; [eauto | ].
  destruct (eqb_chr a bslash); [eauto | ].
  destruct (eqb_chr a dq); [eauto | ].
  destruct ins; [eauto | ].
  destruct H as [H | H]; [ | eauto].
  inversion H; subst. split; [lia | ]. rewrite Nat.sub_diag. reflexivity.
Qed.

Lemma removelast_In {A} (x : A) l : In x (removelast l) -> In x l.
Proof.
  destruct l as [ | a l] using rev_ind; [auto | ].
  rewrite removelast_last. intros H. apply in_or_app. left. exact H.
Qed.

Lemma open_after_opener k cs : forall st i,
  In i (fold_left (match_step k) cs st) -> In i st \/ In (i, opener k) cs.
Proof.
  induction cs as [ | [j c] cs IH]; intros st i H; [left; exact H | ].
  cbn [fold_left] in H. apply IH in H. destruct H as [H | H]; [ | right; right; exact H].
  unfold match_step in H. cbn [fst snd] in H.
  destruct (eqb_chr c (opener k)) eqn:E1.
  - apply in_app_or in H. destruct H as [H | [<- | []]]; [left; exact H | ].
    apply eqb_chr_eq in E1. subst c. right. left. reflexivity.
  - destruct (eqb_chr c (closer k)); [left; apply removelast_In; exact H | left; exact H].
Qed.

Lemma delimiter_findings_typed q f :
  In f (delimiter_findings q) -> is_delimiter_finding f = true.
Proof.
  intros H. apply delimiter_findings_In in H.
  destruct H as [(k & i & Hk & _ & ->) | [[_ ->] | (k & i & Hk & _ & ->)]];
    try reflexivity; simpl in Hk;
    repeat (destruct Hk as [<- | Hk]; [reflexivity | ]); destruct Hk.
Qed.

Lemma later_error_not_delimiter f :
  error_of later_error_types f -> is_delimiter_finding f = false.
Proof.
  intros [_ H]. unfold is_delimiter_finding. simpl in H.
  repeat (destruct H as [<- | H]; [reflexivity | ]). destruct H.
Qed.

Lemma filter_all {A} (p : A -> bool) l :
  (forall x, In x l -> p x = true) -> filter p l = l.
Proof.
  induction l as [ | a l IH]; intros H; [reflexivity | ]. simpl.
  rewrite (H a (or_introl eq_refl)), IH; [reflexivity | ].
  intros x Hx. apply H. right. exact Hx.
Qed.

Lemma filter_none {A} (p : A -> bool) l :
  Forall (fun x => p x = false) l -> filter p l = [].
Proof.
  induction 1 as [ | a l Ha _ IH]; [reflexivity | ]. simpl. rewrite Ha. exact IH.
Qed.

(** The delimiter findings of a report are those of the specification. *)
Lemma validate_delimiter_findings order q :
  filter is_delimiter_finding (report_errors (validate order q))
  = delimiter_findings (strip q).
Proof.
  unfold validate, build_result. cbn [report_errors]. rewrite validate_on_unfold.
  change (query (init q)) with (strip q).
  destruct (is_empty (strip q)) eqn:E.
  - apply is_empty_nil in E. rewrite E. reflexivity.
  - destruct (later_checks_grows order (check_balanced_delimiters (init q)))
      as (_ & es & _ & -> & _ & Hes & _).
    rewrite check_balanced_delimiters_spec. cbn [errors query init app].
    rewrite filter_app, (filter_all _ _ (delimiter_findings_typed (strip q))).
    rewrite filter_none; [apply app_nil_r | ].
    eapply Forall_impl; [ | exact Hes]. exact later_error_not_delimiter.
Qed.

Lemma unbalanced_finding q :
  unbalanced q ->
  exists f, In f (delimiter_findings q) /\ ftype f <> "unclosed_string".
Proof.
  intros (k & i & Hk & [H | H]).
  - exists (unmatched (unmatched_type k) (label k) i). split.
    + apply delimiter_findings_In. left. exists k, i. auto.
    + simpl in Hk. repeat (destruct Hk as [<- | Hk]; [discriminate | ]). destruct Hk.
  - exists (unclosed (unclosed_type k) (label k) i). split.
    + apply delimiter_findings_In. right. right. exists k, i. auto.
    + simpl in Hk. repeat (destruct Hk as [<- | Hk]; [discriminate | ]). destruct Hk.
Qed.

(** C1, amended. Among the errors of the report of [validate], those of
    the delimiter check are, in this order: one [unmatched_*] finding for
    each closing bracket, brace or parenthesis outside string literals
    that has nothing of its kind open before it, at the position of that
    closer; [unclosed_string] if the query ends inside a literal; and one
    [unclosed_*] finding for each kind that has an opener left open at
    the end, at the position of the innermost such opener. Positions
    count from the start of the stripped query. So a query with an
    unmatched or unclosed delimiter gets [valid] false and at least one
    such finding. *)
Theorem C1_delimiter_findings : forall (order : list str) (q : str),
  filter is_delimiter_finding (report_errors (validate order q))
    = delimiter_findings (strip q) /\
  (unbalanced (strip q) ->
   valid (validate order q) = false /\
   exists f, In f (report_errors (validate order q)) /\
             is_delimiter_finding f = true /\ ftype f <> "unclosed_string") /\
  (forall f,
     In f (delimiter_findings (strip q)) <->
     (exists k i, In k delimiters /\ unmatched_closer (strip q) k i /\
                  f = unmatched (unmatched_type k) (label k) i) \/
     (ends_in_literal false false (strip q) = true /\ f = unclosed_string) \/
     (exists k i, In k delimiters /\ innermost_unclosed (strip q) k i /\
                  f = unclosed (unclosed_type k) (label k) i)) /\
  (forall k i, unmatched_closer (strip q) k i ->
               nth_error (strip q) i = Some (closer k)) /\
  (forall k i, innermost_unclosed (strip q) k i ->
               nth_error (strip q) i = Some (opener k)) /\
  (forall t what i,
     position (unmatched t what i) = Some i /\ position (unclosed t what i) = Some i).
Proof.
  intros order q.
  split; [apply validate_delimiter_findings | ].
  split; [ | split; [intros f; apply delimiter_findings_In | ] ].
  - intros Hu. destruct (unbalanced_finding _ Hu) as (f & Hin & Ht).
    assert (Hf : In f (report_errors (validate order q)) /\ is_delimiter_finding f = true).
    { rewrite <- (validate_delimiter_findings order q) in Hin. apply filter_In in Hin. exact Hin. }
    destruct Hf as [Hf Hd]. split; [ | exists f; auto].
    revert Hf. unfold validate, build_result. cbn [report_errors valid].
    destruct (errors (validate_on order (init q))); [intros [] | reflexivity].
  - split; [ | split; [ | intros; split; reflexivity] ].
    + intros k i (seen & later & E & _).
      assert (Hin : In (i, closer k) (outside_strings 0 false false (strip q)))
        by (rewrite E; apply in_or_app; right; left; reflexivity).
      apply outside_strings_nth in Hin. rewrite Nat.sub_0_r in Hin. apply Hin.
    + intros k i (others & E).
      assert (Hin : In i (open_after k (outside_strings 0 false false (strip q))))
        by (rewrite E; apply in_or_app; right; left; reflexivity).
      apply open_after_opener in Hin. destruct Hin as [[] | Hin].
      apply outside_strings_nth in Hin. rewrite Nat.sub_0_r in Hin. apply Hin.
Qed.

Lemma C1_delimiter_findings_witness :
  unbalanced (strip (lit "rate(x[5m)")) /\
  valid (validate FUNCTIONS (lit "rate(x[5m)")) = false.
Proof.
  assert (H : unbalanced (strip (lit "rate(x[5m)"))).
  { exists bracket, 6. split; [left; reflexivity | ]. right. exists []. reflexivity. }
  split; [exact H | ].
  exact (proj1 (proj1 (proj2 (C1_delimiter_findings FUNCTIONS (lit "rate(x[5m)"))) H)).
Defined.

(** C1, as stated, fails. The query [([] has an unclosed parenthesis and
    an unclosed bracket, and the report has two delimiter findings, not
    exactly one. *)
Lemma C1_two_unclosed_findings :
  unbalanced (lit "([") /\
  map (fun f => (ftype f, position f))
    (filter is_delimiter_finding (report_errors (validate FUNCTIONS (lit "(["))))
  = [("unclosed_bracket", Some 1); ("unclosed_paren", Some 0)].
Proof.
  split; [ | vm_compute; reflexivity].
  exists paren, 0. split; [right; right; left; reflexivity | ].
  right. exists []. reflexivity.
Qed.

End Delimiters.

(** * The groups of a match *)

Section Groups.
Import Py Re ReSem.

Variables (ic : bool) (T : str) (G : nat -> str -> Prop).

Lemma matches_caps_ok r : groups_in ic G r ->
  forall st st', matches ic r st st' ->
    (exists p, T = p ++ rest st) -> caps_ok T G (caps st) ->
    caps_ok T G (caps st').
Proof.
  induction r as [ | a | neg items | | r1 IH1 r2 IH2 | r1 IH1 r2 IH2
                 | r1 IH1 | n r1 IH1 | | r1 IH1 ]; simpl; intros Hg st st' M HT Hc.
  - subst. exact Hc.
  - apply step_rel_iff in M. destruct M as (c & _ & _ & ->). exact Hc.
  - apply step_rel_iff in M. destruct M as (c & _ & _ & ->). exact Hc.
  - apply step_rel_iff in M. destruct M as (c & _ & _ & ->). exact Hc.
  - destruct Hg as [Hg1 Hg2]. destruct M as (mid & M1 & M2).
    apply (IH2 Hg2 mid st' M2); [ | apply (IH1 Hg1 st mid M1 HT Hc)].
    destruct HT as (p & ->). destruct (matches_rest _ _ _ _ M1) as (w & ->).
    exists (p ++ w). rewrite <- app_assoc. reflexivity.
  - destruct Hg as [Hg1 Hg2]. destruct M as [M | M]; eauto.
  - induction M as [st | st st1 st2 M1 _ _ IH]; [exact Hc | ].
    apply IH; [ | apply (IH1 Hg st st1 M1 HT Hc)].
    destruct HT as (p & ->). destruct (matches_rest _ _ _ _ M1) as (w & ->).
    exists (p ++ w). rewrite <- app_assoc. reflexivity.
  - destruct Hg as [Hn Hg]. destruct M as (mid & M & ->).
    unfold set_cap. cbn [caps]. constructor; [ | apply (IH1 Hg st mid M HT Hc)].
    destruct (matches_lang _ _ _ _ M) as (w & L & S).
    rewrite (spans_consumed _ _ _ S). cbn [fst snd]. split; [ | apply Hn, L].
    destruct HT as (p & ->). destruct S as [E _]. rewrite E.
    exists p, (rest mid). reflexivity.
  - destruct M as [_ ->]. exact Hc.
  - destruct M as [_ ->]. exact Hc.
Qed.

Lemma match_of_caps_ok r m :
  groups_in ic G r -> match_of ic r None T m -> caps_ok T G (m_caps m).
Proof.
  intros Hg (pre & suf & E & M & _ & ->).
  apply (matches_caps_ok r Hg _ _ M); [exists pre; exact E | constructor].
Qed.

Lemma lookup_cap_In n cs w : lookup_cap n cs = Some w -> In (n, w) cs.
Proof.
  induction cs as [ | [i s] cs IH]; [discriminate | ]. simpl.
  destruct (Nat.eqb i n) eqn:E.
  - intros H. inversion H; subst. apply Nat.eqb_eq in E. subst. left. reflexivity.
  - intros H. right. apply IH, H.
Qed.

(** A group of a match of the text holds a part of the text that
    satisfies [G], or nothing. *)
Lemma group_ok r m n :
  groups_in ic G r -> match_of ic r None T m ->
  group n m = [] \/ (within T (group n m) /\ G n (group n m)).
Proof.
  intros Hg Hm. unfold group.
  destruct (lookup_cap n (m_caps m)) as [w | ] eqn:E; [right | left; reflexivity].
  apply lookup_cap_In in E. pose proof (match_of_caps_ok r m Hg Hm) as H.
  unfold caps_ok in H. rewrite Forall_forall in H. apply (H _ E).
Qed.

End Groups.

(** * When [check] returns *)

Section Returns.
Import Py Re ReSem BestPractices BestSpec.
Open Scope string_scope.
Open Scope nat_scope.
Open Scope list_scope.

Lemma digit_value c : isdecimal c = true -> (0 <= Z.of_N (ord c - 48) <= 9)%Z.
Proof.
  destruct c as [[] [] [] [] [] [] [] []]; try discriminate; intros _;
    vm_compute; split; discriminate.
Qed.

(** [int(s)] of a string of [n] digits is below [10 ^ n]. *)
Lemma int_of_digits_bound s : forall a,
  forallb isdecimal s = true -> (0 <= a)%Z ->
  (0 <= fold_left (fun acc c => 10 * acc + Z.of_N (ord c - 48)) s a
   < (a + 1) * 10 ^ Z.of_nat (length s))%Z.
Proof.
  induction s as [ | c s IH]; intros a Hs Ha.
  - simpl. lia.
  - simpl in Hs. apply andb_prop in Hs. destruct Hs as [Hc Hs].
    pose proof (digit_value c Hc) as Hd.
    cbn [fold_left length]. rewrite Nat2Z.inj_succ, Z.pow_succ_r by lia.
    specialize (IH (10 * a + Z.of_N (ord c - 48))%Z Hs ltac:(lia)).
    assert (0 < 10 ^ Z.of_nat (length s))%Z by (apply Z.pow_pos_nonneg; lia).
    nia.
Qed.

Lemma short_number_value T ds :
  short_numbers T -> within T ds -> forallb isdecimal ds = true ->
  (0 <= int_of_digits ds < 10 ^ 300)%Z.
Proof.
  intros Hs Hw Hd. specialize (Hs ds Hw Hd).
  pose proof (int_of_digits_bound ds 0 Hd ltac:(lia)) as H. unfold int_of_digits.
  assert (10 ^ Z.of_nat (length ds) <= 10 ^ 300)%Z
    by (apply Z.pow_le_mono_r; lia).
  lia.
Qed.

Lemma big_enough : (10 ^ 300 * 31536000 < float_limit * 60)%Z.
Proof. vm_compute. reflexivity. Qed.

Lemma float_limit_pos : (0 < float_limit)%Z.
Proof. vm_compute. reflexivity. Qed.

(** The conversions of a duration below [10 ^ 300] do not overflow. *)
Lemma duration_to_seconds_returns value unit :
  (0 <= value < 10 ^ 300)%Z ->
  exists seconds,
    duration_to_seconds value unit = Returned seconds /\
    (0 <= seconds <= value * 31536000)%Z.
Proof.
  intros Hv. pose proof big_enough as Hb. pose proof float_limit_pos as Hp.
  unfold duration_to_seconds.
  destruct (eqb unit (lit "ms")).
  - assert (E : (float_limit <=? value)%Z = false) by (apply Z.leb_gt; lia).
    rewrite E. eexists. split; [reflexivity | ].
    pose proof (Z.div_pos value 1000 ltac:(lia) ltac:(lia)).
    pose proof (Z.div_le_upper_bound value 1000 value ltac:(lia) ltac:(lia)). lia.
  - repeat match goal with
    | |- context [if ?b then _ else _] => destruct b
    end; eexists; (split; [reflexivity | lia]).
Qed.

Lemma true_div_returns seconds value b :
  (0 <= seconds <= value * 31536000)%Z -> (value < 10 ^ 300)%Z -> (60 <= b)%Z ->
  exists x, true_div seconds b = Returned x.
Proof.
  intros Hs Hv Hb. pose proof big_enough as Hbig. pose proof float_limit_pos as Hp.
  unfold true_div.
  assert (E : (float_limit * b <=? seconds)%Z = false) by (apply Z.leb_gt; nia).
  rewrite E. eexists. reflexivity.
Qed.

Lemma duration_to_minutes_returns value unit :
  (0 <= value < 10 ^ 300)%Z -> exists x, duration_to_minutes value unit = Returned x.
Proof.
  intros Hv. unfold duration_to_minutes.
  destruct (duration_to_seconds_returns value unit Hv) as (s & -> & Hs).
  apply (true_div_returns s value 60); lia.
Qed.

Lemma duration_to_hours_returns value unit :
  (0 <= value < 10 ^ 300)%Z -> exists x, duration_to_hours value unit = Returned x.
Proof.
  intros Hv. unfold duration_to_hours.
  destruct (duration_to_seconds_returns value unit Hv) as (s & -> & Hs).
  apply (true_div_returns s value 3600); lia.
Qed.

Lemma for_each_raising_returns {A} (body : A -> checker -> outcome checker) xs :
  (forall x, In x xs -> forall c, exists c', body x c = Returned c') ->
  forall c, exists c', for_each_raising body xs c = Returned c'.
Proof.
  induction xs as [ | x xs IH]; intros Hb c; [eexists; reflexivity | ].
  cbn [for_each_raising].
  destruct (Hb x (or_introl eq_refl) c) as (c1 & ->). cbn [bind].
  apply IH. intros y Hy. apply Hb. right. exact Hy.
Qed.

Lemma number_group_digits w : lang false (Plus digit) w -> number_group 1 w.
Proof.
  intros L _. apply lang_plus_cls in L. destruct L as [_ H].
  rewrite (forallb_ext_eq _ _ _ digit_match) in H. exact H.
Qed.

Lemma group_value T r m :
  short_numbers T -> groups_in false number_group r -> match_of false r None T m ->
  (0 <= int_of_digits (group 1 m) < 10 ^ 300)%Z.
Proof.
  intros Hs Hg Hm.
  destruct (group_ok false T number_group r m 1 Hg Hm) as [-> | [Hw Hd]].
  - vm_compute. split; [discriminate | reflexivity].
  - apply (short_number_value T); auto.
Qed.

Lemma subquery_pattern_groups : groups_in false number_group subquery_pattern.
Proof.
  unfold subquery_pattern. cbn.
  repeat split; try exact number_group_digits; intros w _ H; discriminate.
Qed.

Lemma ranged_call_groups :
  groups_in false number_group (ranged_call "irate" unit_letter) /\
  groups_in false number_group (ranged_call "rate" unit_name) /\
  groups_in false number_group (ranged_call "predict_linear" unit_name).
Proof.
  unfold ranged_call. cbn.
  repeat split; try exact number_group_digits; intros w _ H; discriminate.
Qed.

Lemma check_subquery_performance_returns c :
  short_numbers (query c) -> exists c', check_subquery_performance c = Returned c'.
Proof.
  intros Hs. unfold check_subquery_performance. apply for_each_raising_returns.
  intros x Hx c0. unfold findall4 in Hx. apply in_map_iff in Hx.
  destruct Hx as (m & <- & Hm). apply finditer_sound in Hm.
  pose proof (group_value _ _ m Hs subquery_pattern_groups Hm) as Hv.
  unfold subquery_one.
  destruct (duration_to_hours_returns _ (group 2 m) Hv) as (x & ->). cbn [bind].
  destruct (gt_int x (24 * 7)); eexists; reflexivity.
Qed.

Lemma check_irate_range_returns c :
  short_numbers (query c) -> exists c', check_irate_range c = Returned c'.
Proof.
  intros Hs. unfold check_irate_range. apply for_each_raising_returns.
  intros x Hx c0. unfold findall2 in Hx. apply in_map_iff in Hx.
  destruct Hx as (m & <- & Hm). apply finditer_sound in Hm.
  pose proof (group_value _ _ m Hs (proj1 ranged_call_groups) Hm) as Hv.
  unfold irate_one.
  destruct (duration_to_minutes_returns _ (group 2 m) Hv) as (x & ->). cbn [bind].
  destruct (gt_int x 5); eexists; reflexivity.
Qed.

Lemma check_rate_range_returns c :
  short_numbers (query c) -> exists c', check_rate_range c = Returned c'.
Proof.
  intros Hs. unfold check_rate_range. apply for_each_raising_returns.
  intros x Hx c0. unfold findall2 in Hx. apply in_map_iff in Hx.
  destruct Hx as (m & <- & Hm). apply finditer_sound in Hm.
  pose proof (group_value _ _ m Hs (proj1 (proj2 ranged_call_groups)) Hm) as Hv.
  unfold rate_one.
  destruct (duration_to_seconds_returns _ (group 2 m) Hv) as (x & -> & _). cbn [bind].
  destruct (x <? 120)%Z; eexists; reflexivity.
Qed.

Lemma check_predict_linear_range_returns c :
  short_numbers (query c) -> exists c', check_predict_linear_range c = Returned c'.
Proof.
  intros Hs. unfold check_predict_linear_range. apply for_each_raising_returns.
  intros x Hx c0. unfold findall2 in Hx. apply in_map_iff in Hx.
  destruct Hx as (m & <- & Hm). apply finditer_sound in Hm.
  pose proof (group_value _ _ m Hs (proj2 (proj2 ranged_call_groups)) Hm) as Hv.
  unfold predict_one.
  destruct (duration_to_minutes_returns _ (group 2 m) Hv) as (x & ->). cbn [bind].
  destruct (lt_int x 10); eexists; reflexivity.
Qed.

(** The checks return for a query without numbers of 300 digits. *)
Lemma run_checks_returns c :
  short_numbers (query c) -> exists c', run_checks c = Returned c'.
Proof.
  intros Hs. unfold run_checks. cbv zeta. fold (first_checks c).
  assert (H5 : short_numbers (query (first_checks c)))
    by (rewrite (proj1 (first_checks_grows c)); exact Hs).
  destruct (check_subquery_performance_returns _ H5) as (c6 & E6). rewrite E6. cbn [bind].
  assert (H6 : short_numbers (query c6))
    by (rewrite (proj1 (check_subquery_performance_grows _ _ E6)); exact H5).
  destruct (check_irate_range_returns _ H6) as (c7 & E7). rewrite E7. cbn [bind].
  assert (H7 : short_numbers (query c7))
    by (rewrite (proj1 (check_irate_range_grows _ _ E7)); exact H6).
  destruct (check_rate_range_returns _ H7) as (c8 & E8). rewrite E8. cbn [bind].
  assert (H8 : short_numbers (query c8))
    by (rewrite (proj1 (check_rate_range_grows _ _ E8)); exact H7).
  match goal with
  | |- context [check_predict_linear_range ?x] =>
      assert (H9 : short_numbers (query x))
  end.
  { rewrite (proj1 (check_deprecated_functions_grows _)),
      (proj1 (check_histogram_usage_grows _)),
      (proj1 (check_label_matcher_efficiency_grows _)),
      (proj1 (check_recording_rule_opportunity_grows _)),
      (proj1 (check_aggregation_best_practices_grows _)),
      (proj1 (check_unbounded_queries_grows _)). exact H8. }
  destruct (check_predict_linear_range_returns _ H9) as (c9 & E9). rewrite E9. cbn [bind].
  eexists. reflexivity.
Qed.

(** [check] returns a report for a query without numbers of 300
    digits. *)
Lemma check_returns q :
  short_numbers (strip q) -> exists r, check q = Returned r.
Proof.
  intros Hs. unfold check, check_on. change (query (init q)) with (strip q).
  destruct (is_empty (strip q)); [eexists; reflexivity | ].
  destruct (run_checks_returns (init q) Hs) as (c & ->). eexists. reflexivity.
Qed.

Lemma within_length T w : within T w -> length w <= length T.
Proof. intros (p & s & ->). rewrite !length_app. lia. Qed.

(** A query of less than 300 characters has no such number. *)
Lemma short_query_numbers q : length q < 300 -> short_numbers q.
Proof. intros H ds Hw _. apply within_length in Hw. lia. Qed.

End Returns.
(** * The status of the report of the best-practices checker *)

Section CheckerStatus.
Import Py Re BestPractices BestSpec.
Open Scope string_scope.
Open Scope nat_scope.
Open Scope list_scope.

(** The status that [_build_result] computes is the one that the
    findings of the instance call for, when the suggestions and the
    optimizations all have severity [info]. *)
Lemma build_result_status c :
  Forall (fun f => severity f = info) (suggestions c ++ optimizations c) ->
  status (build_result c) = collected_status c.
Proof.
  intros Hinfo. unfold collected_status, build_result, any. cbn [status].
  destruct (existsb (has_severity error) _); [reflexivity | ].
  destruct (existsb (has_severity warning) _); [reflexivity | ].
  rewrite existsb_info_nonempty by exact Hinfo.
  destruct (suggestions c), (optimizations c); reflexivity.
Qed.

(** C2. [check] returns a report for every query that has no number of
    300 digits or more (beyond that a conversion of a duration to a float
    raises [OverflowError]). A report that [check] returns holds the
    issues, the suggestions and the optimizations that the checks have
    collected on the instance, and its status is derived from them: it
    is [ERROR] if a collected finding has severity [error]; otherwise
    [WARNING] if one has severity [warning]; otherwise [CAN_BE_IMPROVED]
    if at least one suggestion or optimization of severity [info] was
    collected; otherwise [OPTIMIZED]. The four statuses occur: for
    [avg(my_metric{quantile="0.99"})] the checks collect an error and the
    status is [ERROR]; for [up], a warning and [WARNING]; for
    [x{job=~"api"}], one optimization and [CAN_BE_IMPROVED]; for
    [up{job="api"}], nothing and [OPTIMIZED]. *)
Theorem C2_status_derivation : forall q : str,
  (short_numbers (strip q) -> exists r, check q = Returned r) /\
  (forall r, check q = Returned r ->
     exists c,
       check_on (init q) = Returned c /\
       report_issues r = issues c /\
       report_suggestions r = suggestions c /\
       report_optimizations r = optimizations c /\
       status r = collected_status c /\
       status r = expected_status r) /\
  (exists r1 r2 r3 r4,
     check (lit "avg(my_metric{quantile=`0.99`})") = Returned r1 /\
     report_outline r1
     = ("ERROR", [("averaging_quantiles", error)],
        [("missing_aggregation_clause", info)], []) /\
     check (lit "up") = Returned r2 /\
     report_outline r2 = ("WARNING", [("high_cardinality", warning)], [], []) /\
     check (lit "x{job=~`api`}") = Returned r3 /\
     report_outline r3 = ("CAN_BE_IMPROVED", [], [], [("regex_to_exact", info)]) /\
     check (lit "up{job=`api`}") = Returned r4 /\
     report_outline r4 = ("OPTIMIZED", [], [], [])).
Proof.
  intros q. split; [apply check_returns | ]. split.
  - intros r H.
    destruct (check_inv _ _ H) as (c & E & -> & Hg).
    destruct Hg as (_ & ni & ns & no & _ & Hs & Ho & _ & Ps & Po).
    cbn [init suggestions optimizations app] in Hs, Ho.
    assert (Hinfo : Forall (fun f => severity f = info)
                      (suggestions c ++ optimizations c))
      by (rewrite Hs, Ho; apply Forall_app; auto).
    exists c. split; [exact E | ].
    split; [reflexivity | ]. split; [reflexivity | ]. split; [reflexivity | ].
    split; [apply build_result_status; exact Hinfo | ].
    change (expected_status (build_result c)) with (collected_status c).
    apply build_result_status. exact Hinfo.
  - do 4 eexists.
    repeat match goal with
    | |- _ /\ _ => split
    end; vm_compute; reflexivity.
Qed.

Lemma C2_status_derivation_witness :
  short_numbers (strip (lit "avg(my_metric{quantile=`0.99`})")) /\
  exists r c,
    check (lit "avg(my_metric{quantile=`0.99`})") = Returned r /\
    check_on (init (lit "avg(my_metric{quantile=`0.99`})")) = Returned c /\
    report_issues r = issues c /\
    status r = collected_status c.
Proof.
  assert (Hs : short_numbers (strip (lit "avg(my_metric{quantile=`0.99`})"))).
  { apply short_query_numbers. apply Nat.ltb_lt. reflexivity. }
  split; [exact Hs | ].
  destruct (proj1 (C2_status_derivation (lit "avg(my_metric{quantile=`0.99`})")) Hs)
    as (r & E).
  destruct (proj1 (proj2 (C2_status_derivation
                            (lit "avg(my_metric{quantile=`0.99`})"))) r E)
    as (c & Ec & Hi & _ & _ & Hst & _).
  exists r, c. auto.
Defined.

End CheckerStatus.

(** * Averages of quantiles: the finding *)

Section AveragingQuantilesFinding.
Import Py Re ReSem BestPractices BestSpec.
Open Scope string_scope.
Open Scope nat_scope.
Open Scope list_scope.

(** C3, amended. [check] returns a report for every query that has no
    number of 300 digits or more. When the query has the shape that the
    check looks for ([avg], white space, an opening parenthesis, no
    closing parenthesis up to an opening brace, no closing brace up to
    [quantile], white space, an equals sign) and [check] returns a
    report, the issues of the report hold the finding
    [averaging_quantiles], of severity [error], and the status is
    [ERROR]. A query in which [avg(] is applied to a selector with a
    [quantile=] label filter has that shape when the metric name has no
    closing parenthesis and no earlier label filter has a closing brace.
    For the query [avg(my_metric{quantile="0.99"})], [check] returns a
    report whose only finding of severity [error] is
    [averaging_quantiles], with the status [ERROR]. *)
Theorem C3_averaging_quantiles :
  (forall q : str, short_numbers (strip q) -> exists r, check q = Returned r) /\
  (forall (q : str) (r : Report),
     check q = Returned r -> quantile_average (strip q) ->
     In averaging_quantiles (report_issues r) /\
     ftype averaging_quantiles = "averaging_quantiles" /\
     severity averaging_quantiles = error /\
     status r = "ERROR") /\
  (forall name before value later,
     ~ In ")"%char name ->
     (forall f, In f before -> ~ In "}"%char (fst f) /\ ~ In "}"%char (snd f)) ->
     quantile_average
       (strip (lit "avg(" ++ selector name (before ++ (lit "quantile", value) :: later)
               ++ lit ")"))) /\
  (exists r,
     check (lit "avg(my_metric{quantile=`0.99`})") = Returned r /\
     error_findings r = [averaging_quantiles] /\
     status r = "ERROR").
Proof.
  split; [exact check_returns | ].
  split; [ | split; [exact avg_selector_shape | ] ].
  - intros q r H Hq.
    destruct (check_inv _ _ H) as (c & E & -> & _).
    unfold check_on in E. change (query (init q)) with (strip q) in E.
    rewrite (quantile_average_nonempty _ Hq) in E.
    apply run_checks_after_first in E.
    destruct E as (_ & ni & _ & _ & Hi & _).
    assert (Hin : In averaging_quantiles (issues c)).
    { rewrite Hi. apply in_or_app. left. apply first_checks_quantiles. exact Hq. }
    split; [exact Hin | ]. split; [reflexivity | ]. split; [reflexivity | ].
    unfold build_result. cbv zeta. cbn [status].
    assert (Ha : any (has_severity error) (issues c ++ suggestions c ++ optimizations c)
                 = true).
    { apply existsb_exists. exists averaging_quantiles. split; [ | reflexivity].
      apply in_or_app. left. exact Hin. }
    rewrite Ha. reflexivity.
  - eexists. split; [vm_compute; reflexivity | ]. split; vm_compute; reflexivity.
Qed.

Lemma C3_averaging_quantiles_witness :
  exists r,
    check (lit "avg (rate(m{le=`1`, quantile = `0.5`}[5m]))") = Returned r /\
    quantile_average (strip (lit "avg (rate(m{le=`1`, quantile = `0.5`}[5m]))")) /\
    In averaging_quantiles (report_issues r) /\ status r = "ERROR".
Proof.
  eexists. split; [vm_compute; reflexivity | ].
  assert (Hq : quantile_average (strip (lit "avg (rate(m{le=`1`, quantile = `0.5`}[5m]))"))).
  { exists [], (lit " "), (lit "rate(m"), (lit "le=`1`, "), (lit " "),
      (lit " `0.5`}[5m]))").
    split; [vm_compute; reflexivity | ].
    split; [reflexivity | ]. split; [reflexivity | ].
    split; intros H; apply In_chr in H; vm_compute in H; discriminate. }
  split; [exact Hq | ].
  destruct (proj1 (proj2 C3_averaging_quantiles)
              (lit "avg (rate(m{le=`1`, quantile = `0.5`}[5m]))") _
              ltac:(vm_compute; reflexivity) Hq) as (H1 & _ & _ & H2).
  split; [exact H1 | exact H2].
Defined.

(** C3, as stated, fails. In the query below [avg(] is applied to a
    selector with the label filters [a="}"] and [quantile="0.9"]; the
    closing brace inside the first value ends the scan of the check, and
    the report of [check] has no finding of severity [error]. *)
Lemma C3_brace_in_label_value :
  avg_of_quantile_selector (lit "avg(m{a=`}`,quantile=`0.9`})") /\
  exists r,
    check (lit "avg(m{a=`}`,quantile=`0.9`})") = Returned r /\
    error_findings r = [] /\
    ~ In averaging_quantiles (report_issues r) /\
    status r <> "ERROR".
Proof.
  split.
  { exists (lit "m"), [(lit "a", lit "}"); (lit "quantile", lit "0.9")], (lit "0.9").
    split; [vm_compute; reflexivity | right; left; reflexivity]. }
  eexists. split; [vm_compute; reflexivity | ].
  split; [vm_compute; reflexivity | ].
  split; [ | vm_compute; discriminate].
  intros H. vm_compute in H. repeat (destruct H as [H | H]; [discriminate | ]). exact H.
Qed.

End AveragingQuantilesFinding.

(** * [_levenshtein_distance] is a metric *)

Section LevenshteinMetric.
Import Py SyntaxValidator SyntaxSpec.
Open Scope nat_scope.
Open Scope list_scope.

Lemma lev_rec_nil_l y : lev_rec [] y = length y.
Proof. reflexivity. Qed.

Lemma differ_triangle (a b c : ascii) :
  (if eqb_chr a c then 0 else 1)
  <= (if eqb_chr a b then 0 else 1) + (if eqb_chr b c then 0 else 1).
Proof.
  destruct (eqb_chr a b) eqn:E1; destruct (eqb_chr b c) eqn:E2;
    destruct (eqb_chr a c) eqn:E3; try lia.
  apply eqb_chr_eq in E1. apply eqb_chr_eq in E2. subst.
  rewrite eqb_chr_refl in E3. discriminate.
Qed.

Lemma lev_rec_upper x : forall y, lev_rec x y <= Nat.max (length x) (length y).
Proof.
  induction x as [ | a x IHx]; intros y; [simpl; lia | ].
  destruct y as [ | b y]; [simpl; lia | ].
  rewrite lev_rec_cons. specialize (IHx y). simpl length.
  destruct (eqb_chr a b); lia.
Qed.

Lemma lev_rec_zero x : forall y, lev_rec x y = 0 <-> x = y.
Proof.
  induction x as [ | a x IHx]; intros y.
  - simpl. destruct y; simpl; split; intros H; try reflexivity; discriminate.
  - destruct y as [ | b y]; [simpl; split; intros H; discriminate | ].
    rewrite lev_rec_cons. specialize (IHx y). split.
    + intros H. destruct (eqb_chr a b) eqn:E.
      * apply eqb_chr_eq in E. subst b. f_equal. apply IHx. lia.
      * lia.
    + intros H. inversion H; subst. rewrite eqb_chr_refl.
      assert (lev_rec y y = 0) by (apply IHx; reflexivity). lia.
Qed.

Lemma lev_rec_step_l a x z : lev_rec (a :: x) z <= lev_rec x z + 1.
Proof.
  destruct z as [ | c z]; [rewrite !lev_rec_nil_r; simpl; lia | ].
  rewrite lev_rec_cons. lia.
Qed.

Lemma lev_rec_step_r x c z : lev_rec x (c :: z) <= lev_rec x z + 1.
Proof. rewrite (lev_rec_sym x (c :: z)), (lev_rec_sym x z). apply lev_rec_step_l. Qed.

Lemma lev_rec_step_both a x c z :
  lev_rec (a :: x) (c :: z) <= lev_rec x z + (if eqb_chr a c then 0 else 1).
Proof. rewrite lev_rec_cons. lia. Qed.

Lemma lev_rec_triangle_bounded n : forall x y z,
  length x + length y + length z <= n ->
  lev_rec x z <= lev_rec x y + lev_rec y z.
Proof.
  induction n as [ | n IH]; intros x y z Hn.
  - destruct x, y, z; simpl in *; lia.
  - destruct x as [ | a x].
    { pose proof (lev_rec_lower y z) as H. unfold abs_diff in H. simpl. lia. }
    destruct z as [ | c z].
    { pose proof (lev_rec_lower (a :: x) y) as H. unfold abs_diff in H.
      rewrite !lev_rec_nil_r. lia. }
    destruct y as [ | b y].
    { pose proof (lev_rec_upper (a :: x) (c :: z)) as H. rewrite lev_rec_nil_r.
      rewrite lev_rec_nil_l. lia. }
    simpl in Hn.
    pose proof (IH x (b :: y) (c :: z) ltac:(simpl; lia)) as H1.
    pose proof (IH (a :: x) (b :: y) z ltac:(simpl; lia)) as H2.
    pose proof (IH (a :: x) y (c :: z) ltac:(simpl; lia)) as H3.
    pose proof (IH (a :: x) y z ltac:(simpl; lia)) as H4.
    pose proof (IH x y (c :: z) ltac:(simpl; lia)) as H5.
    pose proof (IH x y z ltac:(simpl; lia)) as H6.
    pose proof (lev_rec_step_l a x (c :: z)) as S1.
    pose proof (lev_rec_step_r (a :: x) c z) as S2.
    pose proof (lev_rec_step_both a x c z) as S3.
    pose proof (differ_triangle a b c) as D.
    pose proof (lev_rec_cons a x b y) as E1.
    pose proof (lev_rec_cons b y c z) as E2.
    destruct (eqb_chr a b), (eqb_chr b c), (eqb_chr a c); lia.
Qed.

Lemma lev_rec_triangle x y z : lev_rec x z <= lev_rec x y + lev_rec y z.
Proof. apply (lev_rec_triangle_bounded (length x + length y + length z)). lia. Qed.

(** X1. [_levenshtein_distance] follows the recurrence of the Levenshtein
    distance: the distance to the empty string is the length, and two
    strings that end with [a] and [b] are at the least of a deletion, an
    insertion and a substitution, which is free when [a] is [b]. *)
Theorem X1_levenshtein_recurrence : forall (s t : str) (a b : ascii),
  levenshtein_distance s [] = length s /\
  levenshtein_distance [] t = length t /\
  levenshtein_distance (s ++ [a]) (t ++ [b]) =
    Nat.min (levenshtein_distance s (t ++ [b]) + 1)
      (Nat.min (levenshtein_distance (s ++ [a]) t + 1)
         (levenshtein_distance s t + (if eqb_chr a b then 0 else 1))).
Proof.
  intros s t a b. rewrite !levenshtein_distance_correct. unfold edit_distance.
  rewrite !rev_app_distr. simpl rev. simpl app.
  rewrite lev_rec_nil_r, lev_rec_nil_l, !length_rev, lev_rec_cons. auto.
Qed.

(** X2. [_levenshtein_distance] is a metric on strings: the distance is zero
    exactly between equal strings, it does not depend on the order of
    the two arguments, and it obeys the triangle inequality. *)
Theorem X2_levenshtein_metric : forall s t u : str,
  (levenshtein_distance s t = 0 <-> s = t) /\
  levenshtein_distance s t = levenshtein_distance t s /\
  levenshtein_distance s u <= levenshtein_distance s t + levenshtein_distance t u.
Proof.
  intros s t u. rewrite !levenshtein_distance_correct. unfold edit_distance.
  split; [ | split].
  - rewrite lev_rec_zero. split; [ | intros ->; reflexivity].
    intros H. rewrite <- (rev_involutive s), <- (rev_involutive t), H. reflexivity.
  - apply lev_rec_sym.
  - apply lev_rec_triangle.
Qed.

(** X3. The distance of [_levenshtein_distance] lies between the
    difference of the two lengths and the greater of them. *)
Theorem X3_levenshtein_bounds : forall s t : str,
  abs_diff (length s) (length t) <= levenshtein_distance s t /\
  levenshtein_distance s t <= Nat.max (length s) (length t).
Proof.
  intros s t. rewrite levenshtein_distance_correct. split.
  - apply edit_distance_lower.
  - unfold edit_distance. rewrite <- (length_rev s), <- (length_rev t).
    apply lev_rec_upper.
Qed.

(** X4. [_find_close_matches] returns the first three candidates, in the
    order of enumeration, whose distance to the word is at most 2: the
    comparison of the lengths that it makes first never changes the
    result. *)
Theorem X4_find_close_matches_first_three : forall (word : str) (candidates : list str),
  find_close_matches word candidates =
    firstn 3 (filter (fun c => levenshtein_distance word c <=? 2) candidates) /\
  length (find_close_matches word candidates) <= 3 /\
  (forall c, In c (find_close_matches word candidates) ->
     In c candidates /\ levenshtein_distance word c <= 2) /\
  (find_close_matches word candidates = [] <->
   forall c, In c candidates -> 2 < levenshtein_distance word c).
Proof.
  intros word candidates.
  assert (E : find_close_matches word candidates =
              firstn 3 (filter (fun c => levenshtein_distance word c <=? 2) candidates)).
  { unfold find_close_matches. f_equal. apply filter_ext. intros c.
    rewrite is_close_distance, levenshtein_distance_correct. reflexivity. }
  split; [exact E | ]. rewrite find_close_matches_suggestions.
  split; [apply suggestions_length | ]. split.
  - intros c H. rewrite levenshtein_distance_correct. apply suggestions_near. exact H.
  - rewrite suggestions_none. split; intros H c Hc;
      [rewrite levenshtein_distance_correct | rewrite <- levenshtein_distance_correct];
      apply H; exact Hc.
Qed.

End LevenshteinMetric.


(** * White space around the query *)

Section OuterSpace.
Import Py.
Open Scope list_scope.

Lemma lstrip_spaces ws s : forallb isspace ws = true -> lstrip (ws ++ s) = lstrip s.
Proof.
  induction ws as [ | c ws IH]; intros H; [reflexivity | ].
  simpl in H. apply andb_prop in H. destruct H as [Hc H].
  simpl. rewrite Hc. apply IH. exact H.
Qed.

Lemma lstrip_all_spaces ws : forallb isspace ws = true -> lstrip ws = [].
Proof.
  intros H. rewrite <- (app_nil_r ws). rewrite (lstrip_spaces ws [] H). reflexivity.
Qed.

Lemma lstrip_app s w :
  lstrip (s ++ w) = if forallb isspace s then lstrip w else lstrip s ++ w.
Proof.
  induction s as [ | c s IH]; [reflexivity | ].
  simpl. destruct (isspace c); [exact IH | reflexivity].
Qed.

Lemma forallb_rev {A} (p : A -> bool) l : forallb p (rev l) = forallb p l.
Proof.
  induction l as [ | a l IH]; [reflexivity | ].
  simpl. rewrite forallb_app, IH. simpl. rewrite andb_true_r. apply andb_comm.
Qed.

Lemma rstrip_spaces s ws : forallb isspace ws = true -> rstrip (s ++ ws) = rstrip s.
Proof.
  intros H. unfold rstrip. rewrite rev_app_distr, lstrip_spaces; [reflexivity | ].
  rewrite forallb_rev. exact H.
Qed.

Lemma strip_outer_spaces ws1 s ws2 :
  forallb isspace ws1 = true -> forallb isspace ws2 = true ->
  strip (ws1 ++ s ++ ws2) = strip s.
Proof.
  intros H1 H2. unfold strip. rewrite (lstrip_spaces _ _ H1), lstrip_app.
  destruct (forallb isspace s) eqn:E.
  - rewrite (lstrip_all_spaces _ H2), (lstrip_all_spaces _ E). reflexivity.
  - apply rstrip_spaces. exact H2.
Qed.

Lemma lstrip_split s : exists ws, forallb isspace ws = true /\ s = ws ++ lstrip s.
Proof.
  induction s as [ | c s (ws & H & E)]; [exists []; auto | ].
  simpl. destruct (isspace c) eqn:Hc.
  - exists (c :: ws). simpl. rewrite Hc, H. split; [reflexivity | ]. f_equal. exact E.
  - exists []. auto.
Qed.

Lemma rstrip_split s : exists ws, forallb isspace ws = true /\ s = rstrip s ++ ws.
Proof.
  destruct (lstrip_split (rev s)) as (ws & H & E). exists (rev ws).
  rewrite forallb_rev. split; [exact H | ].
  unfold rstrip. rewrite <- rev_app_distr, <- E. symmetry. apply rev_involutive.
Qed.

(** A text is what [strip] keeps of it, between two runs of white space. *)
Lemma strip_split s :
  exists ws1 ws2, forallb isspace ws1 = true /\ forallb isspace ws2 = true /\
                  s = ws1 ++ strip s ++ ws2.
Proof.
  destruct (lstrip_split s) as (ws1 & H1 & E1).
  destruct (rstrip_split (lstrip s)) as (ws2 & H2 & E2).
  exists ws1, ws2. split; [exact H1 | ]. split; [exact H2 | ].
  unfold strip. rewrite <- E2. exact E1.
Qed.

Lemma strip_idempotent s : strip (strip s) = strip s.
Proof.
  destruct (strip_split s) as (ws1 & ws2 & H1 & H2 & E).
  rewrite E at 2. symmetry. apply strip_outer_spaces; assumption.
Qed.

End OuterSpace.

Section OuterSpaceReports.
Import Py SyntaxValidator.
Open Scope list_scope.

Lemma validate_query order q : report_query (validate order q) = strip q.
Proof.
  unfold validate, build_result. cbn [report_query].
  destruct (validate_on_grows order (init q)) as [E _]. exact E.
Qed.

Lemma validate_of_strip order q q' : strip q = strip q' -> validate order q = validate order q'.
Proof. intros E. unfold validate, init. rewrite E. reflexivity. Qed.

(** X5. White space around the query does not change the report of
    [validate]: the report holds the query without it, and validating
    the query of a report gives the same report again. *)
Theorem X5_validate_ignores_outer_space :
  forall (order : list str) (ws1 q ws2 : str),
  forallb isspace ws1 = true -> forallb isspace ws2 = true ->
  validate order (ws1 ++ q ++ ws2) = validate order q /\
  report_query (validate order q) = strip q /\
  validate order (report_query (validate order q)) = validate order q.
Proof.
  intros order ws1 q ws2 H1 H2. split; [ | split].
  - apply validate_of_strip. apply strip_outer_spaces; assumption.
  - apply validate_query.
  - rewrite validate_query. apply validate_of_strip. apply strip_idempotent.
Qed.

Lemma X5_validate_ignores_outer_space_witness :
  forallb isspace (lit "  ") = true /\ forallb isspace [newline] = true /\
  validate FUNCTIONS (lit "  " ++ lit "up{}" ++ [newline]) = validate FUNCTIONS (lit "up{}").
Proof.
  split; [reflexivity | ]. split; [reflexivity | ].
  exact (proj1 (X5_validate_ignores_outer_space FUNCTIONS (lit "  ") (lit "up{}")
                  [newline] eq_refl eq_refl)).
Defined.

End OuterSpaceReports.

Section OuterSpaceChecks.
Import Py BestPractices.
Open Scope list_scope.

Lemma check_of_strip q q' : strip q = strip q' -> check q = check q'.
Proof. intros E. unfold check, init. rewrite E. reflexivity. Qed.

(** X6. White space around the query does not change the outcome of
    [check]: a report holds the query without it, and checking the
    query of a report gives the same report again. *)
Theorem X6_check_ignores_outer_space : forall ws1 q ws2 : str,
  forallb isspace ws1 = true -> forallb isspace ws2 = true ->
  check (ws1 ++ q ++ ws2) = check q /\
  (forall r, check q = Returned r ->
     report_query r = strip q /\ check (report_query r) = Returned r).
Proof.
  intros ws1 q ws2 H1 H2. split.
  - apply check_of_strip. apply strip_outer_spaces; assumption.
  - intros r H. destruct (check_inv _ _ H) as (c & _ & -> & Hq & _).
    assert (E : report_query (build_result c) = strip q) by exact Hq.
    split; [exact E | ]. rewrite E, <- H. apply check_of_strip. apply strip_idempotent.
Qed.

Lemma X6_check_ignores_outer_space_witness :
  forallb isspace [newline] = true /\ forallb isspace (lit "  ") = true /\
  check ([newline] ++ lit "up{}" ++ lit "  ") = check (lit "up{}").
Proof.
  split; [reflexivity | ]. split; [reflexivity | ].
  exact (proj1 (X6_check_ignores_outer_space [newline] (lit "up{}") (lit "  ")
                  eq_refl eq_refl)).
Defined.

End OuterSpaceChecks.

(** * Well-nested queries pass the delimiter scan *)

Section WellNested.
Import Py SyntaxValidator SyntaxSpec Nesting.
Open Scope string_scope.
Open Scope nat_scope.
Open Scope list_scope.

Lemma literal_body_scan body : forall esc i rest,
  literal_body esc body = true ->
  outside_strings i true esc (body ++ dq :: rest)
    = outside_strings (i + length body + 1) false false rest /\
  ends_in_literal true esc (body ++ dq :: rest) = ends_in_literal false false rest.
Proof.
  induction body as [ | c body IH]; intros esc i rest H.
  - destruct esc; [discriminate | ]. simpl. rewrite Nat.add_0_r, Nat.add_1_r. auto.
  - cbn [literal_body] in H. cbn [app outside_strings ends_in_literal length].
    replace (i + S (length body) + 1) with (S i + length body + 1) by lia.
    destruct esc; [apply IH; exact H | ].
    destruct (eqb_chr c bslash); [apply IH; exact H | ].
    destruct (eqb_chr c dq); [discriminate | ]. apply IH. exact H.
Qed.

Lemma ordinary_chars c :
  ordinary c = true ->
  eqb_chr c bslash = false /\ eqb_chr c dq = false /\
  forall k, In k delimiters ->
    eqb_chr c (opener k) = false /\ eqb_chr c (closer k) = false.
Proof.
  unfold ordinary. intros H. apply negb_true_iff in H.
  cbn [existsb lit list_ascii_of_string] in H.
  repeat (apply orb_false_elim in H; destruct H as [? H]).
  split; [assumption | ]. split; [assumption | ].
  intros k [<- | [<- | [<- | []]]]; split; assumption.
Qed.

Lemma unmatched_findings_app a : forall seen b,
  unmatched_findings seen (a ++ b)
    = unmatched_findings seen a ++ unmatched_findings (seen ++ a) b.
Proof.
  induction a as [ | x a IH]; intros seen b; simpl.
  - rewrite app_nil_r. reflexivity.
  - rewrite IH, <- !app_assoc. reflexivity.
Qed.

Lemma open_after_app k seen cs :
  open_after k (seen ++ cs) = fold_left (match_step k) cs (open_after k seen).
Proof. unfold open_after. apply fold_left_app. Qed.

(** What the scan sees of a well-nested text: it ends outside string
    literals, no closer arrives with nothing of its kind open, and what
    was open before is open after. *)
Lemma well_nested_visible w :
  well_nested w ->
  forall i,
    (forall rest,
       outside_strings i false false (w ++ rest)
         = outside_strings i false false w
           ++ outside_strings (i + length w) false false rest /\
       ends_in_literal false false (w ++ rest) = ends_in_literal false false rest) /\
    (forall k st, In k delimiters ->
       fold_left (match_step k) (outside_strings i false false w) st = st) /\
    (forall seen, unmatched_findings seen (outside_strings i false false w) = []).
Proof.
  induction 1 as [ | c Hc | c | body Hb | k w Hk Hw IH | u v Hu IHu Hv IHv ]; intros i.
  - simpl. rewrite Nat.add_0_r. auto.
  - destruct (ordinary_chars c Hc) as (Hbs & Hdq & Hd).
    cbn [app outside_strings ends_in_literal length]. rewrite Hbs, Hdq.
    rewrite Nat.add_1_r. repeat split.
    + intros k st Hin. destruct (Hd k Hin) as [Ho Hcl].
      cbn [fold_left]. unfold match_step. cbn [fst snd]. rewrite Ho, Hcl. reflexivity.
    + intros seen. cbn [unmatched_findings]. rewrite app_nil_r.
      unfold closing_findings. cbn [fst snd].
      apply flat_map_nil. intros k Hin. destruct (Hd k Hin) as [_ Hcl].
      rewrite Hcl. reflexivity.
  - cbn [app outside_strings ends_in_literal length].
    rewrite eqb_chr_refl. replace (i + 2) with (S (S i)) by lia. auto.
  - assert (E : forall rest, (dq :: body ++ [dq]) ++ rest = dq :: body ++ dq :: rest).
    { intros rest. simpl. rewrite <- app_assoc. reflexivity. }
    assert (Hq : eqb_chr dq bslash = false) by reflexivity.
    repeat split.
    + rewrite E. cbn [outside_strings]. rewrite Hq, eqb_chr_refl. cbn [negb].
      rewrite (proj1 (literal_body_scan body false (S i) rest Hb)).
      rewrite (proj1 (literal_body_scan body false (S i) [] Hb)).
      cbn [outside_strings app]. f_equal. cbn [length]. rewrite length_app. simpl. lia.
    + rewrite E. cbn [ends_in_literal]. rewrite Hq, eqb_chr_refl. cbn [negb].
      apply (proj2 (literal_body_scan body false 0 rest Hb)).
    + intros k st _. cbn [outside_strings]. rewrite Hq, eqb_chr_refl.
      cbn [negb]. rewrite (proj1 (literal_body_scan body false (S i) [] Hb)). reflexivity.
    + intros seen. cbn [outside_strings]. rewrite Hq, eqb_chr_refl.
      cbn [negb]. rewrite (proj1 (literal_body_scan body false (S i) [] Hb)). reflexivity.
  - destruct (IH (S i)) as (Happ & Hfold & Hun).
    assert (Hop : eqb_chr (opener k) bslash = false /\ eqb_chr (opener k) dq = false /\
                  eqb_chr (closer k) bslash = false /\ eqb_chr (closer k) dq = false /\
                  eqb_chr (closer k) (opener k) = false).
    { destruct Hk as [<- | [<- | [<- | []]]]; repeat split; reflexivity. }
    destruct Hop as (Ho1 & Ho2 & Hc1 & Hc2 & Hco).
    assert (Evis : forall rest,
               outside_strings i false false (opener k :: w ++ closer k :: rest)
               = (i, opener k) :: outside_strings (S i) false false w
                 ++ (S i + length w, closer k)
                 :: outside_strings (S (S i + length w)) false false rest).
    { intros rest. cbn [outside_strings]. rewrite Ho1, Ho2.
      f_equal. rewrite (proj1 (Happ (closer k :: rest))). f_equal.
      cbn [outside_strings]. rewrite Hc1, Hc2. reflexivity. }
    assert (E : forall rest, (opener k :: w ++ [closer k]) ++ rest
                             = opener k :: w ++ closer k :: rest).
    { intros rest. simpl. rewrite <- app_assoc. reflexivity. }
    repeat split.
    + rewrite E, !Evis. cbn [outside_strings app]. f_equal.
      rewrite <- app_assoc. f_equal. cbn [app]. f_equal. f_equal.
      cbn [length]. rewrite length_app. simpl. lia.
    + rewrite E. cbn [ends_in_literal]. rewrite Ho1, Ho2.
      rewrite (proj2 (Happ (closer k :: rest))). cbn [ends_in_literal].
      rewrite Hc1, Hc2. reflexivity.
    + intros k' st Hk'. rewrite Evis. cbn [outside_strings fold_left].
      rewrite fold_left_app, (Hfold k' _ Hk'). cbn [fold_left].
      unfold match_step. cbn [fst snd].
      destruct Hk as [<- | [<- | [<- | []]]];
        destruct Hk' as [<- | [<- | [<- | []]]];
        cbn [opener closer bracket brace paren];
        try reflexivity;
        try (rewrite !eqb_chr_refl;
             change (eqb_chr "]" "[") with false; change (eqb_chr "}" "{") with false;
             change (eqb_chr ")" "(") with false; cbv iota;
             apply removelast_last).
    + intros seen. rewrite Evis. cbn [outside_strings unmatched_findings].
      rewrite unmatched_findings_app, Hun. cbn [unmatched_findings app].
      rewrite !app_nil_r.
      assert (C1 : closing_findings seen (i, opener k) = []).
      { unfold closing_findings. apply flat_map_nil. intros k' Hk'. cbn [fst snd].
        destruct Hk as [<- | [<- | [<- | []]]];
          destruct Hk' as [<- | [<- | [<- | []]]]; reflexivity. }
      rewrite C1. cbn [app]. unfold closing_findings. apply flat_map_nil.
      intros k' Hk'. cbn [fst snd].
      destruct (eqb_chr (closer k) (closer k')) eqn:Ecl; [ | reflexivity].
      assert (k' = k).
      { destruct Hk as [<- | [<- | [<- | []]]];
          destruct Hk' as [<- | [<- | [<- | []]]];
          first [reflexivity | discriminate Ecl]. }
      subst k'. rewrite open_after_app. cbn [fold_left].
      rewrite (Hfold k _ Hk'), open_after_app. cbn [fold_left].
      unfold match_step at 1. cbn [fst snd]. rewrite eqb_chr_refl.
      destruct (open_after k seen); reflexivity.
  - destruct (IHu i) as (Happ1 & Hfold1 & Hun1).
    destruct (IHv (i + length u)) as (Happ2 & Hfold2 & Hun2).
    repeat split.
    + rewrite <- app_assoc, (proj1 (Happ1 (v ++ rest))), (proj1 (Happ2 rest)).
      rewrite (proj1 (Happ1 v)), <- app_assoc, length_app, Nat.add_assoc. reflexivity.
    + rewrite <- app_assoc, (proj2 (Happ1 (v ++ rest))). apply (proj2 (Happ2 rest)).
    + intros k st Hk. rewrite <- (app_nil_r (u ++ v)), <- app_assoc.
      rewrite (proj1 (Happ1 (v ++ []))), app_nil_r, fold_left_app.
      rewrite (Hfold1 k st Hk). apply Hfold2. exact Hk.
    + intros seen. rewrite <- (app_nil_r (u ++ v)), <- app_assoc.
      rewrite (proj1 (Happ1 (v ++ []))), app_nil_r, unmatched_findings_app.
      rewrite Hun1, Hun2. reflexivity.
Qed.

Lemma well_nested_findings w : well_nested w -> delimiter_findings w = [].
Proof.
  intros H. destruct (well_nested_visible w H 0) as (Happ & Hfold & Hun).
  unfold delimiter_findings. cbv zeta. rewrite Hun.
  pose proof (proj2 (Happ [])) as E. rewrite app_nil_r in E. rewrite E.
  cbn [ends_in_literal app]. unfold unclosed_findings. apply flat_map_nil.
  intros k Hk. unfold open_after. rewrite (Hfold k [] Hk). reflexivity.
Qed.

(** X7. A well-nested query gets no finding about delimiters or string
    literals: [_check_balanced_delimiters] appends nothing, and the
    report of [validate] has no such error. *)
Theorem X7_well_nested_passes : forall (order : list str) (q : str),
  well_nested (strip q) ->
  check_balanced_delimiters (init q) = init q /\
  filter is_delimiter_finding (report_errors (validate order q)) = [].
Proof.
  intros order q H. split.
  - rewrite check_balanced_delimiters_spec.
    change (query (init q)) with (strip q).
    rewrite (well_nested_findings _ H). reflexivity.
  - rewrite validate_delimiter_findings. apply well_nested_findings. exact H.
Qed.

Lemma X7_well_nested_passes_witness :
  well_nested (strip (lit " f(x[5m]) ")) /\
  filter is_delimiter_finding (report_errors (validate FUNCTIONS (lit " f(x[5m]) "))) = [].
Proof.
  assert (H : well_nested (strip (lit " f(x[5m]) "))).
  { exact (wn_app [_] _ (wn_ordinary "f" eq_refl)
             (wn_group paren _ (or_intror (or_intror (or_introl eq_refl)))
                (wn_app [_] _ (wn_ordinary "x" eq_refl)
                   (wn_group bracket _ (or_introl eq_refl)
                      (wn_app [_] [_] (wn_ordinary "5" eq_refl)
                         (wn_ordinary "m" eq_refl)))))). }
  split; [exact H | ].
  exact (proj2 (X7_well_nested_passes FUNCTIONS (lit " f(x[5m]) ") H)).
Defined.

End WellNested.

(** * The warning of [_check_operators] *)

Section DoubleOperator.
Import Py Re ReSem SyntaxValidator SyntaxSpec OperatorSpec.
Open Scope string_scope.
Open Scope nat_scope.
Open Scope list_scope.

Lemma operator_match c :
  cls_match false false (map CChar (lit "+-*/")) c = is_operator c.
Proof. reflexivity. Qed.

Lemma double_operator_lang w :
  lang false double_operator w <->
  exists a b rest, w = a :: b :: rest /\ is_operator a = true /\
                   is_operator b = true /\ forallb is_operator rest = true.
Proof.
  unfold double_operator. cbv zeta. rewrite lang_Seqs. split.
  - intros (ws & -> & H). forall2_inv.
    repeat match goal with
    | H : lang _ (one_of _) _ |- _ =>
        destruct H as (? & -> & H); rewrite operator_match in H
    | H : lang _ (Star (one_of _)) _ |- _ =>
        apply lang_star_cls in H
    end.
    cbn [concat app]. rewrite app_nil_r. eauto 10.
  - intros (a & b & rest & -> & Ha & Hb & Hr).
    exists [[a]; [b]; rest]. cbn [concat app]. rewrite app_nil_r.
    split; [reflexivity | ]. forall2_intro.
    + exists a. auto.
    + exists b. auto.
    + apply lang_star_cls. exact Hr.
Qed.

Lemma double_operator_search q :
  search false double_operator q = true <-> adjacent_operators q.
Proof.
  rewrite search_lang by reflexivity. split.
  - intros (pre & w & suf & -> & L). apply double_operator_lang in L.
    destruct L as (a & b & rest & -> & Ha & Hb & _).
    exists pre, a, b, (rest ++ suf). auto.
  - intros (u & a & b & v & -> & Ha & Hb). exists u, [a; b], v.
    split; [reflexivity | ]. apply double_operator_lang. exists a, b, []. auto.
Qed.

(** The other checks append no warning of the type [double_operator]. *)

Ltac other_step :=
  match goal with
  | |- grows _ _ ?v ?v => apply grows_refl
  | |- grows _ _ _ (add_error _ _) => apply grows_add_error; exact I
  | |- grows _ _ _ (add_warning _ _) => apply grows_add_warning; reflexivity
  | |- grows _ _ ?v (add_error _ ?w) => apply (grows_trans _ _ v w)
  | |- grows _ _ ?v (add_warning _ ?w) => apply (grows_trans _ _ v w)
  | |- grows _ _ _ (if ?b then _ else _) => destruct b
  end.

Lemma check_balanced_delimiters_other v :
  grows anything other v (check_balanced_delimiters v).
Proof.
  eapply grows_weaken; [ | | apply check_balanced_delimiters_grows].
  - intros f _. exact I.
  - intros f [].
Qed.

Lemma check_metric_selectors_other v :
  grows anything other v (check_metric_selectors v).
Proof.
  unfold check_metric_selectors, check_utf8_metric_syntax. cbv zeta.
  eapply grows_trans; [ | apply grows_for_each; intros x u; unfold wrong_utf8_one;
                          repeat other_step ].
  eapply grows_trans; [ | apply grows_for_each; intros x u; unfold utf8_one;
                          repeat other_step ].
  repeat other_step.
Qed.

Lemma check_time_ranges_other v : grows anything other v (check_time_ranges v).
Proof.
  apply grows_for_each. intros x u. unfold time_range_one. cbv zeta.
  repeat other_step.
Qed.

Lemma check_function_syntax_other order v :
  grows anything other v (check_function_syntax order v).
Proof.
  apply grows_for_each. intros x u. unfold function_one. cbv zeta.
  repeat other_step.
Qed.

Lemma check_common_typos_other v : grows anything other v (check_common_typos v).
Proof. unfold check_common_typos. cbv zeta. repeat other_step. Qed.

Lemma double_operator_filter q order :
  filter (of_type "double_operator") (report_warnings (validate order q))
  = if search false double_operator (strip q) then [double_operator_warning] else [].
Proof.
  unfold validate, build_result. cbn [report_warnings].
  rewrite validate_on_unfold. change (query (init q)) with (strip q).
  destruct (is_empty (strip q)) eqn:E.
  - apply is_empty_nil in E. rewrite E. reflexivity.
  - unfold later_checks.
    set (v4 := check_function_syntax order
                 (check_time_ranges
                    (check_metric_selectors (check_balanced_delimiters (init q))))).
    assert (H4 : grows anything other (init q) v4).
    { eapply grows_trans; [apply check_balanced_delimiters_other | ].
      eapply grows_trans; [apply check_metric_selectors_other | ].
      eapply grows_trans; [apply check_time_ranges_other | ].
      apply check_function_syntax_other. }
    destruct H4 as (Hq & es & ws & _ & Hw & _ & Hws).
    destruct (check_common_typos_other (check_operators v4))
      as (_ & es' & ws' & _ & Hw' & _ & Hws').
    rewrite Hw'. unfold check_operators. rewrite Hq.
    change (query (init q)) with (strip q).
    destruct (search false double_operator (strip q)).
    + unfold add_warning. cbn [warnings]. rewrite Hw. cbn [warnings init app].
      rewrite !filter_app, (filter_none _ ws Hws), (filter_none _ ws' Hws').
      reflexivity.
    + rewrite Hw. cbn [warnings init app].
      rewrite filter_app, (filter_none _ ws Hws), (filter_none _ ws' Hws').
      reflexivity.
Qed.

(** X8. The report of [validate] has the warning [double_operator], once,
    exactly when two of the characters [+-*/] stand side by side in the
    query, wherever they stand. *)
Theorem X8_double_operator_exactly : forall (order : list str) (q : str),
  (adjacent_operators (strip q) <->
   filter (of_type "double_operator") (report_warnings (validate order q))
     = [double_operator_warning]) /\
  (~ adjacent_operators (strip q) <->
   filter (of_type "double_operator") (report_warnings (validate order q)) = []).
Proof.
  intros order q. rewrite double_operator_filter, <- double_operator_search.
  destruct (search false double_operator (strip q)); split; split;
    first [reflexivity | discriminate | congruence ].
Qed.

End DoubleOperator.

(** * The errors of the best-practices checker *)

Section CheckerErrors.
Import Py Re ReSem BestPractices BestSpec BestErrors.
Open Scope string_scope.
Open Scope nat_scope.
Open Scope list_scope.

Lemma error_issues_add_issue f c :
  error_issues (add_issue f c)
  = error_issues c ++ (if has_severity error f then [f] else []).
Proof. unfold error_issues, add_issue. cbn [issues]. apply filter_app. Qed.

Lemma error_issues_add_quiet f c :
  has_severity error f = false -> error_issues (add_issue f c) = error_issues c.
Proof. intros H. rewrite error_issues_add_issue, H. apply app_nil_r. Qed.

Lemma error_issues_add_suggestion f c :
  error_issues (add_suggestion f c) = error_issues c.
Proof. reflexivity. Qed.

Lemma error_issues_add_optimization f c :
  error_issues (add_optimization f c) = error_issues c.
Proof. reflexivity. Qed.

Lemma error_issues_for_each {A} (body : A -> checker -> checker) xs :
  (forall x c, error_issues (body x c) = error_issues c) ->
  forall c, error_issues (for_each body xs c) = error_issues c.
Proof.
  intros Hb. unfold for_each.
  induction xs as [ | x xs IH]; intros c; [reflexivity | ].
  simpl. rewrite IH. apply Hb.
Qed.

Lemma error_issues_for_each_raising {A} (body : A -> checker -> outcome checker) xs :
  (forall x c c', body x c = Returned c' -> error_issues c' = error_issues c) ->
  forall c c', for_each_raising body xs c = Returned c' ->
               error_issues c' = error_issues c.
Proof.
  intros Hb. induction xs as [ | x xs IH]; intros c c' H; simpl in H.
  - inversion H. reflexivity.
  - destruct (body x c) as [c1 | e] eqn:E; simpl in H; [ | discriminate].
    rewrite (IH _ _ H). eapply Hb. exact E.
Qed.

(** One step of a check that appends no error. *)
Ltac quiet_step :=
  match goal with
  | |- error_issues ?c = error_issues ?c => reflexivity
  | |- error_issues (add_issue _ _) = _ =>
      rewrite error_issues_add_quiet by reflexivity
  | |- error_issues (add_suggestion _ _) = _ => rewrite error_issues_add_suggestion
  | |- error_issues (add_optimization _ _) = _ => rewrite error_issues_add_optimization
  | |- error_issues (if ?b then _ else _) = _ => destruct b
  | |- error_issues (let (_, _) := ?p in _) = _ => destruct p
  | |- error_issues (for_each _ _ _) = _ =>
      rewrite error_issues_for_each; [ | intros ]
  end.

Ltac quiet := cbv zeta; repeat quiet_step.

Ltac quiet_raising :=
  intros;
  repeat match goal with
  | p : (_ * _)%type |- _ => destruct p
  end;
  match goal with
  | H : bind ?m _ = Returned _ |- _ =>
      destruct m; simpl in H; [ | discriminate]
  end;
  match goal with
  | H : (if ?b then _ else _) = Returned _ |- _ =>
      destruct b; inversion H; subst; quiet
  end.

Lemma check_high_cardinality_quiet c :
  error_issues (check_high_cardinality c) = error_issues c.
Proof. unfold check_high_cardinality. quiet; unfold high_cardinality_one; quiet. Qed.

Lemma check_regex_overuse_quiet c :
  error_issues (check_regex_overuse c) = error_issues c.
Proof. unfold check_regex_overuse. quiet. unfold regex_overuse_one. quiet. Qed.

Lemma check_missing_rate_on_counters_quiet c :
  error_issues (check_missing_rate_on_counters c) = error_issues c.
Proof. unfold check_missing_rate_on_counters. quiet. unfold missing_rate_one. quiet. Qed.

Lemma check_rate_on_gauges_quiet c :
  error_issues (check_rate_on_gauges c) = error_issues c.
Proof. unfold check_rate_on_gauges. quiet. unfold rate_on_gauge_one. quiet. Qed.

Lemma check_subquery_performance_quiet c c' :
  check_subquery_performance c = Returned c' -> error_issues c' = error_issues c.
Proof.
  unfold check_subquery_performance. apply error_issues_for_each_raising.
  unfold subquery_one. quiet_raising.
Qed.

Lemma check_irate_range_quiet c c' :
  check_irate_range c = Returned c' -> error_issues c' = error_issues c.
Proof.
  unfold check_irate_range. apply error_issues_for_each_raising.
  unfold irate_one. quiet_raising.
Qed.

Lemma check_rate_range_quiet c c' :
  check_rate_range c = Returned c' -> error_issues c' = error_issues c.
Proof.
  unfold check_rate_range. apply error_issues_for_each_raising.
  unfold rate_one. quiet_raising.
Qed.

Lemma check_predict_linear_range_quiet c c' :
  check_predict_linear_range c = Returned c' -> error_issues c' = error_issues c.
Proof.
  unfold check_predict_linear_range. apply error_issues_for_each_raising.
  unfold predict_one. quiet_raising.
Qed.

Lemma check_unbounded_queries_quiet c :
  error_issues (check_unbounded_queries c) = error_issues c.
Proof. unfold check_unbounded_queries. quiet. unfold unbounded_one. quiet. Qed.

Lemma check_aggregation_best_practices_quiet c :
  error_issues (check_aggregation_best_practices c) = error_issues c.
Proof. unfold check_aggregation_best_practices. quiet. Qed.

Lemma check_recording_rule_opportunity_quiet c :
  error_issues (check_recording_rule_opportunity c) = error_issues c.
Proof. unfold check_recording_rule_opportunity. quiet. Qed.

Lemma check_label_matcher_efficiency_quiet c :
  error_issues (check_label_matcher_efficiency c) = error_issues c.
Proof. unfold check_label_matcher_efficiency. quiet. Qed.

Lemma check_histogram_usage_quiet c :
  error_issues (check_histogram_usage c) = error_issues c.
Proof. unfold check_histogram_usage. quiet. Qed.

Lemma check_deprecated_functions_quiet c :
  error_issues (check_deprecated_functions c) = error_issues c.
Proof. unfold check_deprecated_functions. quiet. Qed.

Lemma check_division_by_zero_risk_quiet c :
  error_issues (check_division_by_zero_risk c) = error_issues c.
Proof. unfold check_division_by_zero_risk. quiet. Qed.

Lemma check_changes_resets_alerting_quiet c :
  error_issues (check_changes_resets_alerting c) = error_issues c.
Proof. unfold check_changes_resets_alerting. quiet. Qed.

Lemma check_dimensional_metric_names_quiet c :
  error_issues (check_dimensional_metric_names c) = error_issues c.
Proof. unfold check_dimensional_metric_names. quiet. Qed.

Lemma check_native_histogram_usage_quiet c :
  error_issues (check_native_histogram_usage c) = error_issues c.
Proof.
  unfold check_native_histogram_usage. quiet; unfold native_hist_one; quiet.
Qed.

Lemma check_mixed_metric_types_quiet c :
  error_issues (check_mixed_metric_types c) = error_issues c.
Proof. unfold check_mixed_metric_types. quiet. Qed.

Lemma check_averaging_quantiles_errors c :
  error_issues (check_averaging_quantiles c)
  = error_issues c
    ++ (if search false averaging_quantiles_pattern (query c)
        then [averaging_quantiles] else []).
Proof.
  unfold check_averaging_quantiles.
  destruct (search false averaging_quantiles_pattern (query c)).
  - apply error_issues_add_issue.
  - symmetry. apply app_nil_r.
Qed.

Lemma check_absent_with_aggregation_errors c :
  error_issues (check_absent_with_aggregation c)
  = error_issues c
    ++ (if search false absent_by (query c) then [absent_with_by] else []).
Proof.
  unfold check_absent_with_aggregation. cbv zeta.
  destruct (search false absent_by (query c)).
  - fold absent_with_by. rewrite error_issues_add_issue. f_equal. quiet.
  - rewrite app_nil_r. quiet.
Qed.

Lemma check_vector_matching_errors c :
  error_issues (check_vector_matching c)
  = error_issues c
    ++ (if search false group_modifier (lower (query c))
           && negb (contains (lit "on(") (lower (query c))
                    || contains (lit "ignoring(") (lower (query c)))
        then [group_without_matching] else []).
Proof.
  unfold check_vector_matching. cbv zeta. fold group_without_matching.
  set (has_matching := contains (lit "on(") (lower (query c))
                       || contains (lit "ignoring(") (lower (query c))).
  set (found := search false group_modifier (lower (query c)) && negb has_matching).
  assert (E : forall w,
             error_issues (if found then add_issue group_without_matching w else w)
             = error_issues w ++ (if found then [group_without_matching] else [])).
  { intros w. destruct found; [apply error_issues_add_issue | ].
    symmetry. apply app_nil_r. }
  repeat match goal with
  | |- error_issues (if ?b then add_suggestion _ _ else _) = _ =>
      destruct b; [rewrite error_issues_add_suggestion | ]
  end; rewrite E; f_equal; quiet.
Qed.

(** The errors that [check] collects, by the query. *)
Lemma run_checks_errors c c' :
  run_checks c = Returned c' ->
  error_issues c'
  = error_issues c
    ++ (if search false averaging_quantiles_pattern (query c)
        then [averaging_quantiles] else [])
    ++ (if search false absent_by (query c) then [absent_with_by] else [])
    ++ (if search false group_modifier (lower (query c))
           && negb (contains (lit "on(") (lower (query c))
                    || contains (lit "ignoring(") (lower (query c)))
        then [group_without_matching] else []).
Proof.
  unfold run_checks. cbv zeta. intros H.
  apply bind_returned in H. destruct H as (c1 & E1 & H).
  apply bind_returned in H. destruct H as (c2 & E2 & H).
  apply bind_returned in H. destruct H as (c3 & E3 & H).
  apply bind_returned in H. destruct H as (c4 & E4 & H).
  inversion H; subst c'; clear H.
  rewrite check_mixed_metric_types_quiet, check_native_histogram_usage_quiet,
    check_vector_matching_errors, check_absent_with_aggregation_errors,
    check_dimensional_metric_names_quiet, check_changes_resets_alerting_quiet,
    check_division_by_zero_risk_quiet.
  rewrite (proj1 (check_absent_with_aggregation_grows _)),
    !(proj1 (check_dimensional_metric_names_grows _)),
    !(proj1 (check_changes_resets_alerting_grows _)),
    !(proj1 (check_division_by_zero_risk_grows _)).
  rewrite (check_predict_linear_range_quiet _ _ E4),
    !(proj1 (check_predict_linear_range_grows _ _ E4)).
  rewrite check_deprecated_functions_quiet, check_histogram_usage_quiet,
    check_label_matcher_efficiency_quiet, check_recording_rule_opportunity_quiet,
    check_aggregation_best_practices_quiet, check_unbounded_queries_quiet.
  rewrite !(proj1 (check_deprecated_functions_grows _)),
    !(proj1 (check_histogram_usage_grows _)),
    !(proj1 (check_label_matcher_efficiency_grows _)),
    !(proj1 (check_recording_rule_opportunity_grows _)),
    !(proj1 (check_aggregation_best_practices_grows _)),
    !(proj1 (check_unbounded_queries_grows _)).
  rewrite (check_rate_range_quiet _ _ E3), !(proj1 (check_rate_range_grows _ _ E3)).
  rewrite (check_irate_range_quiet _ _ E2), !(proj1 (check_irate_range_grows _ _ E2)).
  rewrite (check_subquery_performance_quiet _ _ E1),
    !(proj1 (check_subquery_performance_grows _ _ E1)).
  rewrite check_averaging_quantiles_errors, check_rate_on_gauges_quiet,
    check_missing_rate_on_counters_quiet, check_regex_overuse_quiet,
    check_high_cardinality_quiet.
  rewrite !(proj1 (check_averaging_quantiles_grows _)),
    !(proj1 (check_rate_on_gauges_grows _)),
    !(proj1 (check_missing_rate_on_counters_grows _)),
    !(proj1 (check_regex_overuse_grows _)),
    !(proj1 (check_high_cardinality_grows _)).
  rewrite <- !app_assoc. reflexivity.
Qed.

Lemma lang_plus_not_chr a w :
  lang false (Plus (not_chr a)) w <-> w <> [] /\ ~ In a w.
Proof. unfold not_chr. rewrite lang_plus_cls, forallb_not_chr_iff. tauto. Qed.

(** The words of the pattern of [absent ... by]. *)
Lemma absent_by_search s :
  search false absent_by s = true <-> absent_by_clause s.
Proof.
  rewrite (search_lang false absent_by s eq_refl).
  unfold absent_by_clause, absent_by. split.
  - intros (pre & w & suf & -> & L). apply lang_Seqs in L.
    destruct L as (ws & -> & H). forall2_inv.
    repeat match goal with
    | H : lang false (Lit _) _ |- _ => apply lang_Lit in H; subst
    | H : lang false (Chr _) _ |- _ => apply lang_Chr in H; subst
    | H : lang false spaces _ |- _ => apply lang_spaces in H
    | H : lang false (Plus (not_chr _)) _ |- _ => apply lang_plus_not_chr in H
    end.
    match goal with
    | |- context [concat [_; ?ws1; _; ?a; _; ?ws2; _; ?ws3; _]] =>
        exists pre, ws1, a, ws2, ws3, suf
    end.
    cbn [concat]. rewrite ?app_nil_r. repeat rewrite <- app_assoc. tauto.
  - intros (pre & ws1 & a & ws2 & ws3 & suf & -> & H1 & H2 & H3 & Ha & Hn).
    exists pre,
      (concat [lit "absent"; ws1; lit "("; a; lit ")"; ws2; lit "by"; ws3; lit "("]),
      suf.
    split; [cbn [concat]; rewrite ?app_nil_r; repeat rewrite <- app_assoc; reflexivity | ].
    apply lang_Seqs. eexists. split; [reflexivity | ].
    forall2_intro;
      first [ apply lang_Lit; reflexivity | apply lang_Chr; reflexivity
            | apply lang_spaces; assumption
            | apply lang_plus_not_chr; split; assumption ].
Qed.

(** The words of the pattern of the group modifiers. *)
Lemma group_modifier_search s :
  search false group_modifier s = true <->
  exists pre g ws suf,
    s = pre ++ lit g ++ ws ++ lit "(" ++ suf /\
    In g ["group_left"; "group_right"] /\
    forallb isspace ws = true /\ SyntaxSpec.ends_in_word pre = false.
Proof.
  change group_modifier
    with (Seq WordB (Seqs [Group 1 (AltLits ["group_left"; "group_right"]);
                           spaces; Chr "("%char])).
  rewrite search_word_lang by reflexivity. split.
  - intros (pre & w & suf & -> & L & Hb). apply lang_Seqs in L.
    destruct L as (ws & -> & H). forall2_inv.
    repeat match goal with
    | H : lang false (Group _ _) _ |- _ =>
        change (lang false (Group ?n ?r) ?w) with (lang false r w) in H;
        apply lang_AltLits in H; destruct H as (g & Hg & ->)
    | H : lang false (Chr _) _ |- _ => apply lang_Chr in H; subst
    | H : lang false spaces _ |- _ => apply lang_spaces in H
    end.
    match goal with
    | |- context [concat [_; ?ws1; _]] => exists pre, g, ws1, suf
    end.
    cbn [concat]. rewrite ?app_nil_r. repeat rewrite <- app_assoc.
    repeat split; try assumption.
    unfold at_boundary in Hb. rewrite word_before_ends in Hb.
    destruct (SyntaxSpec.ends_in_word pre); [ | reflexivity].
    exfalso. revert Hb. cbn [In] in Hg.
    destruct Hg as [<- | [<- | []]]; discriminate.
  - intros (pre & g & ws & suf & -> & Hg & Hws & Hb).
    exists pre, (concat [lit g; ws; lit "("]), suf.
    split; [cbn [concat]; rewrite ?app_nil_r; repeat rewrite <- app_assoc; reflexivity | ].
    split.
    + apply lang_Seqs. eexists. split; [reflexivity | ].
      forall2_intro;
        first [ apply lang_Chr; reflexivity | apply lang_spaces; assumption | idtac ].
      change (lang false (AltLits ["group_left"; "group_right"]) (lit g)).
      apply lang_AltLits. exists g. auto.
    + unfold at_boundary. rewrite word_before_ends, Hb.
      cbn [In] in Hg. destruct Hg as [<- | [<- | []]]; reflexivity.
Qed.

Lemma unmatched_group_modifier_search s :
  search false group_modifier (lower s)
  && negb (contains (lit "on(") (lower s) || contains (lit "ignoring(") (lower s))
  = true <-> unmatched_group_modifier s.
Proof.
  unfold unmatched_group_modifier.
  rewrite andb_true_iff, negb_true_iff, orb_false_iff, group_modifier_search. tauto.
Qed.

(** The errors of a report, by the query. *)
Lemma check_errors q r :
  check q = Returned r ->
  error_findings r
  = (if search false averaging_quantiles_pattern (strip q)
     then [averaging_quantiles] else [])
    ++ (if search false absent_by (strip q) then [absent_with_by] else [])
    ++ (if search false group_modifier (lower (strip q))
           && negb (contains (lit "on(") (lower (strip q))
                    || contains (lit "ignoring(") (lower (strip q)))
        then [group_without_matching] else []).
Proof.
  intros H. destruct (check_inv _ _ H) as (c & E & -> & Hg).
  destruct Hg as (_ & ni & ns & no & _ & Hs & Ho & _ & Ps & Po).
  cbn [init suggestions optimizations app] in Hs, Ho.
  unfold error_findings, build_result.
  cbn [report_issues report_suggestions report_optimizations].
  rewrite !filter_app, Hs, Ho.
  rewrite (filter_none (has_severity error) ns), (filter_none (has_severity error) no),
    !app_nil_r.
  - fold (error_issues c). unfold check_on in E.
    change (query (init q)) with (strip q) in E.
    destruct (is_empty (strip q)) eqn:Eq.
    + inversion E. apply is_empty_nil in Eq. rewrite Eq. reflexivity.
    + apply run_checks_errors in E. exact E.
  - eapply Forall_impl; [ | exact Po]. intros f Hf. unfold has_severity.
    rewrite Hf. reflexivity.
  - eapply Forall_impl; [ | exact Ps]. intros f Hf. unfold has_severity.
    rewrite Hf. reflexivity.
Qed.

Lemma In_when {A} (x y : A) (b : bool) :
  In x (if b then [y] else []) <-> x = y /\ b = true.
Proof.
  destruct b; simpl; split; try tauto.
  - intros [-> | []]. auto.
  - intros [-> _]. auto.
  - intros [_ H]. discriminate.
Qed.

(** X9. [check] reports three errors and no other: the average of
    quantiles, [absent] with a [by] clause, and a group modifier without
    [on(] or [ignoring(]. A report has each of them exactly when the
    query has its shape, and its status is [ERROR] exactly when the query
    has one of the three shapes. *)
Theorem X9_errors_of_check : forall (q : str) (r : Report),
  check q = Returned r ->
  (forall f, In f (error_findings r) <->
     (f = averaging_quantiles /\ quantile_average (strip q)) \/
     (f = absent_with_by /\ absent_by_clause (strip q)) \/
     (f = group_without_matching /\ unmatched_group_modifier (strip q))) /\
  (status r = "ERROR" <->
     quantile_average (strip q) \/ absent_by_clause (strip q) \/
     unmatched_group_modifier (strip q)).
Proof.
  intros q r H. pose proof (check_errors q r H) as E.
  assert (Hin : forall f, In f (error_findings r) <->
     (f = averaging_quantiles /\ quantile_average (strip q)) \/
     (f = absent_with_by /\ absent_by_clause (strip q)) \/
     (f = group_without_matching /\ unmatched_group_modifier (strip q))).
  { intros f. rewrite E, !in_app_iff, !In_when.
    rewrite averaging_quantiles_search, absent_by_search,
      unmatched_group_modifier_search. tauto. }
  split; [exact Hin | ].
  assert (Hst : status r = "ERROR" <-> error_findings r <> []).
  { destruct (check_inv _ _ H) as (c & _ & -> & _).
    unfold error_findings, build_result, any.
    cbn [status report_issues report_suggestions report_optimizations].
    set (all := issues c ++ suggestions c ++ optimizations c).
    destruct (existsb (has_severity error) all) eqn:Ee.
    - split; [ | reflexivity]. intros _ Hn.
      apply existsb_exists in Ee. destruct Ee as (f & Hf & Hsev).
      assert (Hf' : In f (filter (has_severity error) all))
        by (apply filter_In; auto).
      rewrite Hn in Hf'. destruct Hf'.
    - split.
      + destruct (existsb (has_severity warning) all); [discriminate | ].
        destruct (negb _ || negb _); discriminate.
      + intros Hn. exfalso. apply Hn.
        destruct (filter (has_severity error) all) as [ | f l] eqn:Ef; [reflexivity | ].
        assert (Hf : In f (filter (has_severity error) all)) by (rewrite Ef; left; auto).
        apply filter_In in Hf.
        assert (existsb (has_severity error) all = true)
          by (apply existsb_exists; exists f; exact Hf).
        congruence. }
  rewrite Hst. split.
  - intros Hn. destruct (error_findings r) as [ | f l] eqn:Ef; [congruence | ].
    destruct (proj1 (Hin f) (or_introl eq_refl)) as [[_ ?] | [[_ ?] | [_ ?]]]; auto.
  - intros Hs Hn.
    assert (exists f, In f (error_findings r)) as [f Hf].
    { destruct Hs as [Hs | [Hs | Hs]]; eexists; apply Hin; eauto. }
    rewrite Hn in Hf. destruct Hf.
Qed.

Lemma X9_errors_of_check_witness :
  exists r,
    check (lit "absent(up) by (job)") = Returned r /\
    (status r = "ERROR" <->
       quantile_average (strip (lit "absent(up) by (job)")) \/
       absent_by_clause (strip (lit "absent(up) by (job)")) \/
       unmatched_group_modifier (strip (lit "absent(up) by (job)"))).
Proof.
  destruct (check_returns (lit "absent(up) by (job)")) as [r Hr].
  { apply short_query_numbers. apply Nat.ltb_lt. reflexivity. }
  exists r. split; [exact Hr | ].
  exact (proj2 (X9_errors_of_check (lit "absent(up) by (job)") r Hr)).
Defined.

End CheckerErrors.

(** * The exit status of the two scripts *)

Section ExitStatus.
Import Py BestPractices BestSpec BestErrors.
Open Scope string_scope.
Open Scope list_scope.

Lemma summary_errors_status q r :
  check q = Returned r ->
  Nat.eqb (summary_errors (summary r)) 0 = negb (String.eqb (status r) "ERROR").
Proof.
  intros H. destruct (check_inv _ _ H) as (c & _ & -> & Hg).
  destruct Hg as (_ & ni & ns & no & _ & Hs & Ho & _ & Ps & Po).
  cbn [init suggestions optimizations app] in Hs, Ho.
  unfold build_result, any. cbn [summary summary_errors status].
  rewrite !existsb_app, Hs, Ho.
  assert (Hq : forall l, Forall (fun f => severity f = info) l ->
                         forall s, s <> info -> existsb (has_severity s) l = false).
  { intros l Hl s Hne. induction Hl as [ | f l Hf _ IH]; [reflexivity | ].
    simpl. rewrite IH, orb_false_r. unfold has_severity. rewrite Hf.
    destruct s; try reflexivity. congruence. }
  rewrite !(Hq ns Ps), !(Hq no Po), !orb_false_r by discriminate.
  induction (issues c) as [ | f l IH]; cbn [filter existsb length].
  - destruct (negb _ || negb _); reflexivity.
  - destruct (has_severity error f) eqn:Ef; [reflexivity | ].
    cbn [orb]. rewrite IH.
    destruct (existsb (has_severity error) l); [reflexivity | ].
    destruct (has_severity warning f), (existsb (has_severity warning) l),
      (negb _ || negb _); reflexivity.
Qed.

(** X10. [main] of [check_best_practices.py] exits with status 1 without a
    query; with one, further arguments are ignored, an exception of
    [check] is not caught, and a report gives the exit status 1 exactly
    when its status is [ERROR]: the count of errors in the summary, which
    looks at the issues only, and the status, which looks at all
    findings, agree. *)
Theorem X10_best_main_exit_status : forall (prog q : str) (rest : list str),
  BestMain.main [] = Returned 1%Z /\
  BestMain.main [prog] = Returned 1%Z /\
  BestMain.main (prog :: q :: rest) = BestMain.main [prog; q] /\
  match check q with
  | Returned r =>
      BestMain.main [prog; q]
      = Returned (if String.eqb (status r) "ERROR" then 1%Z else 0%Z)
  | Raised e => BestMain.main [prog; q] = Raised e
  end.
Proof.
  intros prog q rest. repeat split.
  unfold BestMain.main. cbn [length Nat.ltb Nat.leb nth]. cbv zeta.
  destruct (check q) as [r | e] eqn:E; [ | reflexivity].
  cbn [bind]. rewrite (summary_errors_status q r E).
  destruct (String.eqb (status r) "ERROR"); reflexivity.
Qed.

End ExitStatus.

Section SyntaxExitStatus.
Import Py SyntaxValidator.
Open Scope string_scope.
Open Scope list_scope.

(** X11. [main] of [validate_syntax.py] exits with status 1 without a query;
    with one, further arguments are ignored, and the exit status is 0
    exactly when the report has no error, whatever its warnings: it is 1
    exactly when the status of the report is [ERROR]. *)
Theorem X11_syntax_main_exit_status :
  forall (order : list str) (prog q : str) (rest : list str),
  SyntaxMain.main order [] = 1%Z /\
  SyntaxMain.main order [prog] = 1%Z /\
  SyntaxMain.main order (prog :: q :: rest) = SyntaxMain.main order [prog; q] /\
  (SyntaxMain.main order [prog; q] = 0%Z <-> report_errors (validate order q) = []) /\
  SyntaxMain.main order [prog; q]
  = (if String.eqb (status (validate order q)) "ERROR" then 1%Z else 0%Z).
Proof.
  intros order prog q rest. repeat split.
  - unfold SyntaxMain.main. cbn [length Nat.ltb Nat.leb nth]. cbv zeta.
    unfold validate, build_result. cbn [valid report_errors].
    destruct (errors (validate_on order (init q))); [reflexivity | discriminate].
  - unfold SyntaxMain.main. cbn [length Nat.ltb Nat.leb nth]. cbv zeta.
    unfold validate, build_result. cbn [valid report_errors].
    intros ->. reflexivity.
  - unfold SyntaxMain.main. cbn [length Nat.ltb Nat.leb nth]. cbv zeta.
    unfold validate, build_result. cbn [valid status].
    destruct (errors (validate_on order (init q))); cbn [length Nat.ltb Nat.leb negb];
      [ | reflexivity].
    destruct (warnings (validate_on order (init q))); reflexivity.
Qed.

End SyntaxExitStatus.

(** * Parts of a text *)

Section Parts.
Import Py.
Open Scope list_scope.






End Parts.

(** * The line index of the Azure Pipelines validator *)

Section AzureLineIndex.
Import stdpp.base stdpp.option stdpp.fin_maps stdpp.gmap stdpp.strings.
Import AzurePipelines AzureLines.
Open Scope string_scope.
Open Scope nat_scope.
Open Scope list_scope.








Lemma first_line_with_spec key lines : forall start,
  match first_line_with key start lines with
  | 0 => start <> 0 -> forall l, In l lines -> occurs_in key l = false
  | S n =>
      start <> 0 ->
      exists i l, S n = start + i /\ nth_error lines i = Some l /\
                  occurs_in key l = true /\
                  forall j l', j < i -> nth_error lines j = Some l' ->
                               occurs_in key l' = false
  end.
Proof.
  induction lines as [ | l lines IH]; intros start; [simpl; intros _ l [] | ].
  cbn [first_line_with]. destruct (occurs_in key l) eqn:E.
  - destruct start as [ | s]; [intros H; congruence | ]. intros _.
    exists 0, l. rewrite Nat.add_0_r. repeat split; auto. intros j l' Hj. lia.
  - specialize (IH (S start)).
    destruct (first_line_with key (S start) lines) as [ | n].
    + intros _ l' [<- | Hin]; [exact E | ]. apply IH; [discriminate | exact Hin].
    + intros _. destruct IH as (i & l' & En & Hn & Ho & Hfirst); [discriminate | ].
      exists (S i), l'. repeat split; auto; [lia | ].
      intros [ | j] l2 Hj H2; simpl in H2.
      * injection H2 as <-. exact E.
      * apply (Hfirst j); [lia | exact H2].
Qed.


End AzureLineIndex.

(** * The task format of the Azure Pipelines validator *)

Section AzureTaskFormat.
Import Py Re ReSem.
Import AzurePipelines AzureLines AzureTasks.
Open Scope string_scope.
Open Scope nat_scope.
Open Scope list_scope.

(** A pattern between [^] and [$]: the text is one of its words, with
    or without a line feed after it. *)
Lemma match_to_end_lang r s :
  simple r = true ->
  (match_to_end r s = true <->
   lang false r s \/ exists w, s = w ++ [newline] /\ lang false r w).
Proof.
  intros Hs. unfold match_to_end. split.
  - destruct (rmatch false r at_end (MState None s [])) as [res | ] eqn:E;
      [ | discriminate].
    intros _. destruct (rmatch_sound _ _ _ _ _ E) as (st' & M & Hk).
    destruct (matches_lang _ _ _ _ M) as (w & L & [Er _]). cbn [rest] in Er.
    unfold at_end in Hk. destruct (rest st') as [ | c [ | d t]]; [ | | discriminate].
    + left. rewrite app_nil_r in Er. subst. exact L.
    + right. destruct (eqb_chr c newline) eqn:Ec; [ | discriminate].
      apply eqb_chr_eq in Ec. subst c. exists w. auto.
  - intros H.
    assert (Hm : exists st', matches false r (MState None s []) st'
                             /\ at_end st' <> None).
    { destruct H as [L | (w & -> & L)].
      - destruct (lang_matches false r Hs s (MState None s []) [] L)
          as (st' & M & _ & R); [simpl; rewrite app_nil_r; reflexivity | ].
        exists st'. split; [exact M | ]. unfold at_end. rewrite R. discriminate.
      - destruct (lang_matches false r Hs w (MState None (w ++ [newline]) [])
                    [newline] L eq_refl) as (st' & M & _ & R).
        exists st'. split; [exact M | ]. unfold at_end. rewrite R. discriminate. }
    destruct Hm as (st' & M & Hk).
    destruct (rmatch false r at_end (MState None s [])) as [res | ] eqn:E;
      [reflexivity | ].
    exfalso. apply Hk. apply (rmatch_none _ _ _ _ E _ M).
Qed.

Lemma task_name_match c :
  cls_match false false
    [CRange 65 90; CRange 97 122; CRange 48 57;
     CChar "_"%char; CChar "-"%char; CChar "."%char] c
  = task_name_char c.
Proof.
  unfold cls_match, task_name_char. cbn [existsb item_match xorb].
  rewrite orb_false_r, !orb_assoc. reflexivity.
Qed.

Lemma task_pattern_lang t : lang false task_pattern t <-> task_reference t.
Proof.
  unfold task_pattern, task_reference. rewrite lang_Seqs. split.
  - intros (ws & -> & H). forall2_inv.
    repeat match goal with
    | H : lang false (Chr _) _ |- _ => apply lang_Chr in H; subst
    | H : lang false (Plus digit) _ |- _ =>
        apply lang_plus_cls in H;
        rewrite (forallb_ext_eq _ _ _ digit_match) in H; destruct H
    | H : lang false (Plus (Cls _ _)) _ |- _ =>
        apply lang_plus_cls in H;
        rewrite (forallb_ext_eq _ _ _ task_name_match) in H; destruct H
    end.
    match goal with
    | |- context [concat [?n; _; ?d]] => exists n, d
    end.
    cbn [concat app]. rewrite app_nil_r. auto.
  - intros (name & version & -> & Hn & Hnc & Hv & Hvc).
    exists [name; ["@"%char]; version]. cbn [concat app]. rewrite app_nil_r.
    split; [reflexivity | ]. forall2_intro.
    + apply lang_plus_cls. rewrite (forallb_ext_eq _ _ _ task_name_match). auto.
    + apply lang_Chr. reflexivity.
    + unfold digit. apply lang_plus_cls.
      rewrite (forallb_ext_eq _ _ _ digit_match). auto.
Qed.

Lemma task_pattern_match t :
  match_to_end task_pattern t = true <-> accepted_task t.
Proof.
  rewrite match_to_end_lang by reflexivity. unfold accepted_task.
  rewrite task_pattern_lang. split; intros [H | (w & E & H)]; auto; right; exists w;
    (split; [exact E | ]); apply task_pattern_lang; exact H.
Qed.

Lemma append_error_differs e v : append_error e v <> v.
Proof.
  intros H. apply (f_equal (fun x => length (errors x))) in H.
  cbn [append_error errors] in H. rewrite length_app in H. simpl in H. lia.
Qed.

(** X13. [_validate_task] leaves the instance alone for a task that is not a
    string, and for a string exactly when it is a task reference, that
    is a name of letters, digits, [_], [-] and [.], then [@] and a
    number, with or without a line feed after it. For any other string
    it appends one error of rule [task-invalid-format], whose line is 0
    only when no line of the file contains the text. *)
Theorem X13_task_format : forall (task : yaml) (context : string) (v : validator),
  match task with
  | YStr t =>
      (accepted_task (list_ascii_of_string t) <-> validate_task task context v = v) /\
      (validate_task task context v = v \/
       exists e,
         validate_task task context v = append_error e v /\
         severity e = "error" /\ rule e = "task-invalid-format" /\
         (line e = 0 -> forall l, In l (raw_lines v) -> occurs_in t l = false))
  | _ => validate_task task context v = v
  end.
Proof.
  intros task context v. destruct task as [ | b | z | t | items | items];
    try reflexivity.
  unfold validate_task.
  destruct (match_to_end task_pattern (list_ascii_of_string t)) eqn:E; cbn [negb].
  - split; [ | left; reflexivity]. split; [reflexivity | ].
    intros _. apply task_pattern_match. exact E.
  - split.
    + split.
      * intros H. apply task_pattern_match in H. congruence.
      * intros H. exfalso. exact (append_error_differs _ _ H).
    + right. eexists. split; [reflexivity | ]. cbn [severity rule line].
      split; [reflexivity | ]. split; [reflexivity | ].
      unfold find_line_containing.
      destruct (first_line_with (String.append "task: " t) 1 (raw_lines v));
        [ | discriminate].
      pose proof (first_line_with_spec t (raw_lines v) 1) as Hs.
      destruct (first_line_with t 1 (raw_lines v)); [ | discriminate].
      intros _. apply Hs. discriminate.
Qed.

End AzureTaskFormat.

(** * The text that [_check_high_cardinality] searches for metric names *)

Section StrippedSelectors.
Import Py Re BestPractices.
Open Scope string_scope.
Open Scope nat_scope.
Open Scope list_scope.

Lemma strip_char_result c s :
  result (strip_char c s) = result s \/
  result (strip_char c s) = result s ++ [" "%char] \/
  (result (strip_char c s) = result s ++ [c] /\
   eqb_chr c bslash = false /\ eqb_chr c dq = false /\
   eqb_chr c "{" = false /\ eqb_chr c "}" = false).
Proof.
  unfold strip_char.
  destruct (escape_next s); [left; reflexivity | ].
  destruct (eqb_chr c bslash) eqn:E1; [left; reflexivity | ].
  destruct (eqb_chr c dq) eqn:E2; [left; reflexivity | ].
  destruct (in_string s); [left; reflexivity | ].
  destruct (eqb_chr c "{") eqn:E3; [right; left; reflexivity | ].
  destruct (eqb_chr c "}") eqn:E4; [right; left; reflexivity | ].
  destruct (depth s =? 0); [right; right; auto | right; left; reflexivity].
Qed.

Lemma strip_loop_result w : forall s,
  exists added,
    result (fold_left (fun s c => strip_char c s) w s) = result s ++ added /\
    length added <= length w /\
    forallb (fun c => negb (existsb (eqb_chr c) (lit "{}`\"))) added = true.
Proof.
  induction w as [ | c w IH]; intros s.
  - exists []. rewrite app_nil_r. auto.
  - cbn [fold_left]. destruct (IH (strip_char c s)) as (added & E & Hl & Hf).
    destruct (strip_char_result c s) as [R | [R | (R & H1 & H2 & H3 & H4)]];
      rewrite R in E.
    + exists added. split; [exact E | ]. split; [simpl; lia | exact Hf].
    + exists (" "%char :: added). rewrite <- app_assoc in E.
      split; [exact E | ]. split; [simpl; lia | ].
      cbn [forallb]. rewrite Hf. reflexivity.
    + exists (c :: added). rewrite <- app_assoc in E.
      split; [exact E | ]. split; [simpl; lia | ].
      cbn [forallb]. rewrite Hf.
      change (existsb (eqb_chr c) (lit "{}`\"))
        with (eqb_chr c "{" || (eqb_chr c "}" || (eqb_chr c dq
              || (eqb_chr c bslash || false)))).
      rewrite H1, H2, H3, H4. reflexivity.
Qed.

(** X14. The text that [_strip_label_selectors_and_strings] returns has no
    brace, no double quote and no backslash, and it is no longer than the
    query after the grouping clauses have been replaced. *)
Theorem X14_stripped_selectors_alphabet : forall q : str,
  let stripped := strip_label_selectors_and_strings q in
  (forall c, In c stripped -> ~ In c (lit "{}`\")) /\
  length stripped
  <= length (sub false grouping_clause (fun m => group 1 m ++ lit " ( )") q).
Proof.
  intros q. unfold strip_label_selectors_and_strings. cbv zeta.
  destruct (strip_loop_result
              (sub false grouping_clause (fun m => group 1 m ++ lit " ( )") q)
              (StripState [] 0 false false)) as (added & E & Hl & Hf).
  rewrite E. cbn [result app]. split; [ | exact Hl].
  intros c Hc Hin. rewrite forallb_forall in Hf. specialize (Hf c Hc).
  apply negb_true_iff in Hf. apply In_chr in Hin. congruence.
Qed.

End StrippedSelectors.

(** * The empty query *)

Section EmptyQueryCheck.
Import Py BestPractices.
Open Scope string_scope.
Open Scope list_scope.

(** X15. For a query that is empty once the white space around it is gone,
    [check] runs no check: it returns a report without findings, with the
    status [OPTIMIZED], and [main] exits with status 0. *)
Theorem X15_check_empty_query : forall (prog q : str),
  strip q = [] ->
  check q = Returned (mkReport "OPTIMIZED" [] [] [] [] (mkSummary 0 0 0 0)) /\
  BestMain.main [prog; q] = Returned 0%Z.
Proof.
  intros prog q H.
  assert (E : check q
              = Returned (mkReport "OPTIMIZED" [] [] [] [] (mkSummary 0 0 0 0))).
  { unfold check, check_on, init. cbn [query]. rewrite H. reflexivity. }
  split; [exact E | ].
  unfold BestMain.main. cbn [length Nat.ltb Nat.leb nth]. cbv zeta.
  rewrite E. reflexivity.
Qed.

Lemma X15_check_empty_query_witness :
  strip (lit "  ") = [] /\
  check (lit "  ") = Returned (mkReport "OPTIMIZED" [] [] [] [] (mkSummary 0 0 0 0)).
Proof.
  split; [reflexivity | ].
  exact (proj1 (X15_check_empty_query [] (lit "  ") eq_refl)).
Defined.

End EmptyQueryCheck.


(** * The number of errors of the structure check *)

Section AzureStructureCount.
Import stdpp.base stdpp.option stdpp.fin_maps stdpp.gmap stdpp.strings.
Import AzurePipelines.
Open Scope string_scope.
Open Scope nat_scope.
Open Scope list_scope.

Lemma append_error_length e v :
  length (errors (append_error e v)) = S (length (errors v)).
Proof. cbn [append_error errors]. rewrite length_app. simpl. lia. Qed.

Lemma has_key_append key e v : has_key key (append_error e v) = has_key key v.
Proof. reflexivity. Qed.

(** X16. [_validate_structure] appends nothing to a document with [extends]
    at its root. To any other document it appends one error when the
    root has none of [stages], [jobs] and [steps], nothing when it has
    exactly one of them, one error when it has two, and three when it has
    all three; so it leaves the instance alone exactly when the root has
    [extends] or exactly one of the three keys. *)
Theorem X16_structure_error_count : forall v : validator,
  let count (key : string) := if has_key key v then 1 else 0 in
  let present := count "stages" + count "jobs" + count "steps" in
  length (errors (validate_structure v))
  = length (errors v)
    + (if has_key "extends" v then 0
       else match present with
            | 0 => 1
            | 1 => 0
            | 2 => 1
            | _ => 3
            end) /\
  (validate_structure v = v <-> has_key "extends" v = true \/ present = 1).
Proof.
  intros v count present. subst count present. cbv beta.
  unfold validate_structure. cbv zeta.
  destruct (has_key "extends" v); [split; [lia | tauto] | ].
  destruct (has_key "stages" v), (has_key "jobs" v), (has_key "steps" v);
    cbn [negb orb andb Nat.add];
    rewrite ?append_error_length;
    (split; [lia | ]);
    (split;
     [ intros H; try (right; reflexivity);
       apply (f_equal (fun x => length (errors x))) in H;
       rewrite ?append_error_length in H; lia
     | intros [H | H]; first [discriminate H | reflexivity] ]).
Qed.

End AzureStructureCount.

(** * The names of variables in the Azure Pipelines validator *)

Section AzureVariableNames.
Import Py Re ReSem.
Import AzurePipelines AzureLines AzureTasks AzureVariables.
Open Scope string_scope.
Open Scope nat_scope.
Open Scope list_scope.

Lemma name_start_cls c :
  cls_match false false [CRange 65 90; CRange 97 122; CChar "_"%char] c = name_start c.
Proof.
  unfold cls_match, name_start. cbn [existsb item_match xorb].
  rewrite orb_false_r, !orb_assoc. reflexivity.
Qed.

Lemma name_char_cls c :
  cls_match false false
    [CRange 65 90; CRange 97 122; CRange 48 57; CChar "_"%char] c = name_char c.
Proof.
  unfold cls_match, name_char. cbn [existsb item_match xorb].
  rewrite orb_false_r, !orb_assoc. reflexivity.
Qed.

Lemma variable_pattern_lang n :
  lang false variable_pattern n <-> is_variable_name n = true.
Proof.
  unfold variable_pattern.
  change (lang false (Seq ?r1 ?r2) n)
    with (exists w1 w2, n = w1 ++ w2 /\ lang false r1 w1 /\ lang false r2 w2).
  split.
  - intros (w1 & w2 & -> & (c & -> & Hc) & H2).
    apply lang_star_cls in H2. rewrite name_start_cls in Hc.
    rewrite (forallb_ext_eq _ _ _ name_char_cls) in H2.
    simpl. rewrite Hc, H2. reflexivity.
  - destruct n as [ | c rest]; [discriminate | ]. cbn [is_variable_name]. intros H.
    apply andb_prop in H. destruct H as [Hc Hr].
    exists [c], rest. split; [reflexivity | ]. split.
    + exists c. split; [reflexivity | ]. rewrite name_start_cls. exact Hc.
    + apply lang_star_cls. rewrite (forallb_ext_eq _ _ _ name_char_cls). exact Hr.
Qed.

Lemma name_char_not_newline c : name_char c = true -> eqb_chr c newline = false.
Proof.
  intros H. destruct (eqb_chr c newline) eqn:E; [ | reflexivity].
  apply eqb_chr_eq in E. subst c. discriminate H.
Qed.

Lemma is_variable_name_last w c :
  is_variable_name (w ++ [c]) = true -> eqb_chr c newline = false.
Proof.
  destruct w as [ | a w]; simpl.
  - rewrite andb_true_r. intros H. apply name_char_not_newline.
    unfold name_start in H. unfold name_char.
    repeat (apply orb_prop in H; destruct H as [H | H]); rewrite H;
      rewrite ?orb_true_r; reflexivity.
  - intros H. apply andb_prop in H. destruct H as [_ H].
    rewrite forallb_app in H. apply andb_prop in H. destruct H as [_ H].
    simpl in H. rewrite andb_true_r in H. apply name_char_not_newline. exact H.
Qed.

Lemma accepted_name_iff n :
  accepted_name n = true <->
  is_variable_name n = true \/
  exists w, n = w ++ [newline] /\ is_variable_name w = true.
Proof.
  unfold accepted_name, without_final_newline.
  destruct n as [ | a n0] using rev_ind.
  - simpl. split; [discriminate | ]. intros [H | (w & H & _)]; [discriminate | ].
    destruct w; discriminate.
  - clear IHn0. rewrite rev_app_distr. cbn [rev app].
    destruct (eqb_chr a newline) eqn:E.
    + apply eqb_chr_eq in E. subst a. rewrite rev_involutive. split.
      * intros H. right. exists n0. auto.
      * intros [H | (w & Hw & H)].
        -- apply is_variable_name_last in H. discriminate.
        -- apply app_inj_tail in Hw. destruct Hw as [-> _]. exact H.
    + split; [auto | ]. intros [H | (w & Hw & _)]; [exact H | ].
      apply app_inj_tail in Hw. destruct Hw as [_ ->]. discriminate.
Qed.

Lemma variable_pattern_match n :
  match_to_end variable_pattern n = accepted_name n.
Proof.
  apply eq_true_iff_eq. rewrite match_to_end_lang by reflexivity.
  rewrite accepted_name_iff, variable_pattern_lang.
  split; intros [H | (w & E & H)]; auto; right; exists w;
    (split; [exact E | ]); apply variable_pattern_lang; exact H.
Qed.

Lemma with_errors_nil v : with_errors v [] = v.
Proof. destruct v. unfold with_errors. simpl. rewrite app_nil_r. reflexivity. Qed.

Lemma validate_variable_name_step v es n :
  validate_variable_name (YStr n) (with_errors v es)
  = Done (with_errors v (es ++ warnings_for v [n])).
Proof.
  unfold validate_variable_name, warnings_for. cbn [filter map].
  rewrite variable_pattern_match.
  destruct (accepted_name (list_ascii_of_string n)); cbn [negb map].
  - rewrite app_nil_r. reflexivity.
  - unfold append_error, with_errors. cbn [errors config line_map raw_lines].
    rewrite <- app_assoc. reflexivity.
Qed.

Lemma warnings_for_cons v n ns :
  warnings_for v [n] ++ warnings_for v ns = warnings_for v (n :: ns).
Proof.
  unfold warnings_for. cbn [filter].
  destruct (negb (accepted_name (list_ascii_of_string n))); reflexivity.
Qed.

Lemma validate_variable_keys_spec items : forall v es,
  validate_variable_keys items (with_errors v es)
  = match strings_of (map fst items) with
    | Some ns => Done (with_errors v (es ++ warnings_for v ns))
    | None => Raise TypeError
    end.
Proof.
  induction items as [ | [key x] items IH]; intros v es.
  - cbn [validate_variable_keys map strings_of]. unfold warnings_for.
    cbn [filter map]. rewrite app_nil_r. reflexivity.
  - cbn [validate_variable_keys map fst].
    destruct key as [ | b | z | n | xs | ys]; try reflexivity.
    rewrite validate_variable_name_step, IH. cbn [strings_of].
    destruct (strings_of (map fst items)) as [ns | ]; [ | reflexivity].
    rewrite <- app_assoc, warnings_for_cons. reflexivity.
Qed.

(** One name that is not a string is enough for [strings_of] to fail. *)
Lemma strings_of_none names name :
  In name names -> (forall n, name <> YStr n) -> strings_of names = None.
Proof.
  intros Hin Hn. induction names as [ | a names IH]; [destruct Hin | ].
  destruct Hin as [-> | Hin].
  - destruct name as [ | b | z | n | xs | ys]; try reflexivity.
    destruct (Hn n eq_refl).
  - destruct a as [ | b | z | n | xs | ys]; try reflexivity.
    cbn [strings_of]. rewrite (IH Hin). reflexivity.
Qed.

Lemma validate_variable_list_spec vars : forall v es,
  validate_variable_list vars (with_errors v es)
  = match strings_of (declared_names (YSeq vars)) with
    | Some ns => Done (with_errors v (es ++ warnings_for v ns))
    | None => Raise TypeError
    end.
Proof.
  induction vars as [ | var vars IH]; intros v es.
  - cbn. unfold warnings_for. cbn [filter map]. rewrite app_nil_r. reflexivity.
  - cbn [validate_variable_list declared_names flat_map]. cbv zeta.
    change (flat_map _ vars) with (declared_names (YSeq vars)).
    assert (Hskip : validate_variable_list vars (with_errors v es)
                    = match strings_of ([] ++ declared_names (YSeq vars)) with
                      | Some ns => Done (with_errors v (es ++ warnings_for v ns))
                      | None => Raise TypeError
                      end) by apply IH.
    destruct var as [ | b | z | s | xs | items]; try exact Hskip.
    destruct (ymap_get "name" items) as [name | ]; [ | exact Hskip].
    destruct name as [ | b | z | n | xs | ys]; try reflexivity.
    rewrite validate_variable_name_step, IH. cbn [app strings_of].
    destruct (strings_of (declared_names (YSeq vars))) as [ns | ]; [ | reflexivity].
    rewrite <- app_assoc, warnings_for_cons. reflexivity.
Qed.

(** X17. [_validate_variables] looks at the keys of a mapping of variables,
    or at the [name] entries of the mappings in a list of variables. If
    one of these names is not a string it raises [TypeError]: so does a
    mapping with a key that is not a string, and a list with a mapping
    whose [name] is not a string. Otherwise it appends, in their order,
    one warning of rule [variable-invalid-name] for each name that is
    not accepted, and nothing else. A name is accepted when it is a
    letter or underscore followed by letters, digits and underscores,
    with or without a line feed after it. *)
Theorem X17_variable_names : forall (variables : yaml) (v : validator),
  validate_variables variables v
  = match strings_of (declared_names variables) with
    | Some ns => Done (with_errors v (warnings_for v ns))
    | None => Raise TypeError
    end /\
  (forall name, In name (declared_names variables) ->
     (forall n, name <> YStr n) ->
     validate_variables variables v = Raise TypeError) /\
  (forall items key, variables = YMap items -> In key (map fst items) ->
     In key (declared_names variables)) /\
  (forall n w, In w (warnings_for v n) ->
     severity w = "warning" /\ rule w = "variable-invalid-name") /\
  (forall n : str,
     accepted_name n = true <->
     is_variable_name n = true \/
     exists w, n = w ++ [newline] /\ is_variable_name w = true).
Proof.
  intros variables v.
  assert (E : validate_variables variables v
              = match strings_of (declared_names variables) with
                | Some ns => Done (with_errors v (warnings_for v ns))
                | None => Raise TypeError
                end).
  { rewrite <- (with_errors_nil v) at 1.
    destruct variables as [ | b | z | s | vars | items];
      try (cbn; rewrite !with_errors_nil; reflexivity).
    - unfold validate_variables. rewrite validate_variable_list_spec.
      destruct (strings_of _); reflexivity.
    - unfold validate_variables, declared_names.
      rewrite validate_variable_keys_spec.
      destruct (strings_of _); reflexivity. }
  split; [exact E | ]. split; [ | split; [ | split]].
  - intros name Hin Hn. rewrite E, (strings_of_none _ _ Hin Hn). reflexivity.
  - intros items key -> Hin. exact Hin.
  - intros n w H. unfold warnings_for in H. apply in_map_iff in H.
    destruct H as (x & <- & _). split; reflexivity.
  - apply accepted_name_iff.
Qed.

(** A mapping of variables with the key [True], as [on: x] is read. *)
Lemma X17_variable_names_witness :
  In (YBool true)
     (declared_names (YMap [(YStr "a", YStr "1"); (YBool true, YStr "x")])) /\
  validate_variables (YMap [(YStr "a", YStr "1"); (YBool true, YStr "x")]) fresh
  = Raise TypeError.
Proof.
  split; [right; left; reflexivity | ].
  apply (proj1 (proj2 (X17_variable_names
                         (YMap [(YStr "a", YStr "1"); (YBool true, YStr "x")])
                         fresh))
           (YBool true)).
  - right. left. reflexivity.
  - intros n. discriminate.
Defined.

End AzureVariableNames.
